(** * obsidian-local-rest-api-mcp: the tool dispatcher and the REST client

    A shallow embedding of [src/index.ts]: the [ObsidianApiClient] class (one
    method per REST endpoint, all funnelled through [request]) and the two
    request handlers installed by [ObsidianMcpServer.setupTools] (the tool
    catalog and the call dispatcher).

    The file is organised as the program is:
    - [JS]: the fragment of the JavaScript runtime the program relies on
      (strings as UTF-16 code units, Numbers as the doubles they are with
      [Number::toString], JSON values, [ToString], truthiness,
      [encodeURIComponent], [URLSearchParams], [JSON.stringify],
      [JSON.parse]);
    - [Net]: [fetch], seen as an oracle, and the monad of computations that
      may throw and that log every [fetch] call;
    - [Config], [ObsidianApiClient] and [ObsidianMcpServer]: the program;
    - [Spec]: the words the statements use (the calls an invocation adds to
      the log, the defaults a tool declares, ...);
    - the facts about the runtime fragment: the digits [Number::toString]
      writes round back to the Number, and [JSON.parse] reads back what
      [JSON.stringify] wrote;
    - [Cli], [Main] and [LegacyServer]: the command line, the environment
      and the earlier server of the same file, with [SpecX], the words of
      their statements;
    - [Dispatch]: what every client method and the call handler do;
    - the specification, claim by claim;
    - further properties of the program, the earlier server included. *)

From Stdlib Require Import List NArith ZArith Ascii String Bool Lia Permutation.
From Stdlib Require DecimalN DecimalFacts DecimalPos.
Import ListNotations.

Set Implicit Arguments.
Set Warnings "-register-all".

(* ===================================================================== *)
(** * The JavaScript runtime fragment                                     *)
(* ===================================================================== *)

Module JS.

(** ** Strings

    A JavaScript string is a sequence of UTF-16 code units.  A code unit is
    kept as an [N]; real strings only hold values below [65536], and no
    definition below depends on that bound. *)

Definition code_unit := N.
Definition jsstring := list code_unit.

(** String literals of the source, all ASCII. *)
Definition lit (s : string) : jsstring :=
  List.map N_of_ascii (list_ascii_of_string s).

(** [===] on strings. *)
Fixpoint eqb (a b : jsstring) : bool :=
  match a, b with
  | [], [] => true
  | x :: a', y :: b' => N.eqb x y && eqb a' b'
  | _, _ => false
  end.

(** [hay.includes(needle)] as a proposition: [needle] occurs in [hay]. *)
Definition contains (hay needle : jsstring) : Prop :=
  exists pre post, hay = pre ++ needle ++ post.

Fixpoint join (sep : jsstring) (parts : list jsstring) : jsstring :=
  match parts with
  | [] => []
  | [p] => p
  | p :: rest => p ++ sep ++ join sep rest
  end.

Definition is_high_surrogate (c : code_unit) : bool :=
  (0xD800 <=? c)%N && (c <=? 0xDBFF)%N.
Definition is_low_surrogate (c : code_unit) : bool :=
  (0xDC00 <=? c)%N && (c <=? 0xDFFF)%N.
Definition is_surrogate (c : code_unit) : bool :=
  (0xD800 <=? c)%N && (c <=? 0xDFFF)%N.

(** A string is well formed when every surrogate is half of a pair
    ([String.prototype.isWellFormed]). *)
Fixpoint isWellFormed (s : jsstring) : bool :=
  match s with
  | [] => true
  | c :: rest =>
      if is_high_surrogate c then
        match rest with
        | d :: rest' => is_low_surrogate d && isWellFormed rest'
        | [] => false
        end
      else if is_low_surrogate c then false
      else isWellFormed rest
  end.

(** WebIDL's conversion to [USVString]: every unpaired surrogate becomes
    U+FFFD. *)
Fixpoint ToUSVString (s : jsstring) : jsstring :=
  match s with
  | [] => []
  | c :: rest =>
      if is_high_surrogate c then
        match rest with
        | d :: rest' =>
            if is_low_surrogate d then c :: d :: ToUSVString rest'
            else 0xFFFD%N :: ToUSVString rest
        | [] => [0xFFFD%N]
        end
      else if is_low_surrogate c then 0xFFFD%N :: ToUSVString rest
      else c :: ToUSVString rest
  end.

(** ** Thrown values

    Everything the program or the runtime throws here is an [Error] object;
    a thrown value is kept as its class and its [message].  The messages of
    the errors raised by the engine itself are V8's wording. *)

Inductive ErrorClass := Error | TypeError | URIError | SyntaxError.

Record exn := Throw { class : ErrorClass; message : jsstring }.

Definition result (A : Type) := (exn + A)%type.

Definition bindR {A B} (m : result A) (k : A -> result B) : result B :=
  match m with
  | inl e => inl e
  | inr a => k a
  end.

(** ** Numbers

    A Number is an IEEE-754 double.  The program computes with none: it
    turns them into text and tests them for truth, so a Number is kept as
    the value it denotes.  A finite one is [m * 2^e] with a sign, written
    in the one form where [2^52 <= m < 2^53] (normal) or [e = -1074]
    (subnormal, and zero); the others are the two infinities.  [NaN] does
    not arise: no JSON text denotes it and the program does no arithmetic.

    In a JSON value an integer of magnitude at most [2^53 - 1] (a safe
    integer) is kept as a [Z], and every other Number as a [double]. *)

Definition MAX_SAFE_INTEGER : Z := 9007199254740991.

Definition is_safe_integer (z : Z) : bool :=
  (- MAX_SAFE_INTEGER <=? z)%Z && (z <=? MAX_SAFE_INTEGER)%Z.

Definition digit_unit (d : N) : code_unit := (48 + d)%N.

Fixpoint uint_units (d : Decimal.uint) : jsstring :=
  match d with
  | Decimal.Nil => []
  | Decimal.D0 r => digit_unit 0 :: uint_units r
  | Decimal.D1 r => digit_unit 1 :: uint_units r
  | Decimal.D2 r => digit_unit 2 :: uint_units r
  | Decimal.D3 r => digit_unit 3 :: uint_units r
  | Decimal.D4 r => digit_unit 4 :: uint_units r
  | Decimal.D5 r => digit_unit 5 :: uint_units r
  | Decimal.D6 r => digit_unit 6 :: uint_units r
  | Decimal.D7 r => digit_unit 7 :: uint_units r
  | Decimal.D8 r => digit_unit 8 :: uint_units r
  | Decimal.D9 r => digit_unit 9 :: uint_units r
  end.

(** The decimal numeral of a natural number, without leading zeros. *)
Definition N_toString (n : N) : jsstring := uint_units (N.to_uint n).

(** The decimal numeral of an integer. *)
Definition integer_toString (z : Z) : jsstring :=
  match z with
  | Z0 => lit "0"
  | Zpos p => N_toString (Npos p)
  | Zneg p => lit "-" ++ N_toString (Npos p)
  end.

(** [Finite negative m e] is [m * 2^e], or its opposite; with [m = 0] it
    is one of the two zeros. *)
Inductive double :=
| Finite (negative : bool) (m e : Z)
| Infinite (negative : bool).

Local Open Scope Z_scope.

(** The one form of a finite Number: normal, or subnormal (with zero). *)
Definition double_canonical (m e : Z) : bool :=
  ((2 ^ 52 <=? m) && (m <? 2 ^ 53) && (-1074 <=? e) && (e <=? 971))
  || ((0 <=? m) && (m <? 2 ^ 52) && (e =? -1074)).

(** The Number [m * 2^e], in that form, is an integer below [2^53]. *)
Definition is_integral (m e : Z) : bool :=
  (e <=? 0) && (m mod 2 ^ (- e) =? 0).

(** [p / q] rounded to the nearest integer, a tie to the even one. *)
Definition div_round_even (p q : Z) : Z :=
  let d := p / q in
  match 2 * (p mod q) ?= q with
  | Lt => d
  | Gt => d + 1
  | Eq => if Z.even d then d else d + 1
  end.

(** The Number value for the rational [p / q] (with [0 <= p] and
    [0 < q]): the nearest [m * 2^e], a tie to the even [m]; [None] stands
    for the infinity taken beyond the largest finite Number.  Every finite
    Number is a multiple of [2^-1074], so the rational is first written in
    that unit: [shift] is the number of bits to drop for [m] to fit in 53
    bits. *)
Definition round_ratio (p q : Z) : option (Z * Z) :=
  let P := p * 2 ^ 1074 in
  let shift := Z.max (Z.log2 (P / q) - 52) 0 in
  let m := div_round_even P (q * 2 ^ shift) in
  let (m', shift') := if m =? 2 ^ 53 then (2 ^ 52, shift + 1) else (m, shift) in
  if shift' - 1074 <=? 971 then Some (m', shift' - 1074) else None.

(** The integer a string of decimal digits denotes. *)
Definition digits_value (ds : jsstring) : Z :=
  fold_left (fun a c => 10 * a + Z.of_N (c - 48)) ds 0.

(** [p / q * 10^j], as a fraction. *)
Definition scale10 (p q j : Z) : Z * Z :=
  if 0 <=? j then (p * 10 ^ j, q) else (p, q * 10 ^ (- j)).

(** The Number value for the decimal [ds * 10^t]. *)
Definition round_decimal (ds : jsstring) (t : Z) : option (Z * Z) :=
  let (p, q) := scale10 (digits_value ds) 1 t in round_ratio p q.

Fixpoint strip_leading_zeros (ds : jsstring) : jsstring :=
  match ds with
  | c :: r => if (c =? 48)%N then strip_leading_zeros r else ds
  | [] => []
  end.

Definition strip_trailing_zeros (ds : jsstring) : jsstring :=
  rev (strip_leading_zeros (rev ds)).

(** The decimal [s * 10^t] as its digits without trailing zeros, and the
    exponent of the last digit kept. *)
Definition decimal_of (s t : Z) : jsstring * Z :=
  let ds := N_toString (Z.to_N s) in
  let D := strip_trailing_zeros ds in
  (D, t + Z.of_nat (List.length ds - List.length D)).

Definition numeral_length (p : Z) : Z :=
  Z.of_nat (List.length (N_toString (Z.to_N p))).

(** The [n] with [10^(n-1) <= p / q < 10^n]. *)
Definition decimal_exponent (p q : Z) : Z :=
  let d := numeral_length p - numeral_length q in
  let (p', q') := scale10 p q (- d) in
  if q' <=? p' then d + 1 else d.

(** The decimal [c] denotes a rational whose Number value is [m * 2^e]. *)
Definition rounds_to (m e : Z) (c : jsstring * Z) : bool :=
  match round_decimal (fst c) (snd c) with
  | Some (m', e') => (m' =? m) && (e' =? e)
  | None => false
  end.

(** [Number::toString], step 5: the digits.  Among the decimals of [k]
    digits whose Number value is [p / q = m * 2^e], the one closest to
    it, the even one of two equally close: they are among the two
    decimals of [k] digits around [p / q]. *)
Definition candidate_digits (m e p q n k : Z) : option (jsstring * Z) :=
  let (P, Q) := scale10 p q (k - n) in
  let lo := decimal_of (P / Q) (n - k) in
  let hi := decimal_of (P / Q + 1) (n - k) in
  let r := P mod Q in
  if r =? 0 then (if rounds_to m e lo then Some lo else None)
  else
    match rounds_to m e lo, rounds_to m e hi with
    | true, true =>
        match 2 * r ?= Q with
        | Lt => Some lo
        | Gt => Some hi
        | Eq => if Z.even (P / Q) then Some lo else Some hi
        end
    | true, false => Some lo
    | false, true => Some hi
    | false, false => None
    end.

(** The least [k] that has such a decimal. *)
Fixpoint search_digits (fuel : nat) (m e p q n k : Z) : option (jsstring * Z) :=
  match fuel with
  | O => None
  | S fuel' =>
      match candidate_digits m e p q n k with
      | Some c => Some c
      | None => search_digits fuel' m e p q n (k + 1)
      end
  end.

(** [m * 2^e] written out in full. *)
Definition exact_decimal (m e : Z) : jsstring * Z :=
  if 0 <=? e then decimal_of (m * 2 ^ e) 0 else decimal_of (m * 5 ^ (- e)) e.

(** The digits of a positive Number, and the exponent of the last one.
    Seventeen digits tell any two Numbers apart, so the search stops
    there; the full expansion closes the definition. *)
Definition shortest_digits (m e : Z) : jsstring * Z :=
  let (p, q) := if 0 <=? e then (m * 2 ^ e, 1) else (m, 2 ^ (- e)) in
  match search_digits 17 m e p q (decimal_exponent p q) 1 with
  | Some c => c
  | None => exact_decimal m e
  end.

Definition zeros (n : Z) : jsstring := repeat 48%N (Z.to_nat n).

(** [Number::toString], steps 6 to 10: the digits [D] (there are [k]) of
    a Number between [10^(n-1)] and [10^n] are laid out as an integer, with
    a decimal point, or with an exponent. *)
Definition format_decimal (D : jsstring) (n : Z) : jsstring :=
  let k := Z.of_nat (List.length D) in
  if (k <=? n) && (n <=? 21) then D ++ zeros (n - k)
  else if (0 <? n) && (n <=? 21) then
    firstn (Z.to_nat n) D ++ lit "." ++ skipn (Z.to_nat n) D
  else if (-6 <? n) && (n <=? 0) then lit "0." ++ zeros (- n) ++ D
  else
    let x := n - 1 in
    let exponent :=
      (if 0 <=? x then lit "+" else lit "-") ++ N_toString (Z.to_N (Z.abs x)) in
    match D with
    | [] => []
    | [d] => [d] ++ lit "e" ++ exponent
    | d :: r => [d] ++ lit "." ++ r ++ lit "e" ++ exponent
    end.

(** [Number::toString] on a [double]. *)
Definition Double_toString (d : double) : jsstring :=
  match d with
  | Infinite false => lit "Infinity"
  | Infinite true => lit "-Infinity"
  | Finite negative m e =>
      if m =? 0 then lit "0"
      else
        (if negative then lit "-" else [])
          ++ (let (D, t) := shortest_digits m e in
              format_decimal D (Z.of_nat (List.length D) + t))
  end.

(** The Number value of an integer. *)
Definition double_of_Z (z : Z) : double :=
  match round_ratio (Z.abs z) 1 with
  | Some (m, e) => Finite (z <? 0) m e
  | None => Infinite (z <? 0)
  end.

(** [Number::toString] on the Number value of an integer: the decimal
    numeral as long as the integer is safe. *)
Definition Number_toString (z : Z) : jsstring :=
  if is_safe_integer z then integer_toString z
  else Double_toString (double_of_Z z).

Local Close Scope Z_scope.

(** ** JSON values, and [undefined] *)

Inductive json :=
| JNull
| JBool (b : bool)
| JNum (z : Z)
| JFloat (d : double)
| JStr (s : jsstring)
| JArr (elems : list json)
| JObj (props : list (jsstring * json)).

(** A value the program handles is a JSON value or [undefined]. *)
Definition value := option json.
Abbreviation undefined := (@None json).

(** Own-property lookup in the property list of an object. *)
Fixpoint get (o : list (jsstring * json)) (k : jsstring) : value :=
  match o with
  | [] => undefined
  | (k', v) :: rest => if eqb k k' then Some v else get rest k
  end.

Definition has_own (o : list (jsstring * json)) (k : jsstring) : bool :=
  match get o k with Some _ => true | None => false end.

(** A parameter with a default value: [undefined] takes the default,
    everything else (also [null]) is kept. *)
Definition default_to (v : value) (d : json) : json :=
  match v with
  | None => d
  | Some x => x
  end.

(** [ToBoolean]. *)
Definition truthy (v : value) : bool :=
  match v with
  | None => false
  | Some JNull => false
  | Some (JBool b) => b
  | Some (JNum z) => negb (Z.eqb z 0)
  | Some (JFloat (Finite _ m _)) => negb (Z.eqb m 0)
  | Some (JFloat (Infinite _)) => true
  | Some (JStr s) => match s with [] => false | _ => true end
  | Some (JArr _) => true
  | Some (JObj _) => true
  end.

(** [Array.prototype.join]: [null] elements give the empty string, the
    others are converted by [ToString] (the argument [tostr]). *)
Section Join.
Variable tostr : json -> result jsstring.
Variable sep : jsstring.

Fixpoint join_elems (elems : list json) : result jsstring :=
  match elems with
  | [] => inr []
  | e :: rest =>
      bindR (match e with JNull => inr [] | _ => tostr e end) (fun s =>
      match rest with
      | [] => inr s
      | _ => bindR (join_elems rest) (fun t => inr (s ++ sep ++ t))
      end)
  end.

End Join.

(** [ToString] on a JSON value.  An array goes through
    [Array.prototype.toString], that is [join(",")].  An object parsed from
    JSON has no callable property of its own: with an own [toString]
    property [OrdinaryToPrimitive] finds nothing to call that returns a
    primitive and throws; without one, [Object.prototype.toString] answers. *)
Fixpoint ToString_json (j : json) : result jsstring :=
  match j with
  | JNull => inr (lit "null")
  | JBool true => inr (lit "true")
  | JBool false => inr (lit "false")
  | JNum z => inr (Number_toString z)
  | JFloat d => inr (Double_toString d)
  | JStr s => inr s
  | JArr elems => join_elems ToString_json (lit ",") elems
  | JObj props =>
      if has_own props (lit "toString")
      then inl (Throw TypeError (lit "Cannot convert object to primitive value"))
      else inr (lit "[object Object]")
  end.

Definition ToString (v : value) : result jsstring :=
  match v with
  | None => inr (lit "undefined")
  | Some j => ToString_json j
  end.

(** The method call [x.toString()], where [x] is the variable named
    [callee] and holds [v]: the message of the [TypeError] for a property
    that is not callable quotes the expression. *)
Definition call_toString (callee : string) (v : json) : result jsstring :=
  match v with
  | JNull =>
      inl (Throw TypeError (lit "Cannot read properties of null (reading 'toString')"))
  | JObj props =>
      if has_own props (lit "toString")
      then inl (Throw TypeError (lit callee ++ lit ".toString is not a function"))
      else inr (lit "[object Object]")
  | _ => ToString_json v
  end.

(** The method call [x.join(sep)], where [x] is the variable named
    [callee] and holds [v]: only arrays have a [join]. *)
Definition call_join (callee : string) (v : json) (sep : jsstring)
  : result jsstring :=
  match v with
  | JArr elems => join_elems ToString_json sep elems
  | JNull =>
      inl (Throw TypeError (lit "Cannot read properties of null (reading 'join')"))
  | _ => inl (Throw TypeError (lit callee ++ lit ".join is not a function"))
  end.

(** ** UTF-8 and percent-encoding *)

(** The code points of a string; an unpaired surrogate is read as U+FFFD
    (what a [USVString] holds in its place). *)
Fixpoint scalar_values (s : jsstring) : list N :=
  match s with
  | [] => []
  | c :: rest =>
      if is_high_surrogate c then
        match rest with
        | d :: rest' =>
            if is_low_surrogate d
            then (0x10000 + N.shiftl (c - 0xD800) 10 + (d - 0xDC00))%N
                   :: scalar_values rest'
            else 0xFFFD%N :: scalar_values rest
        | [] => [0xFFFD%N]
        end
      else if is_low_surrogate c then 0xFFFD%N :: scalar_values rest
      else c :: scalar_values rest
  end.

Definition utf8 (cp : N) : list N :=
  if (cp <? 0x80)%N then [cp]
  else if (cp <? 0x800)%N then
    [N.lor 0xC0 (N.shiftr cp 6); N.lor 0x80 (N.land cp 0x3F)]
  else if (cp <? 0x10000)%N then
    [N.lor 0xE0 (N.shiftr cp 12);
     N.lor 0x80 (N.land (N.shiftr cp 6) 0x3F);
     N.lor 0x80 (N.land cp 0x3F)]
  else
    [N.lor 0xF0 (N.shiftr cp 18);
     N.lor 0x80 (N.land (N.shiftr cp 12) 0x3F);
     N.lor 0x80 (N.land (N.shiftr cp 6) 0x3F);
     N.lor 0x80 (N.land cp 0x3F)].

Definition hex_upper (d : N) : code_unit :=
  let d := N.land d 0xF in
  if (d <? 10)%N then (48 + d)%N else (55 + d)%N.

Definition hex_lower (d : N) : code_unit :=
  let d := N.land d 0xF in
  if (d <? 10)%N then (48 + d)%N else (87 + d)%N.

(** [%XX], upper-case. *)
Definition percent (byte : N) : jsstring :=
  [37%N; hex_upper (N.shiftr byte 4); hex_upper byte].

Definition is_digit (c : code_unit) : bool := (48 <=? c)%N && (c <=? 57)%N.
Definition is_upper (c : code_unit) : bool := (65 <=? c)%N && (c <=? 90)%N.
Definition is_lower (c : code_unit) : bool := (97 <=? c)%N && (c <=? 122)%N.
Definition is_alnum (c : code_unit) : bool :=
  is_digit c || is_upper c || is_lower c.

Definition mem (c : code_unit) (set : jsstring) : bool :=
  existsb (N.eqb c) set.

(** The characters [encodeURIComponent] leaves alone: the alphanumerics and
    [-_.!~*'()]. *)
Definition uri_unescaped (c : code_unit) : bool :=
  is_alnum c || mem c (lit "-_.!~*'()").

(** [encodeURIComponent]: the argument is converted with [ToString]; an
    unpaired surrogate raises [URIError]; every code point outside the
    unescaped set is replaced by the percent-encoding of its UTF-8 bytes. *)
Definition encodeURIComponent_string (s : jsstring) : result jsstring :=
  if isWellFormed s then
    inr (flat_map
           (fun cp => if uri_unescaped cp then [cp]
                      else flat_map percent (utf8 cp))
           (scalar_values s))
  else inl (Throw URIError (lit "URI malformed")).

Definition encodeURIComponent (v : value) : result jsstring :=
  bindR (ToString v) encodeURIComponent_string.

(** ** [URLSearchParams]

    A list of name-value pairs of [USVString]s. *)

Definition URLSearchParams := list (jsstring * jsstring).

(** [new URLSearchParams(record)]: the record's values are converted with
    [ToString], in order. *)
Fixpoint new_URLSearchParams (init : list (jsstring * value))
  : result URLSearchParams :=
  match init with
  | [] => inr []
  | (k, v) :: rest =>
      bindR (ToString v) (fun s =>
      bindR (new_URLSearchParams rest) (fun r =>
      inr ((ToUSVString k, ToUSVString s) :: r)))
  end.

(** [params.append(name, value)]. *)
Definition append (params : URLSearchParams) (name : jsstring) (v : value)
  : result URLSearchParams :=
  bindR (ToString v) (fun s =>
  inr (params ++ [(ToUSVString name, ToUSVString s)])).

(** The [application/x-www-form-urlencoded] byte serializer: a space is a
    [+], the alphanumerics and [*-._] stay, the rest is percent-encoded. *)
Definition form_byte (b : N) : jsstring :=
  if (b =? 0x20)%N then [43%N]
  else if is_alnum b || mem b (lit "*-._") then [b]
  else percent b.

Definition form_urlencode (s : jsstring) : jsstring :=
  flat_map form_byte (flat_map utf8 (scalar_values s)).

(** [params.toString()], which is what a template literal calls. *)
Definition URLSearchParams_toString (params : URLSearchParams) : jsstring :=
  join (lit "&")
    (List.map (fun nv => form_urlencode (fst nv) ++ lit "=" ++ form_urlencode (snd nv))
       params).

(** ** [JSON.stringify] *)

(** [QuoteJSONString], without the surrounding quotes. *)
Definition escape_u (c : code_unit) : jsstring :=
  [92%N; 117%N; hex_lower (N.shiftr c 12); hex_lower (N.shiftr c 8);
   hex_lower (N.shiftr c 4); hex_lower c].

Definition quote_unit (c : code_unit) : jsstring :=
  if (c =? 8)%N then [92; 98]%N
  else if (c =? 9)%N then [92; 116]%N
  else if (c =? 10)%N then [92; 110]%N
  else if (c =? 12)%N then [92; 102]%N
  else if (c =? 13)%N then [92; 114]%N
  else if (c =? 34)%N then [92; 34]%N
  else if (c =? 92)%N then [92; 92]%N
  else if (c <? 32)%N then escape_u c
  else [c].

Fixpoint quote_body (s : jsstring) : jsstring :=
  match s with
  | [] => []
  | c :: rest =>
      if is_high_surrogate c then
        match rest with
        | d :: rest' =>
            if is_low_surrogate d then c :: d :: quote_body rest'
            else escape_u c ++ quote_body rest
        | [] => escape_u c
        end
      else if is_low_surrogate c then escape_u c ++ quote_body rest
      else quote_unit c ++ quote_body rest
  end.

Definition QuoteJSONString (s : jsstring) : jsstring :=
  [34%N] ++ quote_body s ++ [34%N].

(** The layout shared by [SerializeJSONArray] and [SerializeJSONObject]:
    [partial] holds the serialized members, [stepback] is the indentation
    of the enclosing level and [indent] the one of the members. *)
Definition wrap (opening closing : code_unit) (gap stepback indent : jsstring)
    (partial : list jsstring) : jsstring :=
  match partial with
  | [] => [opening; closing]
  | _ =>
      match gap with
      | [] => [opening] ++ join (lit ",") partial ++ [closing]
      | _ =>
          [opening] ++ [10%N] ++ indent
            ++ join (lit "," ++ [10%N] ++ indent) partial
            ++ [10%N] ++ stepback ++ [closing]
      end
  end.

(** [SerializeJSONProperty] on a JSON value: [gap] is the indentation unit
    ([""] for the compact form) and [indent] the current indentation. *)
Fixpoint serialize (gap indent : jsstring) (v : json) : jsstring :=
  match v with
  | JNull => lit "null"
  | JBool true => lit "true"
  | JBool false => lit "false"
  | JNum z => Number_toString z
  | JFloat (Finite negative m e) => Double_toString (Finite negative m e)
  | JFloat (Infinite _) => lit "null"
  | JStr s => QuoteJSONString s
  | JArr elems =>
      wrap 91%N 93%N gap indent (indent ++ gap)
        (List.map (serialize gap (indent ++ gap)) elems)
  | JObj props =>
      wrap 123%N 125%N gap indent (indent ++ gap)
        (List.map
           (fun kv =>
              match kv with
              | (k, x) =>
                  QuoteJSONString k ++ [58%N]
                    ++ match gap with [] => [] | _ => [32%N] end
                    ++ serialize gap (indent ++ gap) x
              end)
           props)
  end.

(** [JSON.stringify(value)]. *)
Definition JSON_stringify (v : json) : jsstring := serialize [] [] v.

(** [JSON.stringify(value, null, 2)]: the gap is two spaces. *)
Definition JSON_stringify_2 (v : json) : jsstring :=
  serialize [32%N; 32%N] [] v.

(** [JSON.stringify] on an object literal whose fields may hold
    [undefined]: such fields are left out. *)
Fixpoint defined_props (fields : list (jsstring * value))
  : list (jsstring * json) :=
  match fields with
  | [] => []
  | (k, Some v) :: rest => (k, v) :: defined_props rest
  | (_, None) :: rest => defined_props rest
  end.

Definition JSON_stringify_literal (fields : list (jsstring * value)) : jsstring :=
  JSON_stringify (JObj (defined_props fields)).

(** ** Objects as ordered property lists

    The property list of an ordinary object is kept in the order
    [OrdinaryOwnPropertyKeys] enumerates it: the array-index keys first, in
    ascending numeric order, then the other keys in creation order. *)

Definition digit_of_unit (c : code_unit) (r : Decimal.uint) : Decimal.uint :=
  if (c =? 48)%N then Decimal.D0 r
  else if (c =? 49)%N then Decimal.D1 r
  else if (c =? 50)%N then Decimal.D2 r
  else if (c =? 51)%N then Decimal.D3 r
  else if (c =? 52)%N then Decimal.D4 r
  else if (c =? 53)%N then Decimal.D5 r
  else if (c =? 54)%N then Decimal.D6 r
  else if (c =? 55)%N then Decimal.D7 r
  else if (c =? 56)%N then Decimal.D8 r
  else Decimal.D9 r.

Fixpoint units_uint (ds : jsstring) : Decimal.uint :=
  match ds with
  | [] => Decimal.Nil
  | c :: r => digit_of_unit c (units_uint r)
  end.

(** A numeral is canonical when it is ["0"] or starts with a non-zero
    digit. *)
Definition canonical_numeral (ds : jsstring) : bool :=
  match ds with
  | [] => false
  | d :: ds' =>
      forallb is_digit ds
        && (negb (d =? 48)%N || match ds' with [] => true | _ => false end)
  end.

(** The array index a property key denotes, if any: a canonical numeral
    of value at most [2^32 - 2]. *)
Definition array_index (k : jsstring) : option N :=
  if canonical_numeral k then
    let n := N.of_uint (units_uint k) in
    if (n <=? 4294967294)%N then Some n else None
  else None.

(** [precedes k k']: wherever both are keys of one object, [k] is
    enumerated before [k'] whatever the creation order. *)
Definition precedes (k k' : jsstring) : bool :=
  match array_index k, array_index k' with
  | Some i, Some j => (i <? j)%N
  | Some _, None => true
  | None, _ => false
  end.

(** [CreateDataProperty] on an ordinary object: an existing key keeps its
    place and takes the new value, a new key goes to its place in the
    enumeration order. *)
Fixpoint obj_set (k : jsstring) (v : json) (o : list (jsstring * json))
  : list (jsstring * json) :=
  match o with
  | [] => [(k, v)]
  | (k', v') :: rest =>
      if eqb k k' then (k, v) :: rest
      else if precedes k k' then (k, v) :: (k', v') :: rest
      else (k', v') :: obj_set k v rest
  end.

(** The keys of a property list are distinct and in enumeration order. *)
Fixpoint keys_ok (ks : list jsstring) : bool :=
  match ks with
  | [] => true
  | k :: rest =>
      forallb (fun k' => negb (eqb k k') && negb (precedes k' k)) rest
        && keys_ok rest
  end.

(** The run-time values whose numbers are all safe integers (objects have
    a proper property list, as in every run-time value). *)
Fixpoint json_wf (v : json) : bool :=
  match v with
  | JNull | JBool _ | JStr _ => true
  | JNum z => is_safe_integer z
  | JFloat _ => false
  | JArr elems => forallb json_wf elems
  | JObj props =>
      keys_ok (List.map fst props)
        && forallb (fun kv => json_wf (snd kv)) props
  end.

(** The [double]s a [JFloat] holds: the Numbers that are not safe
    integers, the negative zero among them. *)
Definition double_proper (d : double) : bool :=
  match d with
  | Infinite _ => true
  | Finite negative m e =>
      double_canonical m e
        && (if (m =? 0)%Z then negative else negb (is_integral m e))
  end.

(** The JSON values that exist at run time. *)
Fixpoint json_value (v : json) : bool :=
  match v with
  | JNull | JBool _ | JStr _ => true
  | JNum z => is_safe_integer z
  | JFloat d => double_proper d
  | JArr elems => forallb json_value elems
  | JObj props =>
      keys_ok (List.map fst props)
        && forallb (fun kv => json_value (snd kv)) props
  end.

(** The Numbers a JSON text denotes as they are: the finite ones, the
    negative zero apart. *)
Definition written_as_it_is (d : double) : bool :=
  match d with
  | Finite _ m _ => negb (m =? 0)%Z
  | Infinite _ => false
  end.

(** The run-time values [JSON.stringify] writes without loss. *)
Fixpoint json_writable (v : json) : bool :=
  match v with
  | JNull | JBool _ | JStr _ => true
  | JNum z => is_safe_integer z
  | JFloat d => double_proper d && written_as_it_is d
  | JArr elems => forallb json_writable elems
  | JObj props =>
      keys_ok (List.map fst props)
        && forallb (fun kv => json_writable (snd kv)) props
  end.

(** What a value is read back as: an infinite number as [null], the
    negative zero as zero. *)
Fixpoint read_back (v : json) : json :=
  match v with
  | JFloat (Infinite _) => JNull
  | JFloat (Finite _ m _) => if (m =? 0)%Z then JNum 0 else v
  | JArr elems => JArr (List.map read_back elems)
  | JObj props => JObj (List.map (fun kv => (fst kv, read_back (snd kv))) props)
  | _ => v
  end.

(** ** [JSON.parse]

    The JSON grammar of ECMA-404; a number is read as the Number value of
    the decimal it writes. *)

Definition is_ws (c : code_unit) : bool :=
  (c =? 32)%N || (c =? 9)%N || (c =? 10)%N || (c =? 13)%N.

Fixpoint skip_ws (s : jsstring) : jsstring :=
  match s with
  | [] => []
  | c :: r => if is_ws c then skip_ws r else s
  end.

Fixpoint strip_prefix (p s : jsstring) : option jsstring :=
  match p, s with
  | [], _ => Some s
  | x :: p', y :: s' => if (x =? y)%N then strip_prefix p' s' else None
  | _ :: _, [] => None
  end.

Definition hex_value (c : code_unit) : option N :=
  if is_digit c then Some (c - 48)%N
  else if (97 <=? c)%N && (c <=? 102)%N then Some (c - 87)%N
  else if (65 <=? c)%N && (c <=? 70)%N then Some (c - 55)%N
  else None.

Definition hex4 (a b c d : code_unit) : option code_unit :=
  match hex_value a, hex_value b, hex_value c, hex_value d with
  | Some x, Some y, Some z, Some w =>
      Some (N.lor (N.shiftl x 12) (N.lor (N.shiftl y 8) (N.lor (N.shiftl z 4) w)))
  | _, _, _, _ => None
  end.

(** The character a single-letter escape stands for. *)
Definition unescape (e : code_unit) : option code_unit :=
  if (e =? 34)%N then Some 34%N
  else if (e =? 92)%N then Some 92%N
  else if (e =? 47)%N then Some 47%N
  else if (e =? 98)%N then Some 8%N
  else if (e =? 102)%N then Some 12%N
  else if (e =? 110)%N then Some 10%N
  else if (e =? 114)%N then Some 13%N
  else if (e =? 116)%N then Some 9%N
  else None.

Definition cons_unit (c : code_unit) (r : option (jsstring * jsstring))
  : option (jsstring * jsstring) :=
  match r with
  | Some (str, rest) => Some (c :: str, rest)
  | None => None
  end.

(** The characters of a string literal, read after its opening quote, and
    what follows the closing quote. *)
Fixpoint parse_string_body (s : jsstring) : option (jsstring * jsstring) :=
  match s with
  | [] => None
  | c :: r =>
      if (c =? 34)%N then Some ([], r)
      else if (c =? 92)%N then
        match r with
        | [] => None
        | e :: r1 =>
            if (e =? 117)%N then
              match r1 with
              | h1 :: h2 :: h3 :: h4 :: r2 =>
                  match hex4 h1 h2 h3 h4 with
                  | Some u => cons_unit u (parse_string_body r2)
                  | None => None
                  end
              | _ => None
              end
            else
              match unescape e with
              | Some u => cons_unit u (parse_string_body r1)
              | None => None
              end
        end
      else if (c <? 32)%N then None
      else cons_unit c (parse_string_body r)
  end.

Fixpoint take_digits (s : jsstring) : jsstring * jsstring :=
  match s with
  | [] => ([], [])
  | c :: r =>
      if is_digit c then let (ds, rest) := take_digits r in (c :: ds, rest)
      else ([], s)
  end.

(** The first character of a fraction or of an exponent. *)
Definition continues_number (s : jsstring) : bool :=
  match s with
  | [] => false
  | c :: _ => (c =? 46)%N || (c =? 101)%N || (c =? 69)%N
  end.

(** The digits of a fraction, if there is one: a point and at least one
    digit. *)
Definition parse_fraction (s : jsstring) : option (jsstring * jsstring) :=
  match s with
  | c :: r =>
      if (c =? 46)%N then
        match take_digits r with
        | ([], _) => None
        | (fs, rest) => Some (fs, rest)
        end
      else Some ([], s)
  | [] => Some ([], s)
  end.

(** The exponent, if there is one: [e] or [E], a sign or none, and at
    least one digit. *)
Definition parse_exponent (s : jsstring) : option (Z * jsstring) :=
  match s with
  | c :: r =>
      if (c =? 101)%N || (c =? 69)%N then
        let (negative, r1) :=
          match r with
          | x :: r' =>
              if (x =? 45)%N then (true, r')
              else if (x =? 43)%N then (false, r')
              else (false, r)
          | [] => (false, r)
          end in
        match take_digits r1 with
        | ([], _) => None
        | (ds, rest) =>
            Some (if negative then (- digits_value ds)%Z else digits_value ds,
                  rest)
        end
      else Some (0%Z, s)
  | [] => Some (0%Z, s)
  end.

(** The JSON value of a finite Number: a safe integer as a [JNum]. *)
Definition json_of_double (negative : bool) (m e : Z) : json :=
  if (m =? 0)%Z then
    if negative then JFloat (Finite true 0 (-1074)) else JNum 0
  else if is_integral m e then
    JNum (if negative then (- (m / 2 ^ (- e)))%Z else (m / 2 ^ (- e))%Z)
  else JFloat (Finite negative m e).

(** The Number a numeral denotes: the digits of its integer part and of
    its fraction, without the zeros at both ends, times the power of ten
    that places them. *)
Definition number_of (negative : bool) (int frac : jsstring) (ex : Z) : json :=
  let all := strip_leading_zeros (int ++ frac) in
  let D := strip_trailing_zeros all in
  let t := (ex - Z.of_nat (List.length frac)
            + Z.of_nat (List.length all - List.length D))%Z in
  match D with
  | [] => json_of_double negative 0 (-1074)
  | _ =>
      match round_decimal D t with
      | Some (m, e) => json_of_double negative m e
      | None => JFloat (Infinite negative)
      end
  end.

Definition parse_number (s : jsstring) : option (json * jsstring) :=
  let (negative, s1) :=
    match s with
    | c :: r => if (c =? 45)%N then (true, r) else (false, s)
    | [] => (false, s)
    end in
  let (ds, r1) := take_digits s1 in
  if canonical_numeral ds then
    match parse_fraction r1 with
    | None => None
    | Some (fs, r2) =>
        match parse_exponent r2 with
        | None => None
        | Some (ex, r3) => Some (number_of negative ds fs ex, r3)
        end
    end
  else None.

Fixpoint parse_value (fuel : nat) (s : jsstring) {struct fuel}
  : option (json * jsstring) :=
  match fuel with
  | O => None
  | S fuel' =>
      match skip_ws s with
      | [] => None
      | c :: r =>
          if (c =? 123)%N then
            match skip_ws r with
            | [] => None
            | c' :: r' =>
                if (c' =? 125)%N then Some (JObj [], r')
                else parse_members fuel' [] (c' :: r')
            end
          else if (c =? 91)%N then
            match skip_ws r with
            | [] => None
            | c' :: r' =>
                if (c' =? 93)%N then Some (JArr [], r')
                else parse_elements fuel' [] (c' :: r')
            end
          else if (c =? 34)%N then
            match parse_string_body r with
            | Some (str, rest) => Some (JStr str, rest)
            | None => None
            end
          else if (c =? 116)%N then
            option_map (pair (JBool true)) (strip_prefix (lit "rue") r)
          else if (c =? 102)%N then
            option_map (pair (JBool false)) (strip_prefix (lit "alse") r)
          else if (c =? 110)%N then
            option_map (pair JNull) (strip_prefix (lit "ull") r)
          else parse_number (c :: r)
      end
  end

with parse_elements (fuel : nat) (acc : list json) (s : jsstring) {struct fuel}
  : option (json * jsstring) :=
  match fuel with
  | O => None
  | S fuel' =>
      match parse_value fuel' s with
      | None => None
      | Some (v, r) =>
          match skip_ws r with
          | [] => None
          | c :: r' =>
              if (c =? 44)%N then parse_elements fuel' (v :: acc) r'
              else if (c =? 93)%N then Some (JArr (List.rev (v :: acc)), r')
              else None
          end
      end
  end

with parse_members (fuel : nat) (acc : list (jsstring * json)) (s : jsstring)
    {struct fuel} : option (json * jsstring) :=
  match fuel with
  | O => None
  | S fuel' =>
      match skip_ws s with
      | [] => None
      | q :: r =>
          if (q =? 34)%N then
            match parse_string_body r with
            | None => None
            | Some (k, r1) =>
                match skip_ws r1 with
                | [] => None
                | c1 :: r2 =>
                    if (c1 =? 58)%N then
                      match parse_value fuel' r2 with
                      | None => None
                      | Some (v, r3) =>
                          match skip_ws r3 with
                          | [] => None
                          | c :: r4 =>
                              if (c =? 44)%N
                              then parse_members fuel' (obj_set k v acc) r4
                              else if (c =? 125)%N
                              then Some (JObj (obj_set k v acc), r4)
                              else None
                          end
                      end
                    else None
                end
            end
          else None
      end
  end.

(** [JSON.parse(text)]: one value, with nothing but white space around. *)
Definition JSON_parse (text : jsstring) : option json :=
  match parse_value (S (List.length text)) text with
  | Some (v, rest) =>
      match skip_ws rest with
      | [] => Some v
      | _ => None
      end
  | None => None
  end.

End JS.

(* ===================================================================== *)
(** * [fetch], and computations that throw and call the network           *)
(* ===================================================================== *)

Module Net.
Import JS.

(** The second argument of [fetch], as the client fills it. *)
Record RequestInit := {
  method : option jsstring;
  body : option jsstring
}.

(** One call of [fetch]: the URL, the caller's options and the headers. *)
Record FetchCall := {
  url : jsstring;
  init : RequestInit;
  headers : list (jsstring * jsstring)
}.

(** The method [fetch] uses: [GET] unless the options name one. *)
Definition effective_method (c : FetchCall) : jsstring :=
  match method (init c) with
  | Some m => m
  | None => lit "GET"
  end.

(** What the program reads of a [Response]: the status line, and what
    [response.json()] settles to. *)
Record Response := {
  status : N;
  statusText : jsstring;
  json_body : result json
}.

(** [response.ok]: the status is in the range 200-299. *)
Definition ok (r : Response) : bool :=
  (200 <=? status r)%N && (status r <=? 299)%N.

Inductive FetchOutcome :=
| Rejected (e : exn)
| Resolved (r : Response).

(** The world outside: what each call of [fetch] settles to. *)
Definition Network := FetchCall -> FetchOutcome.

(** A computation reads the network, appends the [fetch] calls it makes to
    the log, and returns or throws. *)
Definition M (A : Type) : Type :=
  Network -> list FetchCall -> result A * list FetchCall.

Definition ret {A} (a : A) : M A := fun _ log => (inr a, log).

Definition throw {A} (e : exn) : M A := fun _ log => (inl e, log).

Definition bind {A B} (m : M A) (k : A -> M B) : M B :=
  fun net log =>
    match m net log with
    | (inl e, log') => (inl e, log')
    | (inr a, log') => k a net log'
    end.

(** [try { m } catch (error) { handler }]. *)
Definition try_catch {A} (m : M A) (handler : exn -> M A) : M A :=
  fun net log =>
    match m net log with
    | (inl e, log') => handler e net log'
    | (inr a, log') => (inr a, log')
    end.

(** A computation of the runtime that touches no network. *)
Definition lift {A} (r : result A) : M A :=
  match r with
  | inl e => throw e
  | inr a => ret a
  end.

(** [await fetch(url, init)]. *)
Definition fetch (c : FetchCall) : M Response :=
  fun net log =>
    match net c with
    | Rejected e => (inl e, log ++ [c])
    | Resolved r => (inr r, log ++ [c])
    end.

End Net.

Declare Scope js_scope.
Delimit Scope js_scope with js.
Notation "x <- m ;; k" := (Net.bind m (fun x => k))
  (at level 61, m at next level, right associativity) : js_scope.

(* ===================================================================== *)
(** * The program                                                         *)
(* ===================================================================== *)

(** [ConfigSchema]: the base URL and the optional bearer token. *)
Module Config.
Record t := {
  baseUrl : JS.jsstring;
  apiKey : option JS.jsstring
}.
End Config.

(** ** [class ObsidianApiClient] *)

Module ObsidianApiClient.
Import JS Net.
Local Open Scope js_scope.

Record t := {
  baseUrl : jsstring;
  headers : list (jsstring * jsstring)
}.

Definition constructor (config : Config.t) : t :=
  {| baseUrl := Config.baseUrl config ++ lit "/api";
     headers :=
       [(lit "Content-Type", lit "application/json");
        (lit "Accept", lit "application/json")]
       ++ match Config.apiKey config with
          | Some key =>
              if truthy (Some (JStr key))
              then [(lit "Authorization", lit "Bearer " ++ key)]
              else []
          | None => []
          end |}.

(** [options = {}]. *)
Definition no_options : RequestInit := {| method := None; body := None |}.

Section Methods.
Variable this : t.

(** [request]: one [fetch]; a response that is not [ok] is thrown as an
    [Error] carrying the status line.  No caller passes [options.headers],
    so the headers sent are the client's. *)
Definition request (path : jsstring) (options : RequestInit) : M json :=
  let url := baseUrl this ++ path in
  response <- fetch {| url := url; init := options;
                       Net.headers := headers this |} ;;
  if negb (ok response) then
    throw (Throw Error
             (lit "API request failed: " ++ N_toString (status response)
                ++ lit " " ++ statusText response))
  else lift (json_body response).

(** Directory operations *)
Definition listDirectory (path recursive limit offset : value) : M json :=
  let path := default_to path (JStr (lit ".")) in
  let recursive := default_to recursive (JBool false) in
  let limit := default_to limit (JNum 50) in
  let offset := default_to offset (JNum 0) in
  r <- lift (call_toString "recursive" recursive) ;;
  l <- lift (call_toString "limit" limit) ;;
  o <- lift (call_toString "offset" offset) ;;
  params <- lift (new_URLSearchParams
                    [(lit "path", Some path);
                     (lit "recursive", Some (JStr r));
                     (lit "limit", Some (JStr l));
                     (lit "offset", Some (JStr o))]) ;;
  request (lit "/vault/directory?" ++ URLSearchParams_toString params) no_options.

(** File operations *)
Definition readFile (path : value) : M json :=
  p <- lift (encodeURIComponent path) ;;
  request (lit "/files/" ++ p) no_options.

Definition writeFile (path content mode : value) : M json :=
  let mode := default_to mode (JStr (lit "overwrite")) in
  request (lit "/files/write")
    {| method := Some (lit "POST");
       body := Some (JSON_stringify_literal
                       [(lit "path", path);
                        (lit "content", content);
                        (lit "mode", Some mode)]) |}.

Definition deleteItem (path : value) : M json :=
  p <- lift (encodeURIComponent path) ;;
  request (lit "/files/" ++ p)
    {| method := Some (lit "DELETE"); body := None |}.

(** AI-native note operations *)
Definition createOrUpdateNote (path content frontmatter : value) : M json :=
  let frontmatter := default_to frontmatter (JObj []) in
  request (lit "/notes/upsert")
    {| method := Some (lit "POST");
       body := Some (JSON_stringify_literal
                       [(lit "path", path);
                        (lit "content", content);
                        (lit "front_matter", Some frontmatter)]) |}.

Definition getDailyNote (date : value) : M json :=
  let date := default_to date (JStr (lit "today")) in
  params <- lift (new_URLSearchParams [(lit "date", Some date)]) ;;
  request (lit "/vault/notes/daily?" ++ URLSearchParams_toString params) no_options.

Definition getRecentNotes (limit : value) : M json :=
  let limit := default_to limit (JNum 5) in
  l <- lift (call_toString "limit" limit) ;;
  params <- lift (new_URLSearchParams [(lit "limit", Some (JStr l))]) ;;
  request (lit "/vault/notes/recent?" ++ URLSearchParams_toString params) no_options.

(** Enhanced search *)
Definition searchVault (query scope pathFilter : value) : M json :=
  let scope :=
    default_to scope
      (JArr [JStr (lit "content"); JStr (lit "filename"); JStr (lit "tags")]) in
  joined <- lift (call_join "scope" scope (lit ",")) ;;
  params <- lift (new_URLSearchParams
                    [(lit "query", query); (lit "scope", Some (JStr joined))]) ;;
  params <- (if truthy pathFilter
             then lift (append params (lit "path_filter") pathFilter)
             else ret params) ;;
  request (lit "/vault/search?" ++ URLSearchParams_toString params) no_options.

Definition findRelatedNotes (path on : value) : M json :=
  let on := default_to on (JArr [JStr (lit "tags"); JStr (lit "links")]) in
  joined <- lift (call_join "on" on (lit ",")) ;;
  params <- lift (new_URLSearchParams [(lit "on", Some (JStr joined))]) ;;
  p <- lift (encodeURIComponent path) ;;
  request (lit "/vault/notes/related/" ++ p ++ lit "?"
             ++ URLSearchParams_toString params) no_options.

(** Legacy methods for backward compatibility *)
Definition listFiles : M json :=
  request (lit "/files") no_options.

Definition getFile (path : value) : M json :=
  p <- lift (encodeURIComponent path) ;;
  request (lit "/files/" ++ p) no_options.

Definition createFile (path content type : value) : M json :=
  let type := default_to type (JStr (lit "file")) in
  request (lit "/files")
    {| method := Some (lit "POST");
       body := Some (JSON_stringify_literal
                       [(lit "path", path);
                        (lit "content", content);
                        (lit "type", Some type)]) |}.

Definition updateFile (path content : value) : M json :=
  p <- lift (encodeURIComponent path) ;;
  request (lit "/files/" ++ p)
    {| method := Some (lit "PUT");
       body := Some (JSON_stringify_literal [(lit "content", content)]) |}.

Definition deleteFile (path : value) : M json :=
  p <- lift (encodeURIComponent path) ;;
  request (lit "/files/" ++ p)
    {| method := Some (lit "DELETE"); body := None |}.

(** Notes endpoints *)
Definition listNotes : M json :=
  request (lit "/notes") no_options.

Definition getNote (path : value) : M json :=
  p <- lift (encodeURIComponent path) ;;
  request (lit "/notes/" ++ p) no_options.

(** The body object of [createNote]: [{ path, content }], and
    [frontmatter] when it is truthy. *)
Definition createNote_body (path content frontmatter : value)
  : list (jsstring * value) :=
  [(lit "path", path); (lit "content", content)]
    ++ (if truthy frontmatter then [(lit "frontmatter", frontmatter)] else []).

Definition createNote (path content frontmatter : value) : M json :=
  request (lit "/notes")
    {| method := Some (lit "POST");
       body := Some (JSON_stringify_literal
                       (createNote_body path content frontmatter)) |}.

(** The body object of [updateNote]: [{}], then [content] and
    [frontmatter] where they are not [undefined]. *)
Definition updateNote_body (content frontmatter : value)
  : list (jsstring * value) :=
  (match content with Some _ => [(lit "content", content)] | None => [] end)
    ++ (match frontmatter with
        | Some _ => [(lit "frontmatter", frontmatter)]
        | None => []
        end).

Definition updateNote (path content frontmatter : value) : M json :=
  let body := updateNote_body content frontmatter in
  p <- lift (encodeURIComponent path) ;;
  request (lit "/notes/" ++ p)
    {| method := Some (lit "PATCH");
       body := Some (JSON_stringify_literal body) |}.

Definition deleteNote (path : value) : M json :=
  p <- lift (encodeURIComponent path) ;;
  request (lit "/notes/" ++ p)
    {| method := Some (lit "DELETE"); body := None |}.

(** Search notes *)
Definition searchNotes (query : value) : M json :=
  q <- lift (encodeURIComponent query) ;;
  request (lit "/notes?search=" ++ q) no_options.

(** Metadata endpoints *)
Definition getMetadataKeys : M json :=
  request (lit "/metadata/keys") no_options.

Definition getMetadataValues (key : value) : M json :=
  k <- lift (encodeURIComponent key) ;;
  request (lit "/metadata/values/" ++ k) no_options.

End Methods.
End ObsidianApiClient.

(** ** [class ObsidianMcpServer] *)

Module ObsidianMcpServer.
Import JS Net.
Local Open Scope js_scope.

(** *** The catalog answered to [ListToolsRequestSchema] *)

Record ItemsSchema := Items {
  items_type : jsstring;
  items_enum : list jsstring
}.

Record PropertySchema := Property {
  p_type : jsstring;
  p_description : jsstring;
  p_default : option json;
  p_enum : option (list jsstring);
  p_items : option ItemsSchema
}.

Record InputSchemaT := InputSchema {
  type : jsstring;
  properties : list (jsstring * PropertySchema);
  required : option (list jsstring)
}.

Record ToolDefinition := Tool {
  name : jsstring;
  description : jsstring;
  inputSchema : InputSchemaT
}.

Definition tools : list ToolDefinition :=
  [ Tool (lit "list_directory")
      (lit "List directory contents with pagination to prevent context overflow. Shows immediate contents by default.")
      (InputSchema (lit "object")
         [(lit "path",
         Property (lit "string")
           (lit "Directory path to list")
           (Some (JStr (lit "."))) None None);
        (lit "recursive",
         Property (lit "boolean")
           (lit "Include subdirectories recursively")
           (Some (JBool false)) None None);
        (lit "limit",
         Property (lit "number")
           (lit "Maximum items to return")
           (Some (JNum 50)) None None);
        (lit "offset",
         Property (lit "number")
           (lit "Pagination offset")
           (Some (JNum 0)) None None)]
         None);
    Tool (lit "read_file")
      (lit "Read content of a specific file from the vault")
      (InputSchema (lit "object")
         [(lit "path",
         Property (lit "string")
           (lit "Path to the file")
           None None None)]
         (Some [lit "path"]));
    Tool (lit "write_file")
      (lit "Write file content with different modes: overwrite (default), append, or prepend. Handles both create and update operations.")
      (InputSchema (lit "object")
         [(lit "path",
         Property (lit "string")
           (lit "Path to the file")
           None None None);
        (lit "content",
         Property (lit "string")
           (lit "Content to write")
           None None None);
        (lit "mode",
         Property (lit "string")
           (lit "Write mode")
           (Some (JStr (lit "overwrite"))) (Some [lit "overwrite"; lit "append"; lit "prepend"]) None)]
         (Some [lit "path"; lit "content"]));
    Tool (lit "delete_item")
      (lit "Delete a file or directory from the vault")
      (InputSchema (lit "object")
         [(lit "path",
         Property (lit "string")
           (lit "Path to the item to delete")
           None None None)]
         (Some [lit "path"]));
    Tool (lit "create_or_update_note")
      (lit "Create or update a note with content and frontmatter. Performs upsert operation - creates if doesn't exist, updates if it does.")
      (InputSchema (lit "object")
         [(lit "path",
         Property (lit "string")
           (lit "Path for the note (without .md extension)")
           None None None);
        (lit "content",
         Property (lit "string")
           (lit "Note content")
           None None None);
        (lit "frontmatter",
         Property (lit "object")
           (lit "Frontmatter metadata")
           (Some (JObj [])) None None)]
         (Some [lit "path"; lit "content"]));
    Tool (lit "get_daily_note")
      (lit "Get daily note for a specific date. Handles common daily note naming conventions and file locations.")
      (InputSchema (lit "object")
         [(lit "date",
         Property (lit "string")
           (lit "Date (today, yesterday, tomorrow, or YYYY-MM-DD)")
           (Some (JStr (lit "today"))) None None)]
         None);
    Tool (lit "get_recent_notes")
      (lit "Get recently modified notes, ordered by modification time")
      (InputSchema (lit "object")
         [(lit "limit",
         Property (lit "number")
           (lit "Number of recent notes to return")
           (Some (JNum 5)) None None)]
         None);
    Tool (lit "search_vault")
      (lit "Search vault content across files, filenames, and metadata with advanced filtering")
      (InputSchema (lit "object")
         [(lit "query",
         Property (lit "string")
           (lit "Search query")
           None None None);
        (lit "scope",
         Property (lit "array")
           (lit "Search scope - where to look for the query")
           (Some (JArr [JStr (lit "content"); JStr (lit "filename"); JStr (lit "tags")])) None (Some (Items (lit "string") [lit "content"; lit "filename"; lit "tags"])));
        (lit "path_filter",
         Property (lit "string")
           (lit "Limit search to specific path prefix")
           None None None)]
         (Some [lit "query"]));
    Tool (lit "find_related_notes")
      (lit "Find notes related to a given note based on shared tags, links, or backlinks")
      (InputSchema (lit "object")
         [(lit "path",
         Property (lit "string")
           (lit "Path to the source note")
           None None None);
        (lit "on",
         Property (lit "array")
           (lit "Relationship criteria to use for finding related notes")
           (Some (JArr [JStr (lit "tags"); JStr (lit "links")])) None (Some (Items (lit "string") [lit "tags"; lit "links"])))]
         (Some [lit "path"]));
    Tool (lit "get_note")
      (lit "Get a specific note with its content and metadata (legacy)")
      (InputSchema (lit "object")
         [(lit "path",
         Property (lit "string")
           (lit "Path to the note")
           None None None)]
         (Some [lit "path"]));
    Tool (lit "list_notes")
      (lit "List all notes in the vault with optional search filter (legacy with search support)")
      (InputSchema (lit "object")
         [(lit "search",
         Property (lit "string")
           (lit "Optional search query to filter notes")
           None None None)]
         None);
    Tool (lit "get_metadata_keys")
      (lit "Get all available frontmatter keys from notes")
      (InputSchema (lit "object")
         []
         None);
    Tool (lit "get_metadata_values")
      (lit "Get all unique values for a specific frontmatter key")
      (InputSchema (lit "object")
         [(lit "key",
         Property (lit "string")
           (lit "Frontmatter key")
           None None None)]
         (Some [lit "key"])) ].

(** *** The handler of [CallToolRequestSchema] *)

Record TextContent := {
  content_type : jsstring;
  text : jsstring
}.

Record CallToolResult := {
  content : list TextContent;
  isError : option bool
}.

(** The [arguments] of a call: an object, or absent. *)
Definition Arguments := option (list (jsstring * json)).

(** [args?.key]. *)
Definition arg (args : Arguments) (key : string) : value :=
  match args with
  | None => undefined
  | Some o => get o (lit key)
  end.

Section Server.
Variable client : ObsidianApiClient.t.

Definition Case := (jsstring * (Arguments -> M json))%type.

(** The [case] clauses of the [switch (name)], in order; every clause ends
    with [break]. *)
Definition cases : list Case :=
  [ (* AI-Native Tools *)
    (lit "list_directory", fun args =>
       ObsidianApiClient.listDirectory client
         (arg args "path") (arg args "recursive")
         (arg args "limit") (arg args "offset"));
    (lit "read_file", fun args =>
       ObsidianApiClient.readFile client (arg args "path"));
    (lit "write_file", fun args =>
       ObsidianApiClient.writeFile client
         (arg args "path") (arg args "content") (arg args "mode"));
    (lit "delete_item", fun args =>
       ObsidianApiClient.deleteItem client (arg args "path"));
    (lit "create_or_update_note", fun args =>
       ObsidianApiClient.createOrUpdateNote client
         (arg args "path") (arg args "content") (arg args "frontmatter"));
    (lit "get_daily_note", fun args =>
       ObsidianApiClient.getDailyNote client (arg args "date"));
    (lit "get_recent_notes", fun args =>
       ObsidianApiClient.getRecentNotes client (arg args "limit"));
    (lit "search_vault", fun args =>
       ObsidianApiClient.searchVault client
         (arg args "query") (arg args "scope") (arg args "path_filter"));
    (lit "find_related_notes", fun args =>
       ObsidianApiClient.findRelatedNotes client
         (arg args "path") (arg args "on"));
    (* Legacy Tools (backward compatibility) *)
    (lit "list_notes", fun args =>
       let searchQuery := arg args "search" in
       if truthy searchQuery then
         (* Use the enhanced search functionality *)
         ObsidianApiClient.searchVault client searchQuery
           (Some (JArr [JStr (lit "content"); JStr (lit "filename");
                        JStr (lit "tags")]))
           undefined
       else ObsidianApiClient.listNotes client);
    (lit "get_note", fun args =>
       ObsidianApiClient.getNote client (arg args "path"));
    (lit "get_metadata_keys", fun _ =>
       ObsidianApiClient.getMetadataKeys client);
    (lit "get_metadata_values", fun args =>
       ObsidianApiClient.getMetadataValues client (arg args "key")) ].

(** The clause a [switch] selects: the first whose label is [===] to the
    scrutinee. *)
Fixpoint select (name : jsstring) (cs : list Case) : option (Arguments -> M json) :=
  match cs with
  | [] => None
  | (label, run) :: rest => if eqb name label then Some run else select name rest
  end.

(** The [switch] statement, with its [default] clause. *)
Definition switch (name : jsstring) (args : Arguments) : M json :=
  match select name cases with
  | Some run => run args
  | None => throw (Throw Error (lit "Unknown tool: " ++ name))
  end.

(** The call handler: the [switch] and the serialization of its result
    under [try], every thrown error turned into an error result. *)
Definition CallTool (name : jsstring) (args : Arguments) : M CallToolResult :=
  try_catch
    (result <- switch name args ;;
     ret {| content :=
              [ {| content_type := lit "text";
                   text := JSON_stringify_2 result |} ];
            isError := None |})
    (fun error =>
       ret {| content :=
                [ {| content_type := lit "text";
                     text := lit "Error: " ++ message error |} ];
              isError := Some true |}).

End Server.

(** The server built from a configuration: [new ObsidianMcpServer(config)]
    builds its client from [config]. *)
Definition handle (config : Config.t) : jsstring -> Arguments -> M CallToolResult :=
  CallTool (ObsidianApiClient.constructor config).

End ObsidianMcpServer.

(* ===================================================================== *)
(** * The vocabulary of the statements                                    *)
(* ===================================================================== *)

Module Spec.
Import JS Net ObsidianApiClient ObsidianMcpServer.

(** [p] holds of the [fuel] numbers from [n] on. *)
Fixpoint all_from (fuel : nat) (n : N) (p : N -> bool) : bool :=
  match fuel with
  | O => true
  | S f => p n && all_from f (N.succ n) p
  end.

(** Reading the four hexadecimal digits of [escape_u c] gives [c]. *)
Definition escape_ok (c : N) : bool :=
  match hex4 (hex_lower (N.shiftr c 12)) (hex_lower (N.shiftr c 8))
             (hex_lower (N.shiftr c 4)) (hex_lower c) with
  | Some u => N.eqb u c
  | None => false
  end.

(** What may follow a run of digits: not a digit. *)
Definition ends_digits (rest : jsstring) : bool :=
  match rest with
  | [] => true
  | c :: _ => negb (is_digit c)
  end.

(** What may follow a number: not a digit, a fraction or an exponent. *)
Definition ends_number (rest : jsstring) : bool :=
  ends_digits rest && negb (continues_number rest).

(** A bound on the fuel [parse_value] needs to read a value back. *)
Fixpoint size (v : json) : nat :=
  match v with
  | JArr elems => S (list_sum (List.map (fun e => S (size e)) elems))
  | JObj props => S (list_sum (List.map (fun kv => S (size (snd kv))) props))
  | _ => 1
  end.

(** The first character of a serialized value starts a value. *)
Definition starts_value (c : code_unit) : bool :=
  negb (is_ws c) && negb (c =? 93)%N && negb (c =? 125)%N.

(** The statement carried through the induction on the value. *)
Definition parses_back (v : json) : Prop :=
  json_writable v = true ->
  forall (gap indent rest : jsstring) (fuel : nat),
    forallb is_ws gap = true -> forallb is_ws indent = true ->
    ends_number rest = true -> size v <= fuel ->
    parse_value fuel (serialize gap indent v ++ rest) = Some (v, rest).

(** *** The words of the facts about numerals *)

Local Open Scope Z_scope.

Definition digit_step (a : Z) (c : code_unit) : Z := 10 * a + Z.of_N (c - 48).

(** Clean digit strings: the digits of a positive integer that is not a
    multiple of ten. *)
Definition clean_digits (D : jsstring) : Prop :=
  forallb is_digit D = true
  /\ (exists c r, D = c :: r /\ c <> 48%N)
  /\ hd_error (rev D) <> Some 48%N.

Definition good_decimal (m e : Z) (c : jsstring * Z) : Prop :=
  clean_digits (fst c) /\ round_decimal (fst c) (snd c) = Some (m, e).

(** The text of a fraction and of an exponent. *)
Definition fraction_text (frac : option jsstring) : jsstring :=
  match frac with
  | Some fs => lit "." ++ fs
  | None => []
  end.

Definition exponent_text (ex : option Z) : jsstring :=
  match ex with
  | Some x =>
      lit "e" ++ (if 0 <=? x then lit "+" else lit "-")
        ++ N_toString (Z.to_N (Z.abs x))
  | None => []
  end.

Definition sign_text (negative : bool) : jsstring :=
  if negative then lit "-" else [].

(** What [format_decimal] writes, part by part. *)
Definition format_parts (D : jsstring) (n : Z)
  : jsstring * option jsstring * option Z :=
  let k := Z.of_nat (List.length D) in
  if (k <=? n) && (n <=? 21) then (D ++ zeros (n - k), None, None)
  else if (0 <? n) && (n <=? 21) then
    (firstn (Z.to_nat n) D, Some (skipn (Z.to_nat n) D), None)
  else if (-6 <? n) && (n <=? 0) then (lit "0", Some (zeros (- n) ++ D), None)
  else
    match D with
    | [] => ([], None, None)
    | [d] => ([d], None, Some (n - 1))
    | d :: r => ([d], Some r, Some (n - 1))
    end.

Local Close Scope Z_scope.

(** The text of one member of an object, as [serialize] writes it. *)
Definition member (gap indent : jsstring) (kv : jsstring * json) : jsstring :=
  match kv with
  | (k, x) =>
      QuoteJSONString k ++ [58%N]
        ++ match gap with [] => [] | _ => [32%N] end
        ++ serialize gap indent x
  end.

(** The characters of an encoded path segment: the unescaped ones (which
    include the hexadecimal digits) and [%]. *)
Definition segment_unit (c : code_unit) : bool :=
  uri_unescaped c || (c =? 37)%N.

(** The [fetch] call [request] makes. *)
Definition call_of (this : ObsidianApiClient.t) (path : jsstring)
    (options : RequestInit) : FetchCall :=
  {| url := baseUrl this ++ path; init := options;
     Net.headers := ObsidianApiClient.headers this |}.

(** What [request] returns or throws, given what [fetch] settles to. *)
Definition settle (net : Network) (c : FetchCall) : result json :=
  match net c with
  | Rejected e => inl e
  | Resolved r =>
      if negb (ok r) then
        inl (Throw Error
               (lit "API request failed: " ++ N_toString (status r)
                  ++ lit " " ++ statusText r))
      else json_body r
  end.

(** The two results the call handler builds. *)
Definition success_result (v : json) : CallToolResult :=
  {| content := [ {| content_type := lit "text"; text := JSON_stringify_2 v |} ];
     isError := None |}.

Definition error_result (e : exn) : CallToolResult :=
  {| content := [ {| content_type := lit "text";
                     text := lit "Error: " ++ message e |} ];
     isError := Some true |}.

Definition to_result (r : result json) : CallToolResult :=
  match r with
  | inl e => error_result e
  | inr v => success_result v
  end.

(** A computation that either throws before any [fetch], or is one call of
    [request]. *)
Definition single_request (this : ObsidianApiClient.t) (m : M json) : Prop :=
  (exists e, m = throw e)
  \/ (exists path options,
       hd_error path = Some 47%N /\ m = request this path options).

(** Every method of the client, applied to arbitrary arguments. *)
Definition operations (this : ObsidianApiClient.t) (a b c d : value)
  : list (M json) :=
  [ listDirectory this a b c d; readFile this a; writeFile this a b c;
    deleteItem this a; createOrUpdateNote this a b c; getDailyNote this a;
    getRecentNotes this a; searchVault this a b c; findRelatedNotes this a b;
    listFiles this; getFile this a; createFile this a b c; updateFile this a b;
    deleteFile this a; listNotes this; getNote this a; createNote this a b c;
    updateNote this a b c; deleteNote this a; searchNotes this a;
    getMetadataKeys this; getMetadataValues this a ].

(** The [fetch] calls an invocation adds to the log. *)
Definition new_calls (log log' : list FetchCall) : list FetchCall :=
  skipn (List.length log) log'.

(** A result with one text block. *)
Definition text_result (t : jsstring) (flag : option bool) : CallToolResult :=
  {| content := [ {| content_type := lit "text"; text := t |} ];
     isError := flag |}.

(** The scope [content], [filename], [tags], as an array. *)
Definition default_scope : json :=
  JArr [JStr (lit "content"); JStr (lit "filename"); JStr (lit "tags")].

(** The tools that take a vault path as a path segment, and the endpoint
    each one puts before it. *)
Definition path_tools : list (string * string) :=
  [("read_file", "/files/"); ("delete_item", "/files/"); ("get_note", "/notes/")]%string.

(** The defaults a tool declares in its input schema. *)
Definition declared_defaults (t : ToolDefinition) : list (jsstring * json) :=
  flat_map
    (fun kp => match p_default (snd kp) with
               | Some d => [(fst kp, d)]
               | None => []
               end)
    (properties (inputSchema t)).

(** The properties of the [arguments] object, none when it is absent. *)
Definition props_of (args : Arguments) : list (jsstring * json) :=
  match args with
  | Some o => o
  | None => []
  end.

(** The arguments of a call, completed with the declared defaults. *)
Definition with_defaults (t : ToolDefinition) (args : Arguments) : Arguments :=
  Some (props_of args ++ declared_defaults t).

(** The invocation makes one request, with this method, endpoint path and
    body. *)
Definition sends (config : Config.t) (n : string) (args : Arguments)
    (net : Network) (log : list FetchCall)
    (m : string) (path : jsstring) (b : option jsstring) : Prop :=
  exists call,
    snd (handle config (lit n) args net log) = log ++ [call]
    /\ effective_method call = lit m
    /\ url call = Config.baseUrl config ++ lit "/api" ++ path
    /\ body (init call) = b.

(** Concrete inputs for the examples. *)
Definition example_config : Config.t :=
  {| Config.baseUrl := lit "http://localhost:8000"; Config.apiKey := None |}.

Definition example_network (code : N) (reason : jsstring) (answer : result json)
  : Network :=
  fun _ => Resolved {| status := code; statusText := reason; json_body := answer |}.

Definition example_note : json :=
  JObj [(lit "path", JStr (lit "Daily/2025-06-01.md"));
        (lit "tags", JArr [JStr (lit "daily"); JStr (lit "a\b")]);
        (lit "size", JNum 1234);
        (lit "frontmatter", JObj [(lit "done", JBool false); (lit "mood", JNull)])].

(** A note with measurements: [1.5], [-0.000001] and [1e21]. *)
Definition example_measures : json :=
  JObj [(lit "path", JStr (lit "Lab/run-7.md"));
        (lit "ratio", JFloat (Finite false 6755399441055744 (-52)));
        (lit "drift", JFloat (Finite true 4722366482869645 (-72)));
        (lit "count", JFloat (Finite false 7629394531250000 17))].

Definition example_patch : FetchCall :=
  {| url := lit "http://localhost:8000/api/notes/Projects%2Fplan";
     init := {| method := Some (lit "PATCH"); body := Some (lit "{}") |};
     Net.headers := [(lit "Content-Type", lit "application/json");
                     (lit "Accept", lit "application/json")] |}.

End Spec.


(* ===================================================================== *)
(** * The rest of the program                                             *)
(* ===================================================================== *)

(** ** The command line, handled before anything else *)

Module Cli.
Import JS.

(** The usage text, cut at its double quotes. *)
Definition help_pieces : list string :=
  [ "
Obsidian Local REST API MCP Server

Usage: obsidian-local-rest-api-mcp [options]

Options:
  -v, --version    Show version number
  -h, --help       Show help

Environment Variables:
  OBSIDIAN_API_URL    Base URL for Obsidian REST API (default: http://obsidian-local-rest-api.test)
  OBSIDIAN_API_KEY    Optional bearer token for authentication

This is an MCP server that communicates via stdio. It should be configured
in your MCP client (like Claude Desktop) rather than run directly.

Example Claude Desktop configuration:
{
  ";
    "mcpServers";
    ": {
    ";
    "obsidian-vault";
    ": {
      ";
    "command";
    ": ";
    "npx";
    ",
      ";
    "args";
    ": [";
    "obsidian-local-rest-api-mcp";
    "],
      ";
    "env";
    ": {
        ";
    "OBSIDIAN_API_URL";
    ": ";
    "http://localhost:8000";
    "
      }
    }
  }
}
" ]%string.

Definition help_text : jsstring := join [34%N] (List.map lit help_pieces).

(** [args.includes(x)]. *)
Definition includes (args : list jsstring) (x : string) : bool :=
  existsb (eqb (lit x)) args.

(** How the first statements of the program end: the process prints one
    value with [console.log] and exits, or an exception escapes, or the
    program goes on to start the server. *)
Inductive Startup :=
| Exit (logged : value) (code : Z)
| Uncaught (e : exn)
| Proceed.

(** [packageJson.version]. *)
Definition version_of (packageJson : json) : result value :=
  match packageJson with
  | JNull =>
      inl (Throw TypeError (lit "Cannot read properties of null (reading 'version')"))
  | JObj props => inr (get props (lit "version"))
  | _ => inr undefined
  end.

(** [argv] is [process.argv]; [package] is what reading and parsing
    [package.json] gives, were it done. *)
Definition cli (argv : list jsstring) (package : result json) : Startup :=
  let args := skipn 2 argv in
  if includes args "--version" || includes args "-v" then
    match bindR package version_of with
    | inl e => Uncaught e
    | inr version => Exit version 0
    end
  else if includes args "--help" || includes args "-h" then
    Exit (Some (JStr help_text)) 0
  else Proceed.

End Cli.

(** ** [main]: the configuration read from the environment *)

Module Main.
Import JS Net.

Definition DEFAULT_URL : jsstring := lit "http://obsidian-local-rest-api.test".

(** How [main] ends: the server is built on a configuration (and then
    connected to its transport, which is not modelled), or the promise is
    rejected and the process exits with the code given. *)
Inductive Started :=
| Serving (config : Config.t)
| Fatal (code : Z).

Section Zod.
(** [z.string().url()], the check of the validation library. *)
Variable zod_url : jsstring -> bool.

(** [ConfigSchema.parse({ baseUrl: env.OBSIDIAN_API_URL || default,
    apiKey: env.OBSIDIAN_API_KEY })]; [None] when it throws. *)
Definition parseConfig (OBSIDIAN_API_URL OBSIDIAN_API_KEY : option jsstring)
  : option Config.t :=
  let baseUrl :=
    match OBSIDIAN_API_URL with
    | Some u => if truthy (Some (JStr u)) then u else DEFAULT_URL
    | None => DEFAULT_URL
    end in
  if zod_url baseUrl
  then Some {| Config.baseUrl := baseUrl; Config.apiKey := OBSIDIAN_API_KEY |}
  else None.

Definition main (OBSIDIAN_API_URL OBSIDIAN_API_KEY : option jsstring) : Started :=
  match parseConfig OBSIDIAN_API_URL OBSIDIAN_API_KEY with
  | Some config => Serving config
  | None => Fatal 1
  end.

End Zod.
End Main.

(** ** The earlier server: one tool per REST operation

    The second program of [src/index.ts] has the same client (without the
    AI-native methods) and the same call handler around another catalog
    and another [switch]. *)

Module LegacyServer.
Import JS Net ObsidianMcpServer.
Local Open Scope js_scope.

Definition tools : list ToolDefinition :=
  [ Tool (lit "list_files")
      (lit "List all files in the Obsidian vault")
      (InputSchema (lit "object")
         []
         (None));
    Tool (lit "get_file")
      (lit "Get content of a specific file from the vault")
      (InputSchema (lit "object")
         [(lit "path",
          Property (lit "string")
            (lit "Path to the file")
            None (None) None)]
         (Some [lit "path"]));
    Tool (lit "create_file")
      (lit "Create a new file in the vault")
      (InputSchema (lit "object")
         [(lit "path",
          Property (lit "string")
            (lit "Path for the new file")
            None (None) None);
         (lit "content",
          Property (lit "string")
            (lit "Content of the file")
            None (None) None);
         (lit "type",
          Property (lit "string")
            (lit "Type of item to create")
            None (Some [lit "file"; lit "directory"]) None)]
         (Some [lit "path"; lit "content"]));
    Tool (lit "update_file")
      (lit "Update content of an existing file")
      (InputSchema (lit "object")
         [(lit "path",
          Property (lit "string")
            (lit "Path to the file")
            None (None) None);
         (lit "content",
          Property (lit "string")
            (lit "New content of the file")
            None (None) None)]
         (Some [lit "path"; lit "content"]));
    Tool (lit "delete_file")
      (lit "Delete a file from the vault")
      (InputSchema (lit "object")
         [(lit "path",
          Property (lit "string")
            (lit "Path to the file to delete")
            None (None) None)]
         (Some [lit "path"]));
    Tool (lit "list_notes")
      (lit "List all notes in the vault with metadata")
      (InputSchema (lit "object")
         []
         (None));
    Tool (lit "get_note")
      (lit "Get a specific note with its content and metadata")
      (InputSchema (lit "object")
         [(lit "path",
          Property (lit "string")
            (lit "Path to the note")
            None (None) None)]
         (Some [lit "path"]));
    Tool (lit "create_note")
      (lit "Create a new note with optional frontmatter")
      (InputSchema (lit "object")
         [(lit "path",
          Property (lit "string")
            (lit "Path for the new note")
            None (None) None);
         (lit "content",
          Property (lit "string")
            (lit "Content of the note")
            None (None) None);
         (lit "frontmatter",
          Property (lit "object")
            (lit "Optional frontmatter metadata")
            None (None) None)]
         (Some [lit "path"; lit "content"]));
    Tool (lit "update_note")
      (lit "Update a note's content and/or frontmatter")
      (InputSchema (lit "object")
         [(lit "path",
          Property (lit "string")
            (lit "Path to the note")
            None (None) None);
         (lit "content",
          Property (lit "string")
            (lit "New content (optional)")
            None (None) None);
         (lit "frontmatter",
          Property (lit "object")
            (lit "New frontmatter (optional)")
            None (None) None)]
         (Some [lit "path"]));
    Tool (lit "delete_note")
      (lit "Delete a note from the vault")
      (InputSchema (lit "object")
         [(lit "path",
          Property (lit "string")
            (lit "Path to the note to delete")
            None (None) None)]
         (Some [lit "path"]));
    Tool (lit "search_notes")
      (lit "Search notes by content or metadata")
      (InputSchema (lit "object")
         [(lit "query",
          Property (lit "string")
            (lit "Search query")
            None (None) None)]
         (Some [lit "query"]));
    Tool (lit "get_metadata_keys")
      (lit "Get all available frontmatter keys from notes")
      (InputSchema (lit "object")
         []
         (None));
    Tool (lit "get_metadata_values")
      (lit "Get all unique values for a specific frontmatter key")
      (InputSchema (lit "object")
         [(lit "key",
          Property (lit "string")
            (lit "Frontmatter key")
            None (None) None)]
         (Some [lit "key"])) ].

Section Server.
Variable client : ObsidianApiClient.t.

(** The [case] clauses of the [switch (name)], in order. *)
Definition cases : list Case :=
  [ (lit "list_files", fun _ => ObsidianApiClient.listFiles client);
    (lit "get_file", fun args =>
       ObsidianApiClient.getFile client (arg args "path"));
    (lit "create_file", fun args =>
       ObsidianApiClient.createFile client
         (arg args "path") (arg args "content") (arg args "type"));
    (lit "update_file", fun args =>
       ObsidianApiClient.updateFile client (arg args "path") (arg args "content"));
    (lit "delete_file", fun args =>
       ObsidianApiClient.deleteFile client (arg args "path"));
    (lit "list_notes", fun _ => ObsidianApiClient.listNotes client);
    (lit "get_note", fun args =>
       ObsidianApiClient.getNote client (arg args "path"));
    (lit "create_note", fun args =>
       ObsidianApiClient.createNote client
         (arg args "path") (arg args "content") (arg args "frontmatter"));
    (lit "update_note", fun args =>
       ObsidianApiClient.updateNote client
         (arg args "path") (arg args "content") (arg args "frontmatter"));
    (lit "delete_note", fun args =>
       ObsidianApiClient.deleteNote client (arg args "path"));
    (lit "search_notes", fun args =>
       ObsidianApiClient.searchNotes client (arg args "query"));
    (lit "get_metadata_keys", fun _ =>
       ObsidianApiClient.getMetadataKeys client);
    (lit "get_metadata_values", fun args =>
       ObsidianApiClient.getMetadataValues client (arg args "key")) ].

Definition switch (name : jsstring) (args : Arguments) : M json :=
  match select name cases with
  | Some run => run args
  | None => throw (Throw Error (lit "Unknown tool: " ++ name))
  end.

Definition CallTool (name : jsstring) (args : Arguments) : M CallToolResult :=
  try_catch
    (result <- switch name args ;;
     ret {| content :=
              [ {| content_type := lit "text";
                   text := JSON_stringify_2 result |} ];
            isError := None |})
    (fun error =>
       ret {| content :=
                [ {| content_type := lit "text";
                     text := lit "Error: " ++ message error |} ];
              isError := Some true |}).

End Server.

Definition handle (config : Config.t) : jsstring -> Arguments -> M CallToolResult :=
  CallTool (ObsidianApiClient.constructor config).

End LegacyServer.

(** ** More vocabulary *)

Module SpecX.
Import JS Net ObsidianApiClient ObsidianMcpServer Spec.

(** The [Authorization] header of a configuration: present when the key is
    a non-empty string. *)
Definition authorization (config : Config.t) : list (jsstring * jsstring) :=
  match Config.apiKey config with
  | Some (c :: key) => [(lit "Authorization", lit "Bearer " ++ c :: key)]
  | _ => []
  end.

(** The names of the properties a tool declares. *)
Definition declared (t : ToolDefinition) : list jsstring :=
  List.map fst (properties (inputSchema t)).

(** Two argument objects give the same value to every key of a list. *)
Definition agree_on (keys : list jsstring) (args args' : Arguments) : Prop :=
  forall k, In k keys -> get (props_of args) k = get (props_of args') k.

(** The characters a form-encoded name or value is written with. *)
Definition form_unit (c : code_unit) : bool :=
  is_alnum c || mem c (lit "*-._+%").

(** A string that holds none of the separators of a URL. *)
Definition separator_free (s : jsstring) : Prop :=
  forall c, In c s -> ~ In c (lit "/?#&=").

(** The strings [URLSearchParams] writes as they are: alphanumerics and
    [*-._]. *)
Definition form_plain (s : jsstring) : bool :=
  forallb (fun c => is_alnum c || mem c (lit "*-._")) s.

(** The invocation fails before any request: an error result, and the log
    as it was. *)
Definition fails_without_request (config : Config.t) (n : string)
    (args : Arguments) : Prop :=
  forall net log, exists t,
    handle config (lit n) args net log = (inr (text_result t (Some true)), log).

(** [sends], for the earlier server. *)
Definition legacy_sends (config : Config.t) (n : string) (args : Arguments)
    (net : Network) (log : list FetchCall)
    (m : string) (path : jsstring) (b : option jsstring) : Prop :=
  exists call,
    snd (LegacyServer.handle config (lit n) args net log) = log ++ [call]
    /\ effective_method call = lit m
    /\ url call = Config.baseUrl config ++ lit "/api" ++ path
    /\ body (init call) = b.

(** The text is JSON for this object. *)
Definition reads_as (b : option jsstring) (props : list (jsstring * json)) : Prop :=
  exists t, b = Some t /\ JSON_parse t = Some (JObj props).

(** The catalog entry of [list_notes]. *)
Definition list_notes_tool : ToolDefinition :=
  Tool (lit "list_notes")
    (lit "List all notes in the vault with optional search filter (legacy with search support)")
    (InputSchema (lit "object")
       [(lit "search",
         Property (lit "string")
           (lit "Optional search query to filter notes")
           None None None)]
       None).

(** What the requests of the AI-native tools look like: a [GET] or a
    [DELETE] without a body, or a [POST] with one. *)
Definition get_post_or_delete (call : FetchCall) : Prop :=
  (effective_method call = lit "GET" /\ body (init call) = None)
  \/ (effective_method call = lit "POST" /\ exists b, body (init call) = Some b)
  \/ (effective_method call = lit "DELETE" /\ body (init call) = None).

(** A computation that throws before any [fetch], or is one call of
    [request] whose options satisfy [P]. *)
Definition requests_with (this : ObsidianApiClient.t)
    (P : RequestInit -> Prop) (m : M json) : Prop :=
  (exists e, m = throw e)
  \/ (exists path options, P options /\ m = request this path options).

(** The options of the AI-native tools, and of the earlier ones. *)
Definition native_options (o : RequestInit) : Prop :=
  (method o = None /\ body o = None)
  \/ (method o = Some (lit "POST") /\ exists b, body o = Some b)
  \/ (method o = Some (lit "DELETE") /\ body o = None).

Definition legacy_options (o : RequestInit) : Prop :=
  ((method o = None \/ method o = Some (lit "DELETE")) /\ body o = None)
  \/ ((method o = Some (lit "POST") \/ method o = Some (lit "PUT")
       \/ method o = Some (lit "PATCH"))
      /\ exists b, body o = Some b).

(** What [process.env.OBSIDIAN_API_URL || default] is. *)
Definition effective_url (OBSIDIAN_API_URL : option jsstring) : jsstring :=
  match OBSIDIAN_API_URL with
  | Some (c :: u) => c :: u
  | _ => Main.DEFAULT_URL
  end.

(** The four flags of the command line. *)
Definition version_flag (args : list jsstring) : Prop :=
  In (lit "--version") args \/ In (lit "-v") args.

Definition help_flag (args : list jsstring) : Prop :=
  In (lit "--help") args \/ In (lit "-h") args.

(** The JSON Schema type of a value. *)
Definition json_type (v : json) : jsstring :=
  match v with
  | JNull => lit "null"
  | JBool _ => lit "boolean"
  | JNum _ => lit "number"
  | JFloat _ => lit "number"
  | JStr _ => lit "string"
  | JArr _ => lit "array"
  | JObj _ => lit "object"
  end.

(** The names a tool requires. *)
Definition required_names (t : ToolDefinition) : list jsstring :=
  match required (inputSchema t) with
  | Some names => names
  | None => []
  end.

(** A default that its own schema accepts: of the declared type, one of
    the enumerated strings where there is an enumeration, and an array of
    enumerated strings where the items have one. *)
Definition default_fits (p : PropertySchema) (d : json) : Prop :=
  json_type d = p_type p
  /\ (forall e, p_enum p = Some e -> exists s, d = JStr s /\ In s e)
  /\ (forall i, p_items p = Some i ->
      exists elems,
        d = JArr (List.map JStr elems)
        /\ items_type i = lit "string"
        /\ incl elems (items_enum i)).

End SpecX.

(* ===================================================================== *)
(** * Facts about the runtime fragment                                    *)
(* ===================================================================== *)

(** ** Strings, white space, escapes *)

Module JSFacts.
Import JS Spec.

Lemma eqb_eq (a b : jsstring) : eqb a b = true <-> a = b.
Proof.
  revert b; induction a as [|x a IH]; intros [|y b]; simpl; split; intro H;
    try reflexivity; try discriminate.
  - apply andb_true_iff in H as [Hx Hr]. apply N.eqb_eq in Hx.
    apply IH in Hr. now subst.
  - injection H as -> ->. rewrite N.eqb_refl. simpl. now apply IH.
Qed.

Lemma eqb_refl (a : jsstring) : eqb a a = true.
Proof. now apply eqb_eq. Qed.

Lemma eqb_neq (a b : jsstring) : eqb a b = false <-> a <> b.
Proof.
  split.
  - intros H E. apply eqb_eq in E. congruence.
  - intro H. destruct (eqb a b) eqn:E; [apply eqb_eq in E; contradiction | reflexivity].
Qed.

Lemma eqb_sym (a b : jsstring) : eqb a b = eqb b a.
Proof.
  destruct (eqb a b) eqn:E.
  - apply eqb_eq in E. subst. symmetry. apply eqb_refl.
  - symmetry. apply eqb_neq. apply eqb_neq in E. congruence.
Qed.

Lemma contains_refl (s : jsstring) : contains s s.
Proof. exists [], []. now rewrite app_nil_r. Qed.

Lemma contains_app_r (p s n : jsstring) : contains s n -> contains (p ++ s) n.
Proof.
  intros (a & b & ->). exists (p ++ a), b. now rewrite <- app_assoc.
Qed.

Lemma contains_app_l (s q n : jsstring) : contains s n -> contains (s ++ q) n.
Proof.
  intros (a & b & ->). exists a, (b ++ q). now rewrite <- !app_assoc.
Qed.

(** *** White space *)

Lemma skip_ws_app (w t : jsstring) :
  forallb is_ws w = true -> skip_ws (w ++ t) = skip_ws t.
Proof.
  induction w as [|c w IH]; simpl; [reflexivity|].
  intro H. apply andb_true_iff in H as [Hc Hw]. rewrite Hc. now apply IH.
Qed.

Lemma skip_ws_head (c : code_unit) (t : jsstring) :
  is_ws c = false -> skip_ws (c :: t) = c :: t.
Proof. intro H. simpl. now rewrite H. Qed.

(** *** String literals *)

Lemma all_from_spec (p : N -> bool) (fuel : nat) : forall n m,
  all_from fuel n p = true -> (n <= m)%N -> (m < n + N.of_nat fuel)%N -> p m = true.
Proof.
  induction fuel as [|f IH]; intros n m H Hn Hm.
  - simpl in Hm. lia.
  - simpl in H. apply andb_true_iff in H as [H0 H1].
    destruct (N.eq_dec n m) as [->|Hne]; [assumption|].
    apply (IH (N.succ n)); [assumption | lia | lia].
Qed.

Lemma escape_ok_all (c : N) : (c < 65536)%N -> escape_ok c = true.
Proof.
  intro H. apply (@all_from_spec escape_ok (N.to_nat 65536) 0%N).
  - vm_compute. reflexivity.
  - lia.
  - rewrite N2Nat.id. lia.
Qed.

Lemma hex4_escape (c : N) : (c < 65536)%N ->
  hex4 (hex_lower (N.shiftr c 12)) (hex_lower (N.shiftr c 8))
       (hex_lower (N.shiftr c 4)) (hex_lower c) = Some c.
Proof.
  intro H. pose proof (escape_ok_all H) as E. unfold escape_ok in E.
  destruct (hex4 _ _ _ _) as [u|]; [|discriminate].
  apply N.eqb_eq in E. now subst.
Qed.

End JSFacts.

(** ** String literals are read back *)

Module JSONStrings.
Import JS Spec JSFacts.

Lemma parse_escape_u (c : code_unit) (t : jsstring) : (c < 65536)%N ->
  parse_string_body (escape_u c ++ t) = cons_unit c (parse_string_body t).
Proof.
  intro H. unfold escape_u. cbn [app parse_string_body].
  change (92 =? 34)%N with false. change (92 =? 92)%N with true.
  change (117 =? 117)%N with true. cbv iota.
  now rewrite (hex4_escape H).
Qed.

Lemma parse_literal_unit (c : code_unit) (t : jsstring) :
  (c =? 34)%N = false -> (c =? 92)%N = false -> (c <? 32)%N = false ->
  parse_string_body (c :: t) = cons_unit c (parse_string_body t).
Proof. intros H1 H2 H3. cbn [parse_string_body]. now rewrite H1, H2, H3. Qed.

Lemma parse_quote_unit (c : code_unit) (t : jsstring) :
  parse_string_body (quote_unit c ++ t) = cons_unit c (parse_string_body t).
Proof.
  unfold quote_unit.
  repeat match goal with
  | |- context [if (c =? ?k)%N then _ else _] =>
      destruct (N.eqb_spec c k) as [->|?]; [reflexivity|]
  end.
  destruct (c <? 32)%N eqn:E.
  - apply parse_escape_u. apply N.ltb_lt in E. lia.
  - apply parse_literal_unit; try assumption; now apply N.eqb_neq.
Qed.

Lemma surrogate_literal (c : code_unit) :
  is_surrogate c = true ->
  (c =? 34)%N = false /\ (c =? 92)%N = false /\ (c <? 32)%N = false
  /\ (c < 65536)%N.
Proof.
  unfold is_surrogate. intro H. apply andb_true_iff in H as [H1 H2].
  apply N.leb_le in H1, H2.
  repeat split; try (apply N.eqb_neq; lia); try (apply N.ltb_ge; lia); lia.
Qed.

Lemma high_is_surrogate (c : code_unit) :
  is_high_surrogate c = true -> is_surrogate c = true.
Proof.
  unfold is_high_surrogate, is_surrogate. intro H.
  apply andb_true_iff in H as [H1 H2]. apply N.leb_le in H1, H2.
  apply andb_true_iff; split; apply N.leb_le; lia.
Qed.

Lemma low_is_surrogate (c : code_unit) :
  is_low_surrogate c = true -> is_surrogate c = true.
Proof.
  unfold is_low_surrogate, is_surrogate. intro H.
  apply andb_true_iff in H as [H1 H2]. apply N.leb_le in H1, H2.
  apply andb_true_iff; split; apply N.leb_le; lia.
Qed.

Lemma parse_quote_body_len (n : nat) : forall (s rest : jsstring),
  List.length s <= n ->
  parse_string_body (quote_body s ++ 34%N :: rest) = Some (s, rest).
Proof.
  induction n as [|n IH]; intros s rest Hlen.
  - destruct s; [reflexivity | simpl in Hlen; lia].
  - destruct s as [|c s]; [reflexivity|].
    simpl in Hlen. cbn [quote_body].
    destruct (is_high_surrogate c) eqn:Hh.
    + pose proof (surrogate_literal _ (high_is_surrogate _ Hh)) as (A1 & A2 & A3 & A4).
      destruct s as [|d s].
      * rewrite parse_escape_u by assumption. reflexivity.
      * destruct (is_low_surrogate d) eqn:Hl.
        -- pose proof (surrogate_literal _ (low_is_surrogate _ Hl)) as (B1 & B2 & B3 & B4).
           cbn [app]. rewrite parse_literal_unit by assumption.
           rewrite parse_literal_unit by assumption.
           rewrite IH by (simpl in Hlen; lia). reflexivity.
        -- rewrite <- app_assoc, parse_escape_u by assumption.
           rewrite IH by lia. reflexivity.
    + destruct (is_low_surrogate c) eqn:Hl.
      * pose proof (surrogate_literal _ (low_is_surrogate _ Hl)) as (B1 & B2 & B3 & B4).
        rewrite <- app_assoc, parse_escape_u by assumption.
        rewrite IH by lia. reflexivity.
      * rewrite <- app_assoc, parse_quote_unit. rewrite IH by lia. reflexivity.
Qed.

Lemma parse_quote_body (s rest : jsstring) :
  parse_string_body (quote_body s ++ 34%N :: rest) = Some (s, rest).
Proof. now apply (@parse_quote_body_len (List.length s)). Qed.

End JSONStrings.

(** ** Numerals are read back *)

Module JSONNumbers.
Import JS Spec JSFacts.

Lemma units_uint_units (d : Decimal.uint) : units_uint (uint_units d) = d.
Proof. induction d; simpl; try reflexivity; unfold digit_of_unit; simpl; now f_equal. Qed.

Lemma uint_units_digits (d : Decimal.uint) : forallb is_digit (uint_units d) = true.
Proof. induction d; simpl; auto. Qed.

Lemma take_digits_units (d : Decimal.uint) (rest : jsstring) :
  ends_digits rest = true ->
  take_digits (uint_units d ++ rest) = (uint_units d, rest).
Proof.
  intro H. induction d; simpl;
    try (rewrite IHd; reflexivity).
  destruct rest as [|c rest]; [reflexivity|].
  simpl in H. simpl. apply negb_true_iff in H. now rewrite H.
Qed.

Lemma to_uint_unorm (n : N) : Decimal.unorm (N.to_uint n) = N.to_uint n.
Proof.
  rewrite <- (DecimalN.Unsigned.of_to n) at 2.
  now rewrite DecimalN.Unsigned.to_of.
Qed.

Lemma unorm_canonical (d : Decimal.uint) :
  canonical_numeral (uint_units (Decimal.unorm d)) = true.
Proof.
  unfold canonical_numeral.
  destruct (uint_units (Decimal.unorm d)) as [|c r] eqn:E.
  - exfalso. unfold Decimal.unorm in E.
    destruct (Decimal.nzhead d); discriminate.
  - rewrite <- E, uint_units_digits. simpl.
    unfold Decimal.unorm in E.
    pose proof (@DecimalFacts.nzhead_nonzero d) as Hnz.
    destruct (Decimal.nzhead d) eqn:En; simpl in E; injection E as <- <-;
      try reflexivity.
    exfalso. now apply (Hnz u).
Qed.

Lemma N_toString_canonical (n : N) : canonical_numeral (N_toString n) = true.
Proof. unfold N_toString. rewrite <- to_uint_unorm. apply unorm_canonical. Qed.

Lemma N_toString_value (n : N) : N.of_uint (units_uint (N_toString n)) = n.
Proof.
  unfold N_toString. rewrite units_uint_units. apply DecimalN.Unsigned.of_to.
Qed.

Lemma N_toString_digits (n : N) : forallb is_digit (N_toString n) = true.
Proof. apply uint_units_digits. Qed.

Lemma N_toString_head (n : N) :
  exists c r, N_toString n = c :: r /\ is_digit c = true.
Proof.
  pose proof (N_toString_canonical n) as H.
  pose proof (N_toString_digits n) as D.
  destruct (N_toString n) as [|c r]; [discriminate|].
  exists c, r. split; [reflexivity|]. simpl in D.
  now apply andb_true_iff in D as [D _].
Qed.

End JSONNumbers.

(** ** Numbers: rounding, the shortest digits, and reading them back *)

Module JSONDoubles.
Import JS Spec JSFacts JSONNumbers.
Local Open Scope Z_scope.

Lemma div_round_even_exact (m q : Z) : 0 < q -> div_round_even (m * q) q = m.
Proof.
  intro Hq. unfold div_round_even.
  rewrite Z.mod_mul by lia. rewrite Z.div_mul by lia.
  change (2 * 0) with 0. destruct (Z.compare_spec 0 q); lia.
Qed.

Lemma double_canonical_cases (m e : Z) :
  double_canonical m e = true ->
  (2 ^ 52 <= m < 2 ^ 53 /\ -1074 <= e <= 971)
  \/ (0 <= m < 2 ^ 52 /\ e = -1074).
Proof.
  unfold double_canonical. intro H. apply orb_true_iff in H as [H|H].
  - left. repeat (apply andb_true_iff in H as [H ?]). lia.
  - right. repeat (apply andb_true_iff in H as [H ?]). lia.
Qed.

Lemma round_ratio_exact (p q m e : Z) :
  double_canonical m e = true -> 0 < m -> 0 < q ->
  p * 2 ^ 1074 = m * 2 ^ (e + 1074) * q ->
  round_ratio p q = Some (m, e).
Proof.
  intros Hc Hm Hq Hx. unfold round_ratio. rewrite Hx.
  assert (He : 0 <= e + 1074) by (destruct (double_canonical_cases _ _ Hc); lia).
  assert (Hp : 0 < 2 ^ (e + 1074)) by (apply Z.pow_pos_nonneg; lia).
  rewrite Z.div_mul by lia.
  rewrite Z.log2_mul_pow2 by lia.
  assert (Hs : Z.max (e + 1074 + Z.log2 m - 52) 0 = e + 1074).
  { destruct (double_canonical_cases _ _ Hc) as [[H1 H2]|[H1 H2]].
    - assert (Z.log2 m = 52).
      { apply Z.log2_unique; [lia|]. change (2 ^ Z.succ 52) with (2 ^ 53). lia. }
      lia.
    - assert (Z.log2 m < 52) by (apply Z.log2_lt_pow2; lia).
      pose proof (Z.log2_nonneg m). lia. }
  rewrite Hs.
  replace (m * 2 ^ (e + 1074) * q) with (m * (q * 2 ^ (e + 1074))) by ring.
  rewrite div_round_even_exact by lia.
  assert (Hn : (m =? 2 ^ 53) = false).
  { apply Z.eqb_neq. destruct (double_canonical_cases _ _ Hc); lia. }
  rewrite Hn.
  replace (e + 1074 - 1074) with e by lia.
  assert (Hle : (e <=? 971) = true).
  { apply Z.leb_le. destruct (double_canonical_cases _ _ Hc); lia. }
  now rewrite Hle.
Qed.

Lemma digits_value_fold (ds : jsstring) :
  digits_value ds = fold_left digit_step ds 0.
Proof. reflexivity. Qed.

Lemma fold_digits_app (a b : jsstring) (acc : Z) :
  fold_left digit_step (a ++ b) acc
  = fold_left digit_step b (fold_left digit_step a acc).
Proof. apply fold_left_app. Qed.

Lemma fold_digits_zeros (j : nat) (acc : Z) :
  fold_left digit_step (repeat 48%N j) acc = acc * 10 ^ Z.of_nat j.
Proof.
  revert acc. induction j as [|j IH]; intro acc.
  - cbn. lia.
  - cbn [repeat fold_left]. rewrite IH. unfold digit_step.
    change (Z.of_N (48 - 48)) with 0.
    rewrite Nat2Z.inj_succ, Z.pow_succ_r by lia. ring.
Qed.

Lemma digits_value_zeros_r (D : jsstring) (j : nat) :
  digits_value (D ++ repeat 48%N j) = digits_value D * 10 ^ Z.of_nat j.
Proof.
  rewrite !digits_value_fold, fold_digits_app. apply fold_digits_zeros.
Qed.

Lemma digits_value_zeros_l (D : jsstring) (j : nat) :
  digits_value (repeat 48%N j ++ D) = digits_value D.
Proof.
  rewrite !digits_value_fold, fold_digits_app, fold_digits_zeros. reflexivity.
Qed.

Lemma of_uint_acc_fold (d : Decimal.uint) (acc : positive) :
  Z.pos (Pos.of_uint_acc d acc) = fold_left digit_step (uint_units d) (Z.pos acc).
Proof.
  revert acc. induction d; intro acc; cbn [Pos.of_uint_acc uint_units fold_left];
    try reflexivity; rewrite IHd; f_equal;
    unfold digit_step, digit_unit.
  all: match goal with
       | |- context [Z.of_N ?x] =>
           let v := eval vm_compute in (Z.of_N x) in change (Z.of_N x) with v
       end; lia.
Qed.

Lemma of_uint_fold (d : Decimal.uint) :
  Z.of_N (Pos.of_uint d) = fold_left digit_step (uint_units d) 0.
Proof.
  induction d; cbn [Pos.of_uint uint_units fold_left]; try reflexivity;
    try (exact IHd); cbn [Z.of_N]; rewrite of_uint_acc_fold; reflexivity.
Qed.

Lemma digits_value_N_toString (n : N) : digits_value (N_toString n) = Z.of_N n.
Proof.
  rewrite digits_value_fold. unfold N_toString. rewrite <- of_uint_fold.
  f_equal. apply DecimalN.Unsigned.of_to.
Qed.

(** *** Zeros at both ends *)

Lemma strip_leading_zeros_spec (ds : jsstring) :
  ds = repeat 48%N (List.length ds - List.length (strip_leading_zeros ds))
         ++ strip_leading_zeros ds
  /\ (List.length (strip_leading_zeros ds) <= List.length ds)%nat
  /\ hd_error (strip_leading_zeros ds) <> Some 48%N.
Proof.
  induction ds as [|c r IH]; cbn [strip_leading_zeros].
  - repeat split; cbn; [lia | discriminate].
  - destruct (c =? 48)%N eqn:E.
    + apply N.eqb_eq in E. subst c. destruct IH as (H1 & H2 & H3).
      split; [|split; [cbn [List.length]; lia | exact H3]].
      cbn [List.length].
      replace (S (List.length r) - List.length (strip_leading_zeros r))%nat
        with (S (List.length r - List.length (strip_leading_zeros r))) by lia.
      cbn [repeat app]. f_equal. exact H1.
    + apply N.eqb_neq in E. split; [|split; [lia|]].
      * rewrite Nat.sub_diag. reflexivity.
      * cbn. intros [= K]. now apply E.
Qed.

Lemma strip_leading_zeros_digits (ds : jsstring) :
  forallb is_digit ds = true -> forallb is_digit (strip_leading_zeros ds) = true.
Proof.
  induction ds as [|c r IH]; [reflexivity|]. intro H.
  cbn [strip_leading_zeros]. destruct (c =? 48)%N; [|exact H].
  apply IH. cbn in H. now apply andb_true_iff in H as [_ H].
Qed.

Lemma strip_leading_zeros_id (ds : jsstring) :
  hd_error ds <> Some 48%N -> strip_leading_zeros ds = ds.
Proof.
  destruct ds as [|c r]; [reflexivity|]. cbn. intro H.
  destruct (c =? 48)%N eqn:E; [|reflexivity].
  apply N.eqb_eq in E. subst c. now destruct H.
Qed.

Lemma strip_leading_zeros_zeros (j : nat) (ds : jsstring) :
  strip_leading_zeros (repeat 48%N j ++ ds) = strip_leading_zeros ds.
Proof. induction j as [|j IH]; [reflexivity|]. cbn. exact IH. Qed.

Lemma strip_trailing_zeros_spec (ds : jsstring) :
  ds = strip_trailing_zeros ds
         ++ repeat 48%N (List.length ds - List.length (strip_trailing_zeros ds))
  /\ (List.length (strip_trailing_zeros ds) <= List.length ds)%nat
  /\ hd_error (rev (strip_trailing_zeros ds)) <> Some 48%N.
Proof.
  unfold strip_trailing_zeros.
  destruct (strip_leading_zeros_spec (rev ds)) as (H1 & H2 & H3).
  rewrite length_rev in *. rewrite rev_involutive.
  split; [|split; [exact H2 | exact H3]].
  rewrite <- (rev_involutive ds) at 1. rewrite H1 at 1.
  rewrite rev_app_distr. f_equal. rewrite rev_repeat. reflexivity.
Qed.

Lemma strip_trailing_zeros_digits (ds : jsstring) :
  forallb is_digit ds = true -> forallb is_digit (strip_trailing_zeros ds) = true.
Proof.
  intro H. unfold strip_trailing_zeros.
  rewrite forallb_forall in *. intros x Hx. apply in_rev in Hx.
  assert (K : forallb is_digit (strip_leading_zeros (rev ds)) = true).
  { apply strip_leading_zeros_digits. apply forallb_forall.
    intros y Hy. apply H. now apply in_rev. }
  rewrite forallb_forall in K. now apply K.
Qed.

Lemma strip_trailing_zeros_app (D : jsstring) (j : nat) :
  hd_error (rev D) <> Some 48%N ->
  strip_trailing_zeros (D ++ repeat 48%N j) = D.
Proof.
  intro H. unfold strip_trailing_zeros.
  rewrite rev_app_distr, rev_repeat, strip_leading_zeros_zeros.
  rewrite strip_leading_zeros_id by exact H. apply rev_involutive.
Qed.

Lemma strip_trailing_head (c : code_unit) (r : jsstring) :
  c <> 48%N -> exists r', strip_trailing_zeros (c :: r) = c :: r'.
Proof.
  intro Hc.
  destruct (strip_trailing_zeros_spec (c :: r)) as (H1 & _ & _).
  destruct (strip_trailing_zeros (c :: r)) as [|c' r'] eqn:E.
  - cbn [app] in H1. exfalso.
    assert (In c (repeat 48%N (List.length (c :: r) - List.length (@nil code_unit)))).
    { rewrite <- H1. now left. }
    apply repeat_spec in H. congruence.
  - cbn [app] in H1. injection H1 as -> _. now exists r'.
Qed.

Lemma decimal_of_spec (s t : Z) (D : jsstring) (t' : Z) :
  0 < s -> decimal_of s t = (D, t') ->
  clean_digits D /\ t <= t' /\ digits_value D * 10 ^ (t' - t) = s.
Proof.
  intros Hs. unfold decimal_of. intros [= <- <-].
  set (ds := N_toString (Z.to_N s)).
  destruct (strip_trailing_zeros_spec ds) as (H1 & H2 & H3).
  assert (Hd : forallb is_digit ds = true) by apply N_toString_digits.
  assert (Hv : digits_value ds = s).
  { unfold ds. rewrite digits_value_N_toString. lia. }
  assert (Hh : exists c r, ds = c :: r /\ c <> 48%N).
  { pose proof (N_toString_canonical (Z.to_N s)) as Hc. fold ds in Hc.
    unfold canonical_numeral in Hc. destruct ds as [|c r]; [discriminate|].
    exists c, r. split; [reflexivity|]. intros ->.
    apply andb_true_iff in Hc as [_ Hc]. cbn in Hc.
    destruct r; [|discriminate]. cbn in Hv. lia. }
  split; [|split].
  - split; [now apply strip_trailing_zeros_digits|]. split; [|exact H3].
    destruct Hh as (c & r & E & Hc). rewrite E.
    destruct (strip_trailing_head r Hc) as (r' & ->). now exists c, r'.
  - lia.
  - replace (t + Z.of_nat (List.length ds - List.length (strip_trailing_zeros ds)) - t)
      with (Z.of_nat (List.length ds - List.length (strip_trailing_zeros ds))) by lia.
    rewrite <- digits_value_zeros_r, <- H1. exact Hv.
Qed.

Lemma round_ratio_zero (q : Z) : 0 < q -> round_ratio 0 q = Some (0, -1074).
Proof.
  intro Hq. unfold round_ratio. rewrite Z.mul_0_l, Z.div_0_l by lia.
  change (Z.max (Z.log2 0 - 52) 0) with 0. change (2 ^ 0) with 1.
  rewrite Z.mul_1_r. unfold div_round_even.
  rewrite Z.div_0_l, Z.mod_0_l by lia. change (2 * 0) with 0.
  destruct (Z.compare_spec 0 q); try lia. reflexivity.
Qed.

Lemma round_decimal_nil (t : Z) : round_decimal [] t = Some (0, -1074).
Proof.
  unfold round_decimal, scale10. change (digits_value []) with 0.
  destruct (Z.leb_spec 0 t).
  - rewrite Z.mul_0_l. now apply round_ratio_zero.
  - apply round_ratio_zero. rewrite Z.mul_1_l. apply Z.pow_pos_nonneg; lia.
Qed.

Lemma decimal_of_nonpositive (s t : Z) : s <= 0 -> fst (decimal_of s t) = [].
Proof.
  intro H. unfold decimal_of. cbn [fst].
  replace (Z.to_N s) with 0%N by lia. reflexivity.
Qed.

Lemma rounds_to_clean_digits (m e s t : Z) :
  0 < m -> rounds_to m e (decimal_of s t) = true ->
  clean_digits (fst (decimal_of s t))
  /\ round_decimal (fst (decimal_of s t)) (snd (decimal_of s t)) = Some (m, e).
Proof.
  intros Hm H. unfold rounds_to in H.
  destruct (round_decimal (fst (decimal_of s t)) (snd (decimal_of s t)))
    as [[m' e']|] eqn:E; [|discriminate].
  apply andb_true_iff in H as [H1 H2].
  apply Z.eqb_eq in H1, H2. subst m' e'. split; [|reflexivity].
  destruct (Z.ltb_spec 0 s) as [Hs|Hs].
  - destruct (decimal_of s t) as [D t'] eqn:Ed.
    now destruct (decimal_of_spec Hs Ed) as [Hc _].
  - rewrite (decimal_of_nonpositive t Hs), round_decimal_nil in E.
    injection E as E _. lia.
Qed.

Lemma candidate_digits_good (m e p q n k : Z) (c : jsstring * Z) :
  0 < m -> candidate_digits m e p q n k = Some c -> good_decimal m e c.
Proof.
  intros Hm. unfold candidate_digits.
  destruct (scale10 p q (k - n)) as [P Q].
  destruct (P mod Q =? 0).
  - destruct (rounds_to m e (decimal_of (P / Q) (n - k))) eqn:E; [|discriminate].
    intros [= <-]. now apply rounds_to_clean_digits.
  - destruct (rounds_to m e (decimal_of (P / Q) (n - k))) eqn:E1,
             (rounds_to m e (decimal_of (P / Q + 1) (n - k))) eqn:E2;
      try discriminate.
    + destruct (2 * (P mod Q) ?= Q); [destruct (Z.even (P / Q))| |];
        intros [= <-]; now apply rounds_to_clean_digits.
    + intros [= <-]. now apply rounds_to_clean_digits.
    + intros [= <-]. now apply rounds_to_clean_digits.
Qed.

Lemma search_digits_good (fuel : nat) (m e p q n k : Z) (c : jsstring * Z) :
  0 < m -> search_digits fuel m e p q n k = Some c -> good_decimal m e c.
Proof.
  intro Hm. revert k. induction fuel as [|fuel IH]; intro k; [discriminate|].
  cbn [search_digits]. destruct (candidate_digits m e p q n k) as [c'|] eqn:E.
  - intros [= <-]. now apply (candidate_digits_good _ _ _ _ _ Hm E).
  - apply IH.
Qed.

Lemma pow10_split (k : Z) : 0 <= k -> 10 ^ k = 2 ^ k * 5 ^ k.
Proof. intro H. change 10 with (2 * 5). now apply Z.pow_mul_l. Qed.

Lemma exact_decimal_good (m e : Z) :
  double_canonical m e = true -> 0 < m -> good_decimal m e (exact_decimal m e).
Proof.
  intros Hc Hm. unfold exact_decimal, good_decimal.
  assert (He : -1074 <= e) by (destruct (double_canonical_cases _ _ Hc); lia).
  destruct (Z.leb_spec 0 e) as [H0|H0].
  - destruct (decimal_of (m * 2 ^ e) 0) as [D t] eqn:Ed. cbn [fst snd].
    assert (Hpos : 0 < m * 2 ^ e).
    { apply Z.mul_pos_pos; [lia | apply Z.pow_pos_nonneg; lia]. }
    destruct (decimal_of_spec Hpos Ed) as (Hcl & Ht & Hv).
    split; [exact Hcl|].
    unfold round_decimal, scale10.
    destruct (Z.leb_spec 0 t); [|lia].
    apply round_ratio_exact; try assumption; try lia.
    rewrite Z.sub_0_r in Hv. rewrite Hv, Z.pow_add_r by lia. ring.
  - destruct (decimal_of (m * 5 ^ (- e)) e) as [D t] eqn:Ed. cbn [fst snd].
    assert (H5 : 0 < 5 ^ (- e)) by (apply Z.pow_pos_nonneg; lia).
    assert (H2 : 0 < 2 ^ (- e)) by (apply Z.pow_pos_nonneg; lia).
    assert (Hpos : 0 < m * 5 ^ (- e)) by (apply Z.mul_pos_pos; lia).
    destruct (decimal_of_spec Hpos Ed) as (Hcl & Ht & Hv).
    split; [exact Hcl|].
    assert (E1074 : 2 ^ 1074 = 2 ^ (- e) * 2 ^ (e + 1074)).
    { rewrite <- Z.pow_add_r by lia. f_equal. lia. }
    unfold round_decimal, scale10.
    destruct (Z.leb_spec 0 t) as [Ht0|Ht0].
    + apply round_ratio_exact; try assumption; try lia.
      replace (t - e) with (t + - e) in Hv by lia.
      rewrite Z.pow_add_r, (pow10_split (k := - e)) in Hv by lia.
      assert (K : digits_value D * 10 ^ t * 2 ^ (- e) = m).
      { apply (Z.mul_reg_r _ _ (5 ^ (- e))); [lia|]. rewrite <- Hv. ring. }
      rewrite E1074, <- K. ring.
    + rewrite Z.mul_1_l.
      apply round_ratio_exact; try assumption;
        [apply Z.pow_pos_nonneg; lia|].
      assert (H10 : 0 < 10 ^ (t - e)) by (apply Z.pow_pos_nonneg; lia).
      apply (Z.mul_reg_r _ _ (10 ^ (t - e))); [lia|].
      assert (Ee : 10 ^ (- e) = 10 ^ (- t) * 10 ^ (t - e)).
      { rewrite <- Z.pow_add_r by lia. f_equal. lia. }
      transitivity (m * 5 ^ (- e) * 2 ^ 1074).
      { rewrite <- Hv. ring. }
      rewrite E1074.
      transitivity (m * 2 ^ (e + 1074) * (2 ^ (- e) * 5 ^ (- e))); [ring|].
      rewrite <- pow10_split by lia. rewrite Ee. ring.
Qed.

Lemma shortest_digits_good (m e : Z) :
  double_canonical m e = true -> 0 < m -> good_decimal m e (shortest_digits m e).
Proof.
  intros Hc Hm. unfold shortest_digits.
  destruct (if 0 <=? e then (m * 2 ^ e, 1) else (m, 2 ^ (- e))) as [p q].
  destruct (search_digits 17 m e p q (decimal_exponent p q) 1) as [c|] eqn:E.
  - now apply (search_digits_good _ _ _ _ _ _ Hm E).
  - now apply exact_decimal_good.
Qed.

(** ** Reading a numeral back *)

Lemma take_digits_app (ds rest : jsstring) :
  forallb is_digit ds = true -> ends_digits rest = true ->
  take_digits (ds ++ rest) = (ds, rest).
Proof.
  intros Hd Hr. induction ds as [|c r IH]; cbn [app].
  - destruct rest as [|c rest]; [reflexivity|].
    cbn in Hr. apply negb_true_iff in Hr. cbn. now rewrite Hr.
  - cbn in Hd. apply andb_true_iff in Hd as [Hc Hd].
    cbn [take_digits]. rewrite Hc, (IH Hd). reflexivity.
Qed.

Lemma digit_not (c x : code_unit) :
  is_digit c = true -> (x < 48 \/ 57 < x)%N -> (c =? x)%N = false.
Proof.
  unfold is_digit. intros H Hx. apply andb_true_iff in H as [A B].
  apply N.leb_le in A, B. apply N.eqb_neq. lia.
Qed.

Lemma not_digit (x : code_unit) : (x < 48 \/ 57 < x)%N -> is_digit x = false.
Proof.
  intro H. unfold is_digit. apply andb_false_iff.
  destruct H; [left; apply N.leb_gt | right; apply N.leb_gt]; assumption.
Qed.

Lemma parse_exponent_text (ex : option Z) (rest : jsstring) :
  ends_number rest = true ->
  parse_exponent (exponent_text ex ++ rest)
  = Some (match ex with Some x => x | None => 0 end, rest).
Proof.
  intro Hr. pose proof Hr as Hr'.
  apply andb_true_iff in Hr' as [Hd Hc].
  destruct ex as [x|]; cbn [exponent_text].
  - assert (Ht : take_digits (N_toString (Z.to_N (Z.abs x)) ++ rest)
                 = (N_toString (Z.to_N (Z.abs x)), rest))
      by (apply take_digits_app; [apply N_toString_digits | exact Hd]).
    destruct (N_toString_head (Z.to_N (Z.abs x))) as (c & r & E & _).
    assert (Hv : digits_value (N_toString (Z.to_N (Z.abs x))) = Z.abs x)
      by (rewrite digits_value_N_toString; lia).
    destruct (Z.leb_spec 0 x) as [H0|H0];
      cbn [lit List.map list_ascii_of_string app parse_exponent];
      unfold parse_exponent;
      cbn [lit List.map list_ascii_of_string app];
      change (N_of_ascii "e") with 101%N;
      change (N_of_ascii "+") with 43%N; change (N_of_ascii "-") with 45%N;
      cbn [N.eqb Pos.eqb orb]; rewrite Ht, Hv; rewrite E; f_equal; f_equal; lia.
  - cbn [app]. unfold parse_exponent.
    destruct rest as [|c rest]; [reflexivity|].
    apply negb_true_iff in Hc. cbn in Hc.
    apply orb_false_iff in Hc as [Hc H3]. apply orb_false_iff in Hc as [H1 H2].
    now rewrite H2, H3.
Qed.

Lemma exponent_text_head (ex : option Z) (rest : jsstring) :
  ends_number rest = true ->
  ends_digits (exponent_text ex ++ rest) = true
  /\ match exponent_text ex ++ rest with
     | c :: _ => (c =? 46)%N = false
     | [] => True
     end.
Proof.
  intro Hr. destruct ex as [x|]; cbn [exponent_text].
  - split; reflexivity.
  - cbn [app]. apply andb_true_iff in Hr as [Hd Hc]. split; [exact Hd|].
    destruct rest as [|c rest]; [exact I|].
    apply negb_true_iff in Hc. cbn in Hc.
    apply orb_false_iff in Hc as [Hc _]. now apply orb_false_iff in Hc as [Hc _].
Qed.

Lemma parse_fraction_text (frac : option jsstring) (tail : jsstring) :
  match frac with
  | Some fs => fs <> [] /\ forallb is_digit fs = true
  | None => True
  end ->
  ends_digits tail = true ->
  match tail with c :: _ => (c =? 46)%N = false | [] => True end ->
  parse_fraction (fraction_text frac ++ tail)
  = Some (match frac with Some fs => fs | None => [] end, tail).
Proof.
  intros Hf Hd Hdot. destruct frac as [fs|]; cbn [fraction_text].
  - destruct Hf as [Hne Hfs].
    cbn [lit List.map list_ascii_of_string app parse_fraction].
    change (N_of_ascii ".") with 46%N. cbn [N.eqb Pos.eqb].
    rewrite (@take_digits_app _ _ Hfs Hd).
    destruct fs; [now destruct Hne | reflexivity].
  - cbn [app]. unfold parse_fraction.
    destruct tail as [|c tail]; [reflexivity|]. now rewrite Hdot.
Qed.

Lemma fraction_text_head (frac : option jsstring) (tail : jsstring) :
  ends_digits tail = true -> ends_digits (fraction_text frac ++ tail) = true.
Proof. intro H. destruct frac; [reflexivity | exact H]. Qed.

Lemma canonical_not_minus (int : jsstring) :
  canonical_numeral int = true ->
  exists c r, int = c :: r /\ (c =? 45)%N = false
              /\ forallb is_digit int = true.
Proof.
  unfold canonical_numeral. destruct int as [|c r]; [discriminate|].
  intro H. apply andb_true_iff in H as [H _].
  exists c, r. split; [reflexivity|]. split; [|exact H].
  cbn in H. apply andb_true_iff in H as [H _].
  apply (@digit_not c 45%N H). lia.
Qed.

Lemma parse_number_text (negative : bool) (int : jsstring)
    (frac : option jsstring) (ex : option Z) (rest : jsstring) :
  canonical_numeral int = true ->
  match frac with
  | Some fs => fs <> [] /\ forallb is_digit fs = true
  | None => True
  end ->
  ends_number rest = true ->
  parse_number (sign_text negative ++ int ++ fraction_text frac
               ++ exponent_text ex ++ rest)
  = Some (number_of negative int
            (match frac with Some fs => fs | None => [] end)
            (match ex with Some x => x | None => 0 end), rest).
Proof.
  intros Hi Hf Hr.
  destruct (@canonical_not_minus int Hi) as (c & r & E & Hc & Hd).
  destruct (@exponent_text_head ex rest Hr) as [He1 He2].
  assert (Ht : take_digits (int ++ fraction_text frac ++ exponent_text ex ++ rest)
               = (int, fraction_text frac ++ exponent_text ex ++ rest)).
  { apply take_digits_app; [exact Hd|]. now apply fraction_text_head. }
  assert (K : forall s1,
             s1 = int ++ fraction_text frac ++ exponent_text ex ++ rest ->
             (let (ds, r1) := take_digits s1 in
              if canonical_numeral ds then
                match parse_fraction r1 with
                | None => None
                | Some (fs, r2) =>
                    match parse_exponent r2 with
                    | None => None
                    | Some (x, r3) => Some (number_of negative ds fs x, r3)
                    end
                end
              else None)
             = Some (number_of negative int
                       (match frac with Some fs => fs | None => [] end)
                       (match ex with Some x => x | None => 0 end), rest)).
  { intros s1 ->. rewrite Ht, Hi.
    rewrite (@parse_fraction_text frac _ Hf He1 He2).
    now rewrite (@parse_exponent_text ex rest Hr). }
  unfold parse_number. destruct negative; cbn [sign_text].
  - cbn [lit List.map list_ascii_of_string app].
    change (N_of_ascii "-") with 45%N. cbn [N.eqb Pos.eqb].
    now apply K.
  - cbn [app]. rewrite E at 1. cbn [app]. rewrite Hc.
    apply K. now rewrite E.
Qed.

Lemma clean_digits_nonempty (D : jsstring) : clean_digits D -> D <> [].
Proof. intros (_ & (c & r & -> & _) & _). discriminate. Qed.

Lemma number_of_clean_digits (negative : bool) (int frac : jsstring) (x : Z)
    (D : jsstring) (j : nat) (m e : Z) :
  clean_digits D ->
  strip_leading_zeros (int ++ frac) = D ++ repeat 48%N j ->
  round_decimal D (x - Z.of_nat (List.length frac) + Z.of_nat j) = Some (m, e) ->
  number_of negative int frac x = json_of_double negative m e.
Proof.
  intros Hc Hs Hr. unfold number_of. rewrite Hs.
  destruct Hc as (Hd & Hh & Hl).
  rewrite (strip_trailing_zeros_app D j Hl).
  rewrite length_app, repeat_length.
  replace (List.length D + j - List.length D)%nat with j by lia.
  rewrite Hr. destruct Hh as (c & r & -> & _). reflexivity.
Qed.

Lemma canonical_numeral_head (c : code_unit) (r : jsstring) :
  c <> 48%N -> forallb is_digit (c :: r) = true ->
  canonical_numeral (c :: r) = true.
Proof.
  intros Hc Hd. unfold canonical_numeral. rewrite Hd.
  apply N.eqb_neq in Hc. now rewrite Hc.
Qed.

Lemma zeros_digits (j : nat) : forallb is_digit (repeat 48%N j) = true.
Proof. induction j; [reflexivity | exact IHj]. Qed.

Lemma forallb_firstn_skipn (A : Type) (f : A -> bool) (n : nat) (l : list A) :
  forallb f l = true ->
  forallb f (firstn n l) = true /\ forallb f (skipn n l) = true.
Proof.
  intro H. rewrite <- (firstn_skipn n l), forallb_app in H.
  now apply andb_true_iff in H.
Qed.

Lemma forallb_firstn (A : Type) (f : A -> bool) (n : nat) (l : list A) :
  forallb f l = true -> forallb f (firstn n l) = true.
Proof. intro H. now apply forallb_firstn_skipn. Qed.

Lemma forallb_skipn (A : Type) (f : A -> bool) (n : nat) (l : list A) :
  forallb f l = true -> forallb f (skipn n l) = true.
Proof. intro H. now apply forallb_firstn_skipn. Qed.

Lemma format_decimal_parts (D : jsstring) (n : Z) :
  format_decimal D n
  = (let '(int, frac, ex) := format_parts D n in
     int ++ fraction_text frac ++ exponent_text ex).
Proof.
  unfold format_decimal, format_parts.
  destruct ((Z.of_nat (List.length D) <=? n) && (n <=? 21)).
  { cbn [fraction_text exponent_text]. now rewrite !List.app_nil_r. }
  destruct ((0 <? n) && (n <=? 21)).
  { cbn [fraction_text exponent_text]. now rewrite !List.app_nil_r. }
  destruct ((-6 <? n) && (n <=? 0)).
  { cbn [fraction_text exponent_text]. rewrite !List.app_nil_r.
    reflexivity. }
  destruct D as [|d [|d' r]]; [reflexivity | reflexivity |].
  cbn [fraction_text exponent_text]. rewrite <- !app_assoc. reflexivity.
Qed.

Lemma format_parts_ok (negative : bool) (D : jsstring) (n m e : Z) :
  clean_digits D ->
  round_decimal D (n - Z.of_nat (List.length D)) = Some (m, e) ->
  let '(int, frac, ex) := format_parts D n in
  canonical_numeral int = true
  /\ match frac with
     | Some fs => fs <> [] /\ forallb is_digit fs = true
     | None => True
     end
  /\ number_of negative int
       (match frac with Some fs => fs | None => [] end)
       (match ex with Some x => x | None => 0 end)
     = json_of_double negative m e.
Proof.
  intros Hc Hr. pose proof Hc as (Hd & (c & r & E & Hc0) & Hl).
  unfold format_parts.
  destruct (Z.leb_spec (Z.of_nat (List.length D)) n) as [H1|H1];
    [destruct (Z.leb_spec n 21) as [H2|H2]|]; cbn [andb].
  - (* digits, then zeros *)
    split; [|split; [exact I|]].
    + rewrite E. cbn [app]. apply canonical_numeral_head; [exact Hc0|].
      change (c :: r ++ zeros (n - Z.of_nat (List.length (c :: r))))
        with ((c :: r) ++ zeros (n - Z.of_nat (List.length (c :: r)))).
      rewrite forallb_app, <- E, Hd. apply zeros_digits.
    + apply (@number_of_clean_digits negative _ [] 0 D
               (Z.to_nat (n - Z.of_nat (List.length D))) m e Hc).
      * rewrite List.app_nil_r. apply strip_leading_zeros_id.
        rewrite E. cbn. intros [= K]. now apply Hc0.
      * cbn [List.length]. rewrite Z2Nat.id by lia.
        replace (0 - Z.of_nat 0 + (n - Z.of_nat (List.length D)))
          with (n - Z.of_nat (List.length D)) by lia.
        exact Hr.
  - (* n > 21: exponent *)
    destruct (Z.ltb_spec 0 n) as [H3|H3]; [|lia].
    destruct (Z.leb_spec n 21) as [H4|H4]; [lia|]. cbn [andb].
    destruct (Z.ltb_spec (-6) n) as [H5|H5]; [|lia].
    destruct (Z.leb_spec n 0) as [H6|H6]; [lia|]. cbn [andb].
    rewrite E in *. destruct r as [|d' r'].
    + split; [now apply canonical_numeral_head|]. split; [exact I|].
      apply (@number_of_clean_digits negative _ [] (n - 1) [c] 0%nat m e Hc).
      * apply strip_leading_zeros_id. cbn. intros [= K]. now apply Hc0.
      * cbn [List.length] in Hr |- *.
        replace (n - 1 - Z.of_nat 0 + Z.of_nat 0) with (n - Z.of_nat 1) by lia.
        exact Hr.
    + split; [apply canonical_numeral_head; [exact Hc0|]|].
      { cbn in Hd |- *. apply andb_true_iff in Hd as [-> _]. reflexivity. }
      split.
      { split; [discriminate|]. cbn in Hd.
        now apply andb_true_iff in Hd as [_ Hd]. }
      apply (@number_of_clean_digits negative _ _ (n - 1) (c :: d' :: r') 0%nat m e Hc).
      * cbn [app]. rewrite List.app_nil_r. apply strip_leading_zeros_id.
        cbn. intros [= K]. now apply Hc0.
      * cbn [List.length] in Hr |- *.
        replace (n - 1 - Z.of_nat (S (List.length r')) + Z.of_nat 0)
          with (n - Z.of_nat (S (S (List.length r')))) by lia.
        exact Hr.
  - (* n < k *)
    cbn [andb].
    destruct (Z.ltb_spec 0 n) as [H3|H3];
      [destruct (Z.leb_spec n 21) as [H4|H4]|]; cbn [andb].
    + (* a decimal point inside the digits *)
      assert (Hn : (0 < Z.to_nat n < List.length D)%nat) by lia.
      split; [|split; [split|]].
      * rewrite E. destruct (Z.to_nat n) as [|n'] eqn:En; [lia|].
        cbn [firstn]. apply canonical_numeral_head; [exact Hc0|].
        change (c :: firstn n' r) with (firstn (S n') (c :: r)).
        apply forallb_firstn. now rewrite <- E.
      * intro K. apply (f_equal (@List.length _)) in K.
        rewrite length_skipn in K. cbn in K. lia.
      * now apply forallb_skipn.
      * apply (@number_of_clean_digits negative _ _ 0 D 0%nat m e Hc).
        -- rewrite firstn_skipn, List.app_nil_r. apply strip_leading_zeros_id.
           rewrite E. cbn. intros [= K]. now apply Hc0.
        -- rewrite length_skipn.
           replace (0 - Z.of_nat (List.length D - Z.to_nat n) + Z.of_nat 0)
             with (n - Z.of_nat (List.length D)) by lia.
           exact Hr.
    + (* n > 21, longer than that: exponent *)
      destruct (Z.ltb_spec (-6) n) as [H5|H5]; [|lia].
      destruct (Z.leb_spec n 0) as [H6|H6]; [lia|]. cbn [andb].
      rewrite E in *. destruct r as [|d' r'].
      { cbn [List.length] in H1. lia. }
      split; [apply canonical_numeral_head; [exact Hc0|]|].
      { cbn in Hd |- *. apply andb_true_iff in Hd as [-> _]. reflexivity. }
      split.
      { split; [discriminate|]. cbn in Hd.
        now apply andb_true_iff in Hd as [_ Hd]. }
      apply (@number_of_clean_digits negative _ _ (n - 1) (c :: d' :: r') 0%nat m e Hc).
      * cbn [app]. rewrite List.app_nil_r. apply strip_leading_zeros_id.
        cbn. intros [= K]. now apply Hc0.
      * cbn [List.length] in Hr |- *.
        replace (n - 1 - Z.of_nat (S (List.length r')) + Z.of_nat 0)
          with (n - Z.of_nat (S (S (List.length r')))) by lia.
        exact Hr.
    + (* n <= 0 *)
      destruct (Z.ltb_spec (-6) n) as [H5|H5];
        [destruct (Z.leb_spec n 0) as [H6|H6]; [|lia]|]; cbn [andb].
      * (* zeros after the point *)
        split; [reflexivity|]. split.
        { split.
          - rewrite E. unfold zeros. destruct (repeat 48%N (Z.to_nat (- n)));
              discriminate.
          - unfold zeros. rewrite forallb_app, zeros_digits. exact Hd. }
        apply (@number_of_clean_digits negative _ _ 0 D 0%nat m e Hc).
        -- change (lit "0" ++ zeros (- n) ++ D)
             with (repeat 48%N (S (Z.to_nat (- n))) ++ D).
           rewrite strip_leading_zeros_zeros, List.app_nil_r.
           apply strip_leading_zeros_id.
           rewrite E. cbn. intros [= K]. now apply Hc0.
        -- unfold zeros. rewrite length_app, repeat_length.
           replace (0 - Z.of_nat (Z.to_nat (- n) + List.length D) + Z.of_nat 0)
             with (n - Z.of_nat (List.length D)) by lia.
           exact Hr.
      * (* n <= -6: exponent *)
        rewrite E in *. destruct r as [|d' r'].
        -- split; [now apply canonical_numeral_head|]. split; [exact I|].
           apply (@number_of_clean_digits negative _ [] (n - 1) [c] 0%nat m e Hc).
           ++ apply strip_leading_zeros_id. cbn. intros [= K]. now apply Hc0.
           ++ cbn [List.length] in Hr |- *.
              replace (n - 1 - Z.of_nat 0 + Z.of_nat 0) with (n - Z.of_nat 1)
                by lia.
              exact Hr.
        -- split; [apply canonical_numeral_head; [exact Hc0|]|].
           { cbn in Hd |- *. apply andb_true_iff in Hd as [-> _]. reflexivity. }
           split.
           { split; [discriminate|]. cbn in Hd.
             now apply andb_true_iff in Hd as [_ Hd]. }
           apply (@number_of_clean_digits negative _ _ (n - 1) (c :: d' :: r') 0%nat m e Hc).
           ++ cbn [app]. rewrite List.app_nil_r. apply strip_leading_zeros_id.
              cbn. intros [= K]. now apply Hc0.
           ++ cbn [List.length] in Hr |- *.
              replace (n - 1 - Z.of_nat (S (List.length r')) + Z.of_nat 0)
                with (n - Z.of_nat (S (S (List.length r')))) by lia.
              exact Hr.
Qed.

Lemma parse_format (negative : bool) (D : jsstring) (n m e : Z)
    (rest : jsstring) :
  clean_digits D ->
  round_decimal D (n - Z.of_nat (List.length D)) = Some (m, e) ->
  ends_number rest = true ->
  parse_number (sign_text negative ++ format_decimal D n ++ rest)
  = Some (json_of_double negative m e, rest).
Proof.
  intros Hc Hr Hrest.
  pose proof (@format_parts_ok negative D n m e Hc Hr) as H.
  rewrite format_decimal_parts.
  destruct (format_parts D n) as [[int frac] ex].
  destruct H as (H1 & H2 & H3).
  rewrite <- !app_assoc, <- H3.
  now apply parse_number_text.
Qed.

(** ** The numerals [JSON.stringify] writes *)

Lemma number_of_integer (negative : bool) (n : N) :
  (0 < n)%N -> is_safe_integer (Z.of_N n) = true ->
  number_of negative (N_toString n) [] 0
  = JNum (if negative then - Z.of_N n else Z.of_N n).
Proof.
  intros Hn Hs.
  assert (Hlt : 0 < Z.of_N n < 2 ^ 53).
  { unfold is_safe_integer, MAX_SAFE_INTEGER in Hs.
    apply andb_true_iff in Hs as [_ Hs]. apply Z.leb_le in Hs.
    change (2 ^ 53) with 9007199254740992. lia. }
  set (z := Z.of_N n) in *.
  set (L := Z.log2 z).
  assert (HL : 0 <= L < 53).
  { split; [apply Z.log2_nonneg|]. apply Z.log2_lt_pow2; lia. }
  pose proof (Z.log2_spec z (proj1 Hlt)) as Hlog. fold L in Hlog.
  assert (Hp : 0 < 2 ^ (52 - L)) by (apply Z.pow_pos_nonneg; lia).
  assert (E52 : 2 ^ 52 = 2 ^ L * 2 ^ (52 - L)).
  { rewrite <- Z.pow_add_r by lia. f_equal. lia. }
  assert (E53 : 2 ^ 53 = 2 ^ Z.succ L * 2 ^ (52 - L)).
  { rewrite <- Z.pow_add_r by lia. f_equal. lia. }
  destruct (decimal_of z 0) as [D t] eqn:Ed.
  destruct (decimal_of_spec (proj1 Hlt) Ed) as (Hc & Ht & Hv).
  rewrite Z.sub_0_r in Hv.
  assert (Hr : round_decimal D t = Some (z * 2 ^ (52 - L), L - 52)).
  { unfold round_decimal, scale10. destruct (Z.leb_spec 0 t); [|lia].
    rewrite Hv. apply round_ratio_exact.
    - unfold double_canonical. apply orb_true_iff. left.
      repeat (apply andb_true_iff; split);
        [apply Z.leb_le | apply Z.ltb_lt | apply Z.leb_le | apply Z.leb_le];
        try lia.
      + rewrite E52. apply Z.mul_le_mono_nonneg_r; lia.
      + rewrite E53. apply Z.mul_lt_mono_pos_r; lia.
    - apply Z.mul_pos_pos; lia.
    - lia.
    - rewrite Z.mul_1_r, <- Z.mul_assoc, <- Z.pow_add_r by lia.
      f_equal. f_equal. lia. }
  unfold decimal_of in Ed. unfold z in Ed. rewrite N2Z.id in Ed.
  injection Ed as ED Et.
  unfold number_of. rewrite List.app_nil_r.
  assert (Hh : hd_error (N_toString n) <> Some 48%N).
  { pose proof (N_toString_canonical n) as Hcan.
    unfold canonical_numeral in Hcan.
    destruct (N_toString n) as [|c r] eqn:E; [discriminate|].
    cbn. intros [= ->]. apply andb_true_iff in Hcan as [_ Hcan]. cbn in Hcan.
    destruct r; [|discriminate].
    pose proof (digits_value_N_toString n) as K. rewrite E in K. cbn in K. lia. }
  rewrite (strip_leading_zeros_id _ Hh), ED. rewrite ED in Et.
  change (Z.of_nat (List.length (@nil code_unit))) with 0.
  rewrite Z.sub_0_r, Z.add_0_l, Et, Hr.
  destruct Hc as (_ & (c & r & -> & _) & _).
  unfold json_of_double.
  assert (Hm : (z * 2 ^ (52 - L) =? 0) = false) by (apply Z.eqb_neq; nia).
  rewrite Hm. unfold is_integral.
  replace (- (L - 52)) with (52 - L) by lia.
  rewrite Z.mod_mul, Z.div_mul by lia.
  assert (Hle : (L - 52 <=? 0) = true) by (apply Z.leb_le; lia).
  now rewrite Hle.
Qed.

Lemma Number_toString_safe (z : Z) :
  is_safe_integer z = true -> Number_toString z = integer_toString z.
Proof. intro H. unfold Number_toString. now rewrite H. Qed.

Lemma parse_Number_toString (z : Z) (rest : jsstring) :
  is_safe_integer z = true -> ends_number rest = true ->
  parse_number (Number_toString z ++ rest) = Some (JNum z, rest).
Proof.
  intros Hs Hr. rewrite (Number_toString_safe _ Hs).
  destruct z as [|p|p]; cbn [integer_toString].
  - apply (@parse_number_text false (lit "0") None None rest eq_refl I Hr).
  - change (JNum (Z.pos p)) with (JNum (Z.of_N (N.pos p))).
    rewrite <- (@number_of_integer false (N.pos p) eq_refl Hs).
    apply (@parse_number_text false (N_toString (N.pos p)) None None rest
             (N_toString_canonical _) I Hr).
  - assert (Hs' : is_safe_integer (Z.of_N (N.pos p)) = true).
    { unfold is_safe_integer in *. cbn [Z.of_N].
      apply andb_true_iff in Hs as [A B]. apply Z.leb_le in A, B.
      apply andb_true_iff. split; apply Z.leb_le; lia. }
    change (JNum (Z.neg p)) with (JNum (- Z.of_N (N.pos p))).
    rewrite <- (@number_of_integer true (N.pos p) eq_refl Hs').
    rewrite <- app_assoc.
    apply (@parse_number_text true (N_toString (N.pos p)) None None rest
             (N_toString_canonical _) I Hr).
Qed.

Lemma parse_Double_toString (negative : bool) (m e : Z) (rest : jsstring) :
  double_canonical m e = true -> 0 < m -> ends_number rest = true ->
  parse_number (Double_toString (Finite negative m e) ++ rest)
  = Some (json_of_double negative m e, rest).
Proof.
  intros Hc Hm Hr. cbn [Double_toString].
  assert (Hz : (m =? 0) = false) by (apply Z.eqb_neq; lia). rewrite Hz.
  destruct (@shortest_digits_good m e Hc Hm) as [Hcl Hrd].
  destruct (shortest_digits m e) as [D t]. cbn [fst snd] in *.
  rewrite <- app_assoc.
  apply (@parse_format negative D (Z.of_nat (List.length D) + t) m e rest Hcl);
    [|exact Hr].
  now replace (Z.of_nat (List.length D) + t - Z.of_nat (List.length D)) with t
    by lia.
Qed.

Lemma Double_toString_head (negative : bool) (m e : Z) :
  double_canonical m e = true -> 0 < m ->
  exists c r, Double_toString (Finite negative m e) = c :: r
              /\ (is_digit c = true \/ c = 45%N).
Proof.
  intros Hc Hm. cbn [Double_toString].
  assert (Hz : (m =? 0) = false) by (apply Z.eqb_neq; lia). rewrite Hz.
  destruct negative; [eexists 45%N, _; split; [reflexivity | now right]|].
  cbn [app].
  destruct (@shortest_digits_good m e Hc Hm) as [Hcl _].
  destruct (shortest_digits m e) as [D t]. cbn [fst] in Hcl.
  rewrite format_decimal_parts.
  pose proof (@format_parts_ok false D (Z.of_nat (List.length D) + t)) as H.
  destruct Hcl as (Hd & (c & r & E & Hc0) & Hl).
  unfold format_parts.
  destruct ((Z.of_nat (List.length D) <=? Z.of_nat (List.length D) + t)
            && (Z.of_nat (List.length D) + t <=? 21)).
  { rewrite E. cbn [app]. eexists c, _. split; [reflexivity|]. left.
    rewrite E in Hd. cbn in Hd. now apply andb_true_iff in Hd as [Hd _]. }
  destruct ((0 <? Z.of_nat (List.length D) + t)
            && (Z.of_nat (List.length D) + t <=? 21)) eqn:E2.
  { apply andb_true_iff in E2 as [E2 _]. apply Z.ltb_lt in E2.
    rewrite E. destruct (Z.to_nat (Z.of_nat (List.length (c :: r)) + t))
      as [|n'] eqn:En; [rewrite <- E in En; lia|].
    cbn [firstn app]. eexists c, _. split; [reflexivity|]. left.
    rewrite E in Hd. cbn in Hd. now apply andb_true_iff in Hd as [Hd _]. }
  destruct ((-6 <? Z.of_nat (List.length D) + t)
            && (Z.of_nat (List.length D) + t <=? 0)).
  { eexists 48%N, _. split; [reflexivity | now left]. }
  rewrite E. destruct r; cbn [app]; eexists c, _; (split; [reflexivity|]);
    left; rewrite E in Hd; cbn in Hd; now apply andb_true_iff in Hd as [Hd _].
Qed.

(** ** What [parse_number] returns is a run-time value *)

Lemma div_round_even_bounds (p q : Z) :
  p / q <= div_round_even p q <= p / q + 1.
Proof.
  unfold div_round_even. destruct (2 * (p mod q) ?= q); [|lia|lia].
  destruct (Z.even (p / q)); lia.
Qed.

Lemma double_canonical_normal (m e : Z) :
  2 ^ 52 <= m < 2 ^ 53 -> -1074 <= e <= 971 -> double_canonical m e = true.
Proof.
  intros [H1 H2] [H3 H4]. unfold double_canonical.
  apply Z.leb_le in H1, H3, H4. apply Z.ltb_lt in H2.
  now rewrite H1, H2, H3, H4.
Qed.

Lemma double_canonical_subnormal (m : Z) :
  0 <= m < 2 ^ 52 -> double_canonical m (-1074) = true.
Proof.
  intros [H1 H2]. unfold double_canonical.
  apply Z.leb_le in H1. apply Z.ltb_lt in H2.
  rewrite H1, H2. apply orb_true_r.
Qed.

Lemma round_ratio_canonical (p q m e : Z) :
  0 <= p -> 0 < q -> round_ratio p q = Some (m, e) ->
  double_canonical m e = true.
Proof.
  intros Hp Hq. unfold round_ratio.
  set (P := p * 2 ^ 1074).
  assert (HP : 0 <= P).
  { apply Z.mul_nonneg_nonneg; [lia | apply Z.pow_nonneg; lia]. }
  assert (Hn : 0 <= P / q) by (apply Z.div_pos; lia).
  set (shift := Z.max (Z.log2 (P / q) - 52) 0).
  assert (Hs : 0 <= shift) by lia.
  assert (H2 : 0 < 2 ^ shift) by (apply Z.pow_pos_nonneg; lia).
  pose proof (div_round_even_bounds P (q * 2 ^ shift)) as Hb.
  set (m0 := div_round_even P (q * 2 ^ shift)) in *.
  assert (Hd : P / (q * 2 ^ shift) = P / q / 2 ^ shift)
    by (rewrite Z.div_div; lia).
  assert (Hrange : 0 <= m0 <= 2 ^ 53 /\ (0 < shift -> 2 ^ 52 <= m0)).
  { rewrite Hd in Hb.
    destruct (Z.eq_dec shift 0) as [E0|E0].
    - rewrite E0 in Hb. change (2 ^ 0) with 1 in Hb. rewrite Z.div_1_r in Hb.
      assert (P / q < 2 ^ 53).
      { destruct (Z.eq_dec (P / q) 0) as [Ez|Ez]; [rewrite Ez; reflexivity|].
        apply Z.log2_lt_pow2; lia. }
      split; [lia | lia].
    - assert (HL : Z.log2 (P / q) = shift + 52) by lia.
      assert (Hpos : 0 < P / q).
      { destruct (Z.eq_dec (P / q) 0) as [Ez|Ez]; [|lia].
        rewrite Ez in HL. change (Z.log2 0) with 0 in HL. lia. }
      pose proof (Z.log2_spec _ Hpos) as Hlog. rewrite HL in Hlog.
      assert (E52 : 2 ^ (shift + 52) = 2 ^ 52 * 2 ^ shift).
      { rewrite Z.pow_add_r by lia. ring. }
      assert (E53 : 2 ^ Z.succ (shift + 52) = 2 ^ 53 * 2 ^ shift).
      { replace (Z.succ (shift + 52)) with (53 + shift) by lia.
        rewrite Z.pow_add_r by lia. ring. }
      assert (2 ^ 52 <= P / q / 2 ^ shift).
      { apply Z.div_le_lower_bound; [lia|]. rewrite Z.mul_comm. lia. }
      assert (P / q / 2 ^ shift < 2 ^ 53).
      { apply Z.div_lt_upper_bound; [lia|]. rewrite Z.mul_comm. lia. }
      assert (0 < 2 ^ 52) by reflexivity.
      split; [lia | lia]. }
  destruct Hrange as [Hr1 Hr2].
  assert (H52 : 2 ^ 52 < 2 ^ 53) by reflexivity.
  destruct (Z.eqb_spec m0 (2 ^ 53)) as [E|E].
  - destruct (Z.leb_spec (shift + 1 - 1074) 971) as [Hle|Hle]; [|discriminate].
    intros [= <- <-]. apply double_canonical_normal; lia.
  - destruct (Z.leb_spec (shift - 1074) 971) as [Hle|Hle]; [|discriminate].
    intros [= <- <-].
    destruct (Z.leb_spec (2 ^ 52) m0) as [Hn52|Hn52].
    + apply double_canonical_normal; lia.
    + assert (shift = 0).
      { destruct (Z.eq_dec shift 0) as [E0|E0]; [exact E0|].
        assert (K : 0 < shift) by lia. specialize (Hr2 K). lia. }
      replace (shift - 1074) with (-1074) by lia.
      apply double_canonical_subnormal; lia.
Qed.

Lemma digit_step_nonneg (ds : jsstring) (acc : Z) :
  0 <= acc -> 0 <= fold_left digit_step ds acc.
Proof.
  revert acc. induction ds as [|c r IH]; intros acc H; [exact H|].
  cbn [fold_left]. apply IH. unfold digit_step. lia.
Qed.

Lemma round_decimal_canonical (D : jsstring) (t m e : Z) :
  round_decimal D t = Some (m, e) -> double_canonical m e = true.
Proof.
  unfold round_decimal, scale10.
  assert (Hv : 0 <= digits_value D)
    by (rewrite digits_value_fold; apply digit_step_nonneg; lia).
  destruct (Z.leb_spec 0 t).
  - apply round_ratio_canonical; [|lia].
    apply Z.mul_nonneg_nonneg; [lia | apply Z.pow_nonneg; lia].
  - apply round_ratio_canonical; [lia|].
    rewrite Z.mul_1_l. apply Z.pow_pos_nonneg; lia.
Qed.

Lemma json_of_double_value (negative : bool) (m e : Z) :
  double_canonical m e = true -> json_value (json_of_double negative m e) = true.
Proof.
  intro Hc. unfold json_of_double.
  destruct (Z.eqb_spec m 0) as [E|E].
  - destruct negative; reflexivity.
  - destruct (is_integral m e) eqn:Ei.
    + cbn [json_value]. unfold is_integral in Ei.
      apply andb_true_iff in Ei as [He _]. apply Z.leb_le in He.
      assert (Hp : 0 < 2 ^ (- e)) by (apply Z.pow_pos_nonneg; lia).
      assert (Hm : 0 <= m < 2 ^ 53).
      { destruct (double_canonical_cases _ _ Hc) as [[H1 _]|[H1 _]]; [lia|].
        assert (2 ^ 52 < 2 ^ 53) by reflexivity. lia. }
      assert (Hd : 0 <= m / 2 ^ (- e) <= m).
      { split; [apply Z.div_pos; lia|].
        apply Z.div_le_upper_bound; [lia|]. nia. }
      unfold is_safe_integer, MAX_SAFE_INTEGER.
      change (2 ^ 53) with 9007199254740992 in Hm.
      destruct negative; apply andb_true_iff; split; apply Z.leb_le; lia.
    + cbn [json_value double_proper]. rewrite Hc. cbn [andb].
      apply Z.eqb_neq in E. rewrite E. now rewrite Ei.
Qed.

Lemma number_of_value (negative : bool) (int frac : jsstring) (ex : Z) :
  json_value (number_of negative int frac ex) = true.
Proof.
  unfold number_of.
  destruct (strip_trailing_zeros (strip_leading_zeros (int ++ frac)))
    as [|c D] eqn:E.
  - now apply json_of_double_value.
  - destruct (round_decimal (c :: D) _) as [[m e]|] eqn:Er; [|reflexivity].
    apply json_of_double_value. now apply round_decimal_canonical in Er.
Qed.

End JSONDoubles.

(** ** Arrays are read back *)

Module JSONRoundTrip.
Import JS Spec JSFacts JSONStrings JSONNumbers JSONDoubles.

Lemma json_ind' (P : json -> Prop)
  (HNull : P JNull) (HBool : forall b, P (JBool b)) (HNum : forall z, P (JNum z))
  (HFloat : forall d, P (JFloat d)) (HStr : forall s, P (JStr s))
  (HArr : forall elems, Forall P elems -> P (JArr elems))
  (HObj : forall props, Forall (fun kv => P (snd kv)) props -> P (JObj props)) :
  forall v, P v.
Proof.
  fix IH 1. intros [ | b | z | d | s | elems | props].
  - exact HNull.
  - apply HBool.
  - apply HNum.
  - apply HFloat.
  - apply HStr.
  - apply HArr. induction elems as [|e elems IHe]; constructor; [apply IH | exact IHe].
  - apply HObj. induction props as [|[k x] props IHp]; constructor; [apply IH | exact IHp].
Qed.

Lemma Number_toString_head (z : Z) :
  is_safe_integer z = true ->
  exists c r, Number_toString z = c :: r /\ (is_digit c = true \/ c = 45%N).
Proof.
  intro Hs. rewrite (Number_toString_safe _ Hs).
  destruct z as [|p|p].
  - exists 48%N, []. split; [reflexivity | now left].
  - destruct (N_toString_head (N.pos p)) as (c & r & E & H).
    exists c, r. split; [exact E | now left].
  - eexists 45%N, _. split; [reflexivity | now right].
Qed.

Lemma digit_or_minus_cases (c : code_unit) :
  is_digit c = true \/ c = 45%N ->
  is_ws c = false /\ (c =? 123)%N = false /\ (c =? 91)%N = false
  /\ (c =? 34)%N = false /\ (c =? 116)%N = false /\ (c =? 102)%N = false
  /\ (c =? 110)%N = false /\ (c =? 93)%N = false /\ (c =? 125)%N = false.
Proof.
  intros [H| ->]; [|repeat split; reflexivity].
  unfold is_digit in H. apply andb_true_iff in H as [A B].
  apply N.leb_le in A, B. unfold is_ws.
  repeat split; repeat (apply orb_false_iff; split); apply N.eqb_neq; lia.
Qed.

Lemma writable_double (d : double) :
  double_proper d && written_as_it_is d = true ->
  exists negative m e,
    d = Finite negative m e /\ double_canonical m e = true /\ (0 < m)%Z
    /\ json_of_double negative m e = JFloat d.
Proof.
  intro H. apply andb_true_iff in H as [H1 H2].
  destruct d as [negative m e|negative]; [|discriminate].
  exists negative, m, e. cbn in H1, H2.
  apply andb_true_iff in H1 as [Hc Hi]. apply negb_true_iff in H2.
  rewrite H2 in Hi. split; [reflexivity|]. split; [exact Hc|]. split.
  - apply Z.eqb_neq in H2.
    destruct (double_canonical_cases _ _ Hc); lia.
  - unfold json_of_double. rewrite H2.
    apply negb_true_iff in Hi. now rewrite Hi.
Qed.

Lemma number_head (v : json) :
  json_writable v = true ->
  match v with JNum _ | JFloat _ => True | _ => False end ->
  forall gap indent,
  exists c r, serialize gap indent v = c :: r
              /\ (is_digit c = true \/ c = 45%N).
Proof.
  intros Hw Hn gap indent. destruct v as [ | b | z | d | s | elems | props];
    try contradiction.
  - now apply Number_toString_head.
  - destruct (writable_double _ Hw) as (negative & m & e & -> & Hc & Hm & _).
    now apply Double_toString_head.
Qed.

Lemma serialize_head (gap indent : jsstring) (v : json) :
  json_writable v = true ->
  exists c r, serialize gap indent v = c :: r /\ starts_value c = true.
Proof.
  intro Hw.
  assert (Hnum : match v with JNum _ | JFloat _ => True | _ => False end ->
                 exists c r, serialize gap indent v = c :: r
                             /\ starts_value c = true).
  { intro Hn. destruct (number_head v Hw Hn gap indent) as (c & r & E & H).
    exists c, r. split; [exact E|].
    destruct (digit_or_minus_cases H) as (A & _ & _ & _ & _ & _ & _ & B & C).
    unfold starts_value. now rewrite A, B, C. }
  destruct v as [ | [|] | z | d | s | elems | props].
  - eexists _, _. split; reflexivity.
  - eexists _, _. split; reflexivity.
  - eexists _, _. split; reflexivity.
  - now apply Hnum.
  - now apply Hnum.
  - eexists _, _. split; reflexivity.
  - cbn [serialize]. unfold wrap.
    destruct (List.map _ elems); [|destruct gap]; eexists _, _; split; reflexivity.
  - cbn [serialize]. unfold wrap.
    destruct (List.map _ props); [|destruct gap]; eexists _, _; split; reflexivity.
Qed.

Lemma wrap_shape (opening closing : code_unit) (gap stepback indent : jsstring)
    (p : jsstring) (parts : list jsstring) :
  forallb is_ws gap = true -> forallb is_ws stepback = true ->
  forallb is_ws indent = true ->
  exists w1 w2,
    forallb is_ws w1 = true /\ forallb is_ws w2 = true /\
    wrap opening closing gap stepback indent (p :: parts)
    = opening :: w1 ++ join (44%N :: w1) (p :: parts) ++ w2 ++ [closing].
Proof.
  intros Hg Hs Hi. unfold wrap. destruct gap as [|g gap].
  - exists [], []. repeat split; reflexivity.
  - exists (10%N :: indent), (10%N :: stepback).
    split; [exact Hi|]. split; [exact Hs|].
    reflexivity.
Qed.

Lemma ends_number_ws_then (w : jsstring) (c : code_unit) (rest : jsstring) :
  forallb is_ws w = true ->
  is_digit c = false -> continues_number [c] = false ->
  ends_number (w ++ c :: rest) = true.
Proof.
  intros Hw Hd Hc. destruct w as [|x w].
  - unfold ends_number. simpl. rewrite Hd. simpl in Hc. now rewrite Hc.
  - simpl in Hw. apply andb_true_iff in Hw as [Hx _].
    unfold is_ws in Hx. unfold ends_number, ends_digits, continues_number, is_digit.
    cbn [app].
    repeat (apply orb_true_iff in Hx as [Hx|Hx]);
      apply N.eqb_eq in Hx; subst x; reflexivity.
Qed.

Lemma parse_value_skip (fuel : nat) (w t : jsstring) :
  forallb is_ws w = true -> parse_value fuel (w ++ t) = parse_value fuel t.
Proof.
  intro H. destruct fuel; [reflexivity|]. cbn [parse_value].
  now rewrite skip_ws_app.
Qed.

Lemma parse_members_skip (fuel : nat) acc (w t : jsstring) :
  forallb is_ws w = true -> parse_members fuel acc (w ++ t) = parse_members fuel acc t.
Proof.
  intro H. destruct fuel; [reflexivity|]. cbn [parse_members].
  now rewrite skip_ws_app.
Qed.

Lemma parse_elements_skip (fuel : nat) acc (w t : jsstring) :
  forallb is_ws w = true ->
  parse_elements fuel acc (w ++ t) = parse_elements fuel acc t.
Proof.
  intro H. destruct fuel; [reflexivity|]. cbn [parse_elements].
  now rewrite parse_value_skip.
Qed.

Lemma join_cons2 (sep p q : jsstring) (r : list jsstring) :
  join sep (p :: q :: r) = p ++ sep ++ join sep (q :: r).
Proof. reflexivity. Qed.

Lemma skip_ws_starts (c : code_unit) (r : jsstring) :
  starts_value c = true -> skip_ws (c :: r) = c :: r.
Proof.
  unfold starts_value. intro H. apply andb_true_iff in H as [H _].
  apply andb_true_iff in H as [H _]. apply negb_true_iff in H.
  now apply skip_ws_head.
Qed.

Lemma parse_elements_serialized (gap indent w1 w2 rest : jsstring) :
  forallb is_ws gap = true -> forallb is_ws indent = true ->
  forallb is_ws w1 = true -> forallb is_ws w2 = true ->
  forall (e : json) (elems : list json),
    Forall parses_back (e :: elems) ->
    forallb json_writable (e :: elems) = true ->
    forall (acc : list json) (fuel : nat),
      list_sum (List.map (fun x => S (size x)) (e :: elems)) <= fuel ->
      parse_elements fuel acc
        (join (44%N :: w1) (List.map (serialize gap indent) (e :: elems))
           ++ w2 ++ 93%N :: rest)
      = Some (JArr (List.rev acc ++ e :: elems), rest).
Proof.
  intros Hg Hi H1 H2 e elems. revert e.
  induction elems as [|e' elems IH]; intros e HP Hwf acc fuel Hf.
  - apply Forall_inv in HP. simpl in Hwf. rewrite andb_true_r in Hwf.
    destruct fuel as [|fuel]; [simpl in Hf; lia|].
    cbn [parse_elements List.map join].
    rewrite (HP Hwf gap indent (w2 ++ 93%N :: rest) fuel Hg Hi).
    + rewrite skip_ws_app by assumption. cbn [skip_ws].
      change (is_ws 93%N) with false. cbv iota.
      change (93 =? 44)%N with false. change (93 =? 93)%N with true. cbv iota.
      reflexivity.
    + now apply ends_number_ws_then.
    + simpl in Hf. lia.
  - pose proof (Forall_inv HP) as HPe. apply Forall_inv_tail in HP.
    cbn [forallb] in Hwf. apply andb_true_iff in Hwf as [Hwe Hwf].
    destruct fuel as [|fuel]; [simpl in Hf; lia|].
    cbn [parse_elements]. cbn [List.map]. rewrite join_cons2.
    rewrite <- !app_assoc.
    rewrite (HPe Hwe gap indent _ fuel Hg Hi).
    + cbn [app skip_ws]. change (is_ws 44%N) with false. cbv iota.
      change (44 =? 44)%N with true. cbv iota.
      rewrite parse_elements_skip by assumption.
      etransitivity; [apply (IH e' HP Hwf (e :: acc) fuel)|].
      * simpl in Hf |- *. lia.
      * cbn [List.rev]. now rewrite <- app_assoc.
    + reflexivity.
    + simpl in Hf. lia.
Qed.

End JSONRoundTrip.

(** ** Objects are read back *)

Module JSONObjects.
Import JS Spec JSFacts JSONStrings JSONNumbers JSONDoubles JSONRoundTrip.

Lemma keys_ok_app_l (l1 l2 : list jsstring) :
  keys_ok (l1 ++ l2) = true -> keys_ok l1 = true.
Proof.
  induction l1 as [|k l1 IH]; [reflexivity|].
  cbn [app keys_ok]. intro H. apply andb_true_iff in H as [H1 H2].
  rewrite forallb_app in H1. apply andb_true_iff in H1 as [H1 _].
  rewrite H1. now apply IH.
Qed.

Lemma obj_set_append (k : jsstring) (v : json) (o : list (jsstring * json)) :
  keys_ok (List.map fst o ++ [k]) = true ->
  obj_set k v o = o ++ [(k, v)].
Proof.
  induction o as [|[k' v'] o IH]; [reflexivity|].
  cbn [List.map fst app keys_ok obj_set]. intro H.
  apply andb_true_iff in H as [H1 H2].
  rewrite forallb_app in H1. apply andb_true_iff in H1 as [_ H1].
  cbn [forallb] in H1. rewrite andb_true_r in H1.
  apply andb_true_iff in H1 as [Hne Hpre].
  apply negb_true_iff in Hne, Hpre.
  rewrite eqb_sym, Hne, Hpre. now rewrite IH.
Qed.

Lemma member_text (gap indent : jsstring) (k : jsstring) (x : json) (tail : jsstring) :
  member gap indent (k, x) ++ tail
  = 34%N :: quote_body k
      ++ 34%N :: 58%N :: match gap with [] => [] | _ => [32%N] end
      ++ serialize gap indent x ++ tail.
Proof.
  unfold member, QuoteJSONString. cbn [app]. rewrite <- !app_assoc.
  cbn [app]. rewrite <- ?app_assoc. reflexivity.
Qed.

Lemma parse_members_serialized (gap indent w1 w2 rest : jsstring) :
  forallb is_ws gap = true -> forallb is_ws indent = true ->
  forallb is_ws w1 = true -> forallb is_ws w2 = true ->
  forall (ms : list (jsstring * json)) (m : jsstring * json)
         (pre : list (jsstring * json)),
    Forall (fun kv => parses_back (snd kv)) (m :: ms) ->
    forallb (fun kv => json_writable (snd kv)) (m :: ms) = true ->
    keys_ok (List.map fst (pre ++ m :: ms)) = true ->
    forall (fuel : nat),
      list_sum (List.map (fun kv => S (size (snd kv))) (m :: ms)) <= fuel ->
      parse_members fuel pre
        (join (44%N :: w1) (List.map (member gap indent) (m :: ms))
           ++ w2 ++ 125%N :: rest)
      = Some (JObj (pre ++ m :: ms), rest).
Proof.
  intros Hg Hi H1 H2 ms.
  assert (Hsp : forallb is_ws (match gap with [] => [] | _ => [32%N] end) = true)
    by (destruct gap; reflexivity).
  induction ms as [|m' ms IH]; intros [k x] pre HP Hwf Hk fuel Hf.
  - apply Forall_inv in HP. cbn [snd] in HP.
    cbn [forallb snd] in Hwf. rewrite andb_true_r in Hwf.
    destruct fuel as [|fuel]; [simpl in Hf; lia|].
    cbn [List.map join]. rewrite member_text.
    cbn [parse_members skip_ws]. change (is_ws 34%N) with false. cbv iota.
    change (34 =? 34)%N with true. cbv iota.
    rewrite parse_quote_body. cbn [skip_ws]. change (is_ws 58%N) with false.
    cbv iota. change (58 =? 58)%N with true. cbv iota.
    rewrite parse_value_skip by assumption.
    rewrite (HP Hwf gap indent (w2 ++ 125%N :: rest) fuel Hg Hi).
    + rewrite skip_ws_app by assumption. cbn [skip_ws].
      change (is_ws 125%N) with false. cbv iota.
      change (125 =? 44)%N with false. change (125 =? 125)%N with true. cbv iota.
      rewrite obj_set_append; [reflexivity|].
      rewrite List.map_app in Hk. exact Hk.
    + now apply ends_number_ws_then.
    + simpl in Hf. lia.
  - pose proof (Forall_inv HP) as HPe. cbn [snd] in HPe.
    apply Forall_inv_tail in HP.
    cbn [forallb] in Hwf. apply andb_true_iff in Hwf as [Hwe Hwf]. cbn [snd] in Hwe.
    destruct fuel as [|fuel]; [simpl in Hf; lia|].
    cbn [List.map]. rewrite join_cons2. rewrite <- !app_assoc. rewrite member_text.
    cbn [parse_members skip_ws]. change (is_ws 34%N) with false. cbv iota.
    change (34 =? 34)%N with true. cbv iota.
    rewrite parse_quote_body. cbn [skip_ws]. change (is_ws 58%N) with false.
    cbv iota. change (58 =? 58)%N with true. cbv iota.
    rewrite parse_value_skip by assumption.
    rewrite (HPe Hwe gap indent _ fuel Hg Hi).
    + cbn [app skip_ws]. change (is_ws 44%N) with false. cbv iota.
      change (44 =? 44)%N with true. cbv iota.
      rewrite parse_members_skip by assumption.
      assert (Hset : obj_set k x pre = pre ++ [(k, x)]).
      { apply obj_set_append.
        rewrite List.map_app in Hk. cbn [List.map fst] in Hk.
        change (List.map fst pre ++ k :: fst m' :: List.map fst ms)
          with (List.map fst pre ++ [k] ++ fst m' :: List.map fst ms) in Hk.
        rewrite app_assoc in Hk. now apply keys_ok_app_l in Hk. }
      rewrite Hset.
      etransitivity; [apply (IH m' (pre ++ [(k, x)]) HP Hwf)|].
      * rewrite <- app_assoc. exact Hk.
      * simpl in Hf |- *. lia.
      * now rewrite <- app_assoc.
    + reflexivity.
    + simpl in Hf. lia.
Qed.

End JSONObjects.

(** ** Every value is read back *)

Module JSONMain.
Import JS Spec JSFacts JSONStrings JSONNumbers JSONDoubles JSONRoundTrip JSONObjects.

Lemma forallb_Forall_writable (elems : list json) :
  forallb json_writable elems = true -> Forall (fun e => json_writable e = true) elems.
Proof. intro H. apply Forall_forall. now apply forallb_forall. Qed.

Lemma serialize_JObj (gap indent : jsstring) (props : list (jsstring * json)) :
  serialize gap indent (JObj props)
  = wrap 123%N 125%N gap indent (indent ++ gap)
      (List.map (member gap (indent ++ gap)) props).
Proof. reflexivity. Qed.

(** A number is read by [parse_number]. *)
Lemma parse_value_number (v : json) (gap indent rest : jsstring) (fuel : nat) :
  json_writable v = true ->
  match v with JNum _ | JFloat _ => True | _ => False end ->
  parse_value (S fuel) (serialize gap indent v ++ rest)
  = parse_number (serialize gap indent v ++ rest).
Proof.
  intros Hw Hn. cbn [parse_value].
  destruct (number_head v Hw Hn gap indent) as (c & r & E & H).
  pose proof (digit_or_minus_cases H) as (A & B1 & B2 & B3 & B4 & B5 & B6 & _).
  rewrite E. cbn [app skip_ws]. now rewrite A, B1, B2, B3, B4, B5, B6.
Qed.

Theorem parse_serialize (v : json) : parses_back v.
Proof.
  induction v as [ | b | z | d | s | elems IH | props IH] using json_ind';
    intros Hwf gap indent rest fuel Hg Hi Hr Hf;
    (destruct fuel as [|fuel]; [simpl in Hf; lia|]).
  - reflexivity.
  - destruct b; reflexivity.
  - rewrite (parse_value_number _ gap indent rest fuel Hwf I).
    now apply parse_Number_toString.
  - rewrite (parse_value_number _ gap indent rest fuel Hwf I).
    destruct (writable_double _ Hwf) as (negative & m & e & -> & Hc & Hm & Hj).
    cbn [serialize]. rewrite <- Hj. now apply parse_Double_toString.
  - cbn [serialize parse_value]. unfold QuoteJSONString.
    cbn [app skip_ws]. change (is_ws 34%N) with false. cbv iota.
    change (34 =? 123)%N with false. change (34 =? 91)%N with false.
    change (34 =? 34)%N with true. cbv iota.
    rewrite <- app_assoc. cbn [app]. now rewrite parse_quote_body.
  - cbn [serialize]. destruct elems as [|e elems]; [reflexivity|].
    cbn [json_writable] in Hwf. cbn [List.map].
    destruct (@wrap_shape 91%N 93%N gap indent (indent ++ gap)
                (serialize gap (indent ++ gap) e)
                (List.map (serialize gap (indent ++ gap)) elems) Hg Hi)
      as (w1 & w2 & H1 & H2 & ->).
    { rewrite forallb_app. now rewrite Hi, Hg. }
    cbn [app parse_value skip_ws]. change (is_ws 91%N) with false. cbv iota.
    change (91 =? 123)%N with false. change (91 =? 91)%N with true. cbv iota.
    rewrite <- !app_assoc. rewrite skip_ws_app by assumption.
    assert (Hwe : json_writable e = true)
      by (cbn [forallb] in Hwf; now apply andb_true_iff in Hwf as [Hwe _]).
    destruct (serialize_head gap (indent ++ gap) e Hwe) as (c & r & E & Hc).
    assert (Hjoin : exists r', join (44%N :: w1)
                       (serialize gap (indent ++ gap) e
                          :: List.map (serialize gap (indent ++ gap)) elems)
                     = c :: r').
    { destruct (List.map (serialize gap (indent ++ gap)) elems);
        cbn [join]; rewrite E; eexists; reflexivity. }
    destruct Hjoin as (r' & Ej).
    pose proof Hc as Hc'. unfold starts_value in Hc'.
    apply andb_true_iff in Hc' as [Hc' _]. apply andb_true_iff in Hc' as [Hws H93].
    apply negb_true_iff in Hws, H93.
    rewrite Ej. cbn [app skip_ws]. rewrite Hws, H93.
    change (c :: r' ++ w2 ++ 93%N :: rest) with ((c :: r') ++ w2 ++ 93%N :: rest).
    rewrite <- Ej.
    apply (@parse_elements_serialized gap (indent ++ gap) w1 w2 rest); try assumption.
    + rewrite forallb_app. now rewrite Hi, Hg.
    + simpl in Hf. simpl. lia.
  - rewrite serialize_JObj. destruct props as [|[k x] props]; [reflexivity|].
    cbn [json_writable] in Hwf. apply andb_true_iff in Hwf as [Hk Hwf].
    cbn [List.map].
    destruct (@wrap_shape 123%N 125%N gap indent (indent ++ gap)
                (member gap (indent ++ gap) (k, x))
                (List.map (member gap (indent ++ gap)) props) Hg Hi)
      as (w1 & w2 & H1 & H2 & ->).
    { rewrite forallb_app. now rewrite Hi, Hg. }
    cbn [app parse_value skip_ws]. change (is_ws 123%N) with false. cbv iota.
    change (123 =? 123)%N with true. cbv iota.
    rewrite <- !app_assoc. rewrite skip_ws_app by assumption.
    assert (Hjoin : exists r', join (44%N :: w1)
                       (member gap (indent ++ gap) (k, x)
                          :: List.map (member gap (indent ++ gap)) props)
                     = 34%N :: r').
    { destruct (List.map (member gap (indent ++ gap)) props);
        cbn [join]; unfold member, QuoteJSONString; cbn [app];
        eexists; reflexivity. }
    destruct Hjoin as (r' & Ej).
    rewrite Ej. cbn [app skip_ws]. change (is_ws 34%N) with false. cbv iota.
    change (34 =? 125)%N with false. cbv iota.
    change (34%N :: r' ++ w2 ++ 125%N :: rest)
      with ((34%N :: r') ++ w2 ++ 125%N :: rest).
    rewrite <- Ej.
    assert (Hi' : forallb is_ws (indent ++ gap) = true)
      by (rewrite forallb_app; now rewrite Hi, Hg).
    apply (@parse_members_serialized gap (indent ++ gap) w1 w2 rest
             Hg Hi' H1 H2 props (k, x) []); try assumption.
    simpl in Hf. simpl. lia.
Qed.

End JSONMain.

(** ** [JSON.parse] after [JSON.stringify] *)

Module JSONParse.
Import JS Spec JSFacts JSONStrings JSONNumbers JSONDoubles JSONRoundTrip JSONObjects JSONMain.

Lemma sum_le_join (A : Type) (sep : jsstring) (f : A -> jsstring) (sz : A -> nat)
    (l : list A) :
  1 <= List.length sep ->
  Forall (fun a => sz a <= List.length (f a)) l ->
  list_sum (List.map (fun a => S (sz a)) l)
  <= S (List.length (join sep (List.map f l))).
Proof.
  intros Hsep H. induction H as [|a l Ha Hl IH]; [simpl; lia|].
  destruct l as [|b l].
  - simpl. lia.
  - cbn [List.map]. rewrite join_cons2. rewrite !length_app.
    cbn [List.map] in IH. simpl list_sum in *. lia.
Qed.

Lemma size_le_length (v : json) :
  json_writable v = true ->
  forall (gap indent : jsstring),
    size v <= List.length (serialize gap indent v).
Proof.
  induction v as [ | b | z | d | s | elems IH | props IH] using json_ind';
    intros Hw gap indent.
  - simpl. lia.
  - destruct b; simpl; lia.
  - destruct (number_head _ Hw I gap indent) as (c & r & -> & _). simpl. lia.
  - destruct (number_head _ Hw I gap indent) as (c & r & -> & _). simpl. lia.
  - cbn [serialize size]. unfold QuoteJSONString. cbn [app]. simpl. lia.
  - cbn [serialize size]. cbn [json_writable] in Hw.
    rewrite forallb_forall in Hw. rewrite Forall_forall in IH.
    assert (H : list_sum (List.map (fun e => S (size e)) elems)
                <= S (List.length (join (match gap with [] => lit ","
                                         | _ => lit "," ++ [10%N] ++ (indent ++ gap) end)
                                     (List.map (serialize gap (indent ++ gap)) elems)))).
    { apply sum_le_join.
      - destruct gap; simpl; lia.
      - apply Forall_forall. intros e He. apply (IH e He (Hw e He)). }
    unfold wrap. destruct (List.map (serialize gap (indent ++ gap)) elems) eqn:E.
    + destruct elems; [simpl; lia | discriminate].
    + destruct gap; rewrite ?length_app in *; cbn [List.length] in *;
        rewrite ?length_app in *; cbn [List.length] in *; lia.
  - rewrite serialize_JObj. cbn [size]. cbn [json_writable] in Hw.
    apply andb_true_iff in Hw as [_ Hw].
    rewrite forallb_forall in Hw. rewrite Forall_forall in IH.
    assert (H : list_sum (List.map (fun kv => S (size (snd kv))) props)
                <= S (List.length (join (match gap with [] => lit ","
                                         | _ => lit "," ++ [10%N] ++ (indent ++ gap) end)
                                     (List.map (member gap (indent ++ gap)) props)))).
    { apply sum_le_join.
      - destruct gap; simpl; lia.
      - apply Forall_forall. intros [k x] Hin.
        pose proof (IH (k, x) Hin (Hw (k, x) Hin) gap (indent ++ gap)) as He.
        cbn [snd] in *. unfold member. rewrite !length_app.
        unfold jsstring, code_unit in *. lia. }
    unfold wrap. destruct (List.map (member gap (indent ++ gap)) props) eqn:E.
    + destruct props; [simpl; lia | discriminate].
    + destruct gap; rewrite ?length_app in *; cbn [List.length] in *;
        rewrite ?length_app in *; cbn [List.length] in *; lia.
Qed.

(** [JSON.parse] reads back what [JSON.stringify] wrote, whatever the
    indentation. *)
Theorem JSON_parse_serialize_writable (gap : jsstring) (v : json) :
  forallb is_ws gap = true -> json_writable v = true ->
  JSON_parse (serialize gap [] v) = Some v.
Proof.
  intros Hg Hwf. unfold JSON_parse.
  rewrite <- (List.app_nil_r (serialize gap [] v)) at 2.
  rewrite (@parse_serialize v Hwf gap [] [] _ Hg eq_refl eq_refl).
  - reflexivity.
  - pose proof (size_le_length v Hwf gap []). lia.
Qed.

Lemma json_wf_writable (v : json) : json_wf v = true -> json_writable v = true.
Proof.
  induction v as [ | b | z | d | s | elems IH | props IH] using json_ind';
    cbn [json_wf json_writable]; try (intro H; exact H); try discriminate.
  - intro H. rewrite forallb_forall in H. rewrite Forall_forall in IH.
    apply forallb_forall. intros e He. apply (IH e He (H e He)).
  - intro H. apply andb_true_iff in H as [Hk H]. rewrite Hk. cbn [andb].
    rewrite forallb_forall in H. rewrite Forall_forall in IH.
    apply forallb_forall. intros kv Hkv. apply (IH kv Hkv (H kv Hkv)).
Qed.

Lemma json_writable_value (v : json) :
  json_writable v = true -> json_value v = true.
Proof.
  induction v as [ | b | z | d | s | elems IH | props IH] using json_ind';
    cbn [json_value json_writable]; try (intro H; exact H).
  - intro H. now apply andb_true_iff in H as [H _].
  - intro H. rewrite forallb_forall in H. rewrite Forall_forall in IH.
    apply forallb_forall. intros e He. apply (IH e He (H e He)).
  - intro H. apply andb_true_iff in H as [Hk H]. rewrite Hk. cbn [andb].
    rewrite forallb_forall in H. rewrite Forall_forall in IH.
    apply forallb_forall. intros kv Hkv. apply (IH kv Hkv (H kv Hkv)).
Qed.

Theorem JSON_parse_serialize (gap : jsstring) (v : json) :
  forallb is_ws gap = true -> json_wf v = true ->
  JSON_parse (serialize gap [] v) = Some v.
Proof.
  intros Hg Hwf. apply JSON_parse_serialize_writable; [exact Hg|].
  now apply json_wf_writable.
Qed.

(** *** What is read back of any run-time value *)

Lemma serialize_read_back (v : json) : forall gap indent : jsstring,
  serialize gap indent (read_back v) = serialize gap indent v.
Proof.
  induction v as [ | b | z | d | s | elems IH | props IH] using json_ind';
    intros gap indent; try reflexivity.
  - destruct d as [negative m e|negative]; [|reflexivity].
    cbn [read_back]. destruct (m =? 0)%Z eqn:E; [|reflexivity].
    cbn [serialize Double_toString]. now rewrite E.
  - cbn [read_back serialize]. f_equal. rewrite List.map_map.
    apply map_ext_Forall. eapply Forall_impl; [|exact IH].
    intros e He. apply He.
  - cbn [read_back serialize]. f_equal. rewrite List.map_map.
    apply map_ext_Forall. eapply Forall_impl; [|exact IH].
    intros [k x] He. cbn [fst snd] in *. now rewrite He.
Qed.

Lemma read_back_writable (v : json) :
  json_value v = true -> json_writable (read_back v) = true.
Proof.
  induction v as [ | b | z | d | s | elems IH | props IH] using json_ind';
    cbn [json_value read_back json_writable]; try (intro H; exact H).
  - destruct d as [negative m e|negative]; [|reflexivity].
    intro H. destruct (m =? 0)%Z eqn:E; [reflexivity|].
    cbn [json_writable written_as_it_is]. now rewrite H, E.
  - intro H. rewrite forallb_forall in H. rewrite Forall_forall in IH.
    apply forallb_forall. intros e He. apply in_map_iff in He as (x & <- & Hx).
    apply (IH x Hx (H x Hx)).
  - intro H. apply andb_true_iff in H as [Hk H].
    rewrite List.map_map.
    change (List.map (fun x : jsstring * json =>
                        fst (fst x, read_back (snd x))) props)
      with (List.map fst props).
    rewrite Hk. cbn [andb].
    rewrite forallb_forall in H. rewrite Forall_forall in IH.
    apply forallb_forall. intros kv Hkv.
    apply in_map_iff in Hkv as (x & <- & Hx). cbn [snd].
    apply (IH x Hx (H x Hx)).
Qed.

Lemma read_back_id (v : json) : json_writable v = true -> read_back v = v.
Proof.
  induction v as [ | b | z | d | s | elems IH | props IH] using json_ind';
    cbn [read_back json_writable]; try reflexivity.
  - intro H. apply andb_true_iff in H as [_ H].
    destruct d as [negative m e|negative]; [|discriminate].
    cbn in H. apply negb_true_iff in H. now rewrite H.
  - intro H. f_equal. rewrite forallb_forall in H. rewrite Forall_forall in IH.
    rewrite <- (List.map_id elems) at 2. apply map_ext_in.
    intros e He. apply (IH e He (H e He)).
  - intro H. apply andb_true_iff in H as [_ H]. f_equal.
    rewrite forallb_forall in H. rewrite Forall_forall in IH.
    rewrite <- (List.map_id props) at 2. apply map_ext_in.
    intros [k x] Hkv. cbn [fst snd]. f_equal. apply (IH (k, x) Hkv (H (k, x) Hkv)).
Qed.

(** [JSON.parse] after [JSON.stringify], on any run-time value: the value
    comes back but for the numbers JSON cannot write, an infinite one
    coming back as [null] and the negative zero as zero. *)
Theorem JSON_parse_serialize_value (gap : jsstring) (v : json) :
  forallb is_ws gap = true -> json_value v = true ->
  JSON_parse (serialize gap [] v) = Some (read_back v).
Proof.
  intros Hg Hv. rewrite <- serialize_read_back.
  apply JSON_parse_serialize_writable; [exact Hg|].
  now apply read_back_writable.
Qed.

(** *** Every parsed value is a run-time value *)

Lemma forallb_obj_set (p : jsstring -> bool) (k : jsstring) (v : json)
    (o : list (jsstring * json)) :
  p k = true -> forallb p (List.map fst o) = true ->
  forallb p (List.map fst (obj_set k v o)) = true.
Proof.
  intro Hk. induction o as [|[k' v'] o IH]; cbn [obj_set List.map fst forallb].
  - intros _. now rewrite Hk.
  - intro H. apply andb_true_iff in H as [H1 H2].
    destruct (eqb k k'); [|destruct (precedes k k')];
      cbn [List.map fst forallb]; rewrite ?Hk, ?H1, ?H2; try reflexivity.
    now apply IH.
Qed.

Lemma keys_ok_obj_set (k : jsstring) (v : json) (o : list (jsstring * json)) :
  keys_ok (List.map fst o) = true ->
  keys_ok (List.map fst (obj_set k v o)) = true.
Proof.
  induction o as [|[k' v'] o IH]; [reflexivity|].
  cbn [obj_set List.map fst keys_ok]. intro H.
  apply andb_true_iff in H as [H1 H2].
  destruct (eqb k k') eqn:E.
  - apply eqb_eq in E. subst k'. cbn [List.map fst keys_ok]. now rewrite H1, H2.
  - destruct (precedes k k') eqn:P.
    + cbn [List.map fst keys_ok forallb]. rewrite H1, H2, E. cbn [negb andb].
      rewrite !andb_true_r. apply andb_true_iff. split.
      * unfold precedes in *.
        destruct (array_index k); [|discriminate].
        destruct (array_index k'); [|reflexivity].
        apply N.ltb_lt in P. apply negb_true_iff. apply N.ltb_ge. lia.
      * apply forallb_forall. intros k'' Hin.
        rewrite forallb_forall in H1. specialize (H1 k'' Hin).
        apply andb_true_iff in H1 as [A B]. apply negb_true_iff in A, B.
        assert (Hidx : array_index k <> array_index k'' /\ precedes k'' k = false).
        { unfold precedes in *.
          destruct (array_index k) as [i|]; [|discriminate].
          destruct (array_index k') as [j|], (array_index k'') as [j''|];
            try discriminate; try (split; [discriminate | reflexivity]).
          apply N.ltb_lt in P. apply N.ltb_ge in B.
          split; [intros [= ->]; lia | apply N.ltb_ge; lia]. }
        destruct Hidx as [Hne Hp]. rewrite Hp. cbn [negb andb]. rewrite andb_true_r.
        apply negb_true_iff. apply eqb_neq. intros ->. now apply Hne.
    + cbn [List.map fst keys_ok]. rewrite (IH H2), andb_true_r.
      apply forallb_obj_set; [|exact H1].
      rewrite eqb_sym, E, P. reflexivity.
Qed.

Lemma values_obj_set (k : jsstring) (v : json) (o : list (jsstring * json)) :
  json_value v = true -> forallb (fun kv => json_value (snd kv)) o = true ->
  forallb (fun kv => json_value (snd kv)) (obj_set k v o) = true.
Proof.
  intro Hv. induction o as [|[k' v'] o IH]; cbn [obj_set forallb snd].
  - intros _. now rewrite Hv.
  - intro H. apply andb_true_iff in H as [H1 H2].
    destruct (eqb k k'); [|destruct (precedes k k')];
      cbn [forallb snd]; rewrite ?Hv, ?H1, ?H2; try reflexivity.
    now apply IH.
Qed.

Lemma obj_set_value (k : jsstring) (v : json) (o : list (jsstring * json)) :
  json_value v = true -> json_value (JObj o) = true ->
  json_value (JObj (obj_set k v o)) = true.
Proof.
  cbn [json_value]. intros Hv H. apply andb_true_iff in H as [H1 H2].
  now rewrite keys_ok_obj_set, values_obj_set.
Qed.

Lemma parse_number_value (s : jsstring) (v : json) (r : jsstring) :
  parse_number s = Some (v, r) -> json_value v = true.
Proof.
  unfold parse_number.
  destruct (match s with
            | [] => (false, s)
            | c :: r0 => if (c =? 45)%N then (true, r0) else (false, s)
            end) as [negative s1].
  destruct (take_digits s1) as [ds r1].
  destruct (canonical_numeral ds); [|discriminate].
  destruct (parse_fraction r1) as [[fs r2]|]; [|discriminate].
  destruct (parse_exponent r2) as [[ex r3]|]; [|discriminate].
  intros [= <- _]. apply number_of_value.
Qed.

Lemma option_map_pair_inv (a : json) (o : option jsstring) (v : json) (r : jsstring) :
  option_map (pair a) o = Some (v, r) -> v = a.
Proof. destruct o; simpl; [intros [= <- _]; reflexivity | discriminate]. Qed.

Lemma parsed_values (fuel : nat) :
  (forall s v r, parse_value fuel s = Some (v, r) -> json_value v = true)
  /\ (forall acc s v r, forallb json_value acc = true ->
        parse_elements fuel acc s = Some (v, r) -> json_value v = true)
  /\ (forall acc s v r, json_value (JObj acc) = true ->
        parse_members fuel acc s = Some (v, r) -> json_value v = true).
Proof.
  induction fuel as [|fuel (IHv & IHe & IHm)];
    [repeat split; intros; discriminate|].
  repeat split.
  - intros s v r. cbn [parse_value].
    destruct (skip_ws s) as [|c t]; [discriminate|].
    destruct (c =? 123)%N.
    { destruct (skip_ws t) as [|c' t']; [discriminate|].
      destruct (c' =? 125)%N; [intros [= <- _]; reflexivity|].
      now apply IHm. }
    destruct (c =? 91)%N.
    { destruct (skip_ws t) as [|c' t']; [discriminate|].
      destruct (c' =? 93)%N; [intros [= <- _]; reflexivity|].
      now apply IHe. }
    destruct (c =? 34)%N.
    { destruct (parse_string_body t) as [[str rest]|]; [|discriminate].
      intros [= <- _]. reflexivity. }
    destruct (c =? 116)%N.
    { intro H. apply option_map_pair_inv in H. now subst. }
    destruct (c =? 102)%N.
    { intro H. apply option_map_pair_inv in H. now subst. }
    destruct (c =? 110)%N.
    { intro H. apply option_map_pair_inv in H. now subst. }
    apply parse_number_value.
  - intros acc s v r Hacc. cbn [parse_elements].
    destruct (parse_value fuel s) as [[x t]|] eqn:E; [|discriminate].
    apply IHv in E.
    destruct (skip_ws t) as [|c t']; [discriminate|].
    destruct (c =? 44)%N.
    { apply IHe. cbn [forallb]. now rewrite E, Hacc. }
    destruct (c =? 93)%N; [|discriminate].
    intros [= <- _]. cbn [json_value].
    rewrite forallb_app. cbn [forallb]. rewrite E, andb_true_r.
    apply forallb_forall. intros y Hy. rewrite <- in_rev in Hy.
    rewrite forallb_forall in Hacc. now apply Hacc.
  - intros acc s v r Hacc. cbn [parse_members].
    destruct (skip_ws s) as [|q t]; [discriminate|].
    destruct (q =? 34)%N; [|discriminate].
    destruct (parse_string_body t) as [[k t1]|]; [|discriminate].
    destruct (skip_ws t1) as [|c1 t2]; [discriminate|].
    destruct (c1 =? 58)%N; [|discriminate].
    destruct (parse_value fuel t2) as [[x t3]|] eqn:E; [|discriminate].
    apply IHv in E.
    destruct (skip_ws t3) as [|c t4]; [discriminate|].
    destruct (c =? 44)%N.
    { apply IHm. now apply obj_set_value. }
    destruct (c =? 125)%N; [|discriminate].
    intros [= <- _]. now apply obj_set_value.
Qed.

(** Every value [JSON.parse] returns is a run-time value. *)
Theorem JSON_parse_value (text : jsstring) (v : json) :
  JSON_parse text = Some v -> json_value v = true.
Proof.
  unfold JSON_parse.
  destruct (parse_value _ text) as [[x r]|] eqn:E; [|discriminate].
  destruct (skip_ws r); [|discriminate].
  intros [= <-]. now apply (proj1 (parsed_values _)) in E.
Qed.

End JSONParse.

(* ===================================================================== *)
(** * What the client methods and the call handler do                    *)
(* ===================================================================== *)

Module Dispatch.
Import JS Spec JSFacts Net ObsidianApiClient ObsidianMcpServer.
Local Open Scope js_scope.

Section Shapes.
Variable this : ObsidianApiClient.t.

Lemma request_run (path : jsstring) (options : RequestInit)
    (net : Network) (log : list FetchCall) :
  request this path options net log
  = (settle net (call_of this path options), log ++ [call_of this path options]).
Proof.
  unfold request, settle, bind, fetch, call_of.
  destruct (net _) as [e|r]; [reflexivity|].
  destruct (negb (ok r)); [reflexivity|].
  destruct (json_body r); reflexivity.
Qed.

Lemma single_throw (e : exn) : single_request this (throw e).
Proof. left. now exists e. Qed.

Lemma single_request_intro (path : jsstring) (options : RequestInit) :
  hd_error path = Some 47%N ->
  single_request this (request this path options).
Proof. intro H. right. now exists path, options. Qed.

Lemma single_lift_bind (A : Type) (r : result A) (k : A -> M json) :
  (forall a, single_request this (k a)) ->
  single_request this (bind (lift r) k).
Proof.
  intro H. destruct r as [e|a].
  - exact (single_throw e).
  - exact (H a).
Qed.

Lemma single_ret_bind (A : Type) (a : A) (k : A -> M json) :
  single_request this (k a) -> single_request this (bind (ret a) k).
Proof. intro H. exact H. Qed.

Ltac single :=
  repeat first
    [ apply single_request_intro; reflexivity
    | apply single_throw
    | apply single_lift_bind; intro
    | apply single_ret_bind ].

Lemma single_listDirectory p r l o : single_request this (listDirectory this p r l o).
Proof. unfold listDirectory. single. Qed.

Lemma single_readFile p : single_request this (readFile this p).
Proof. unfold readFile. single. Qed.

Lemma single_writeFile p c m : single_request this (writeFile this p c m).
Proof. unfold writeFile. single. Qed.

Lemma single_deleteItem p : single_request this (deleteItem this p).
Proof. unfold deleteItem. single. Qed.

Lemma single_createOrUpdateNote p c f :
  single_request this (createOrUpdateNote this p c f).
Proof. unfold createOrUpdateNote. single. Qed.

Lemma single_getDailyNote d : single_request this (getDailyNote this d).
Proof. unfold getDailyNote. single. Qed.

Lemma single_getRecentNotes l : single_request this (getRecentNotes this l).
Proof. unfold getRecentNotes. single. Qed.

Lemma single_searchVault q s p : single_request this (searchVault this q s p).
Proof.
  unfold searchVault. single. destruct (truthy p); single.
Qed.

Lemma single_findRelatedNotes p o : single_request this (findRelatedNotes this p o).
Proof. unfold findRelatedNotes. single. Qed.

Lemma single_listFiles : single_request this (listFiles this).
Proof. unfold listFiles. single. Qed.

Lemma single_getFile p : single_request this (getFile this p).
Proof. unfold getFile. single. Qed.

Lemma single_createFile p c ty : single_request this (createFile this p c ty).
Proof. unfold createFile. single. Qed.

Lemma single_updateFile p c : single_request this (updateFile this p c).
Proof. unfold updateFile. single. Qed.

Lemma single_deleteFile p : single_request this (deleteFile this p).
Proof. unfold deleteFile. single. Qed.

Lemma single_listNotes : single_request this (listNotes this).
Proof. unfold listNotes. single. Qed.

Lemma single_getNote p : single_request this (getNote this p).
Proof. unfold getNote. single. Qed.

Lemma single_createNote p c f : single_request this (createNote this p c f).
Proof. unfold createNote. single. Qed.

Lemma single_updateNote p c f : single_request this (updateNote this p c f).
Proof. unfold updateNote. single. Qed.

Lemma single_deleteNote p : single_request this (deleteNote this p).
Proof. unfold deleteNote. single. Qed.

Lemma single_searchNotes q : single_request this (searchNotes this q).
Proof. unfold searchNotes. single. Qed.

Lemma single_getMetadataKeys : single_request this (getMetadataKeys this).
Proof. unfold getMetadataKeys. single. Qed.

Lemma single_getMetadataValues k : single_request this (getMetadataValues this k).
Proof. unfold getMetadataValues. single. Qed.

Lemma single_operations (a b c d : value) :
  Forall (single_request this) (operations this a b c d).
Proof.
  unfold operations.
  repeat (apply Forall_cons || apply Forall_nil).
  - apply single_listDirectory.
  - apply single_readFile.
  - apply single_writeFile.
  - apply single_deleteItem.
  - apply single_createOrUpdateNote.
  - apply single_getDailyNote.
  - apply single_getRecentNotes.
  - apply single_searchVault.
  - apply single_findRelatedNotes.
  - apply single_listFiles.
  - apply single_getFile.
  - apply single_createFile.
  - apply single_updateFile.
  - apply single_deleteFile.
  - apply single_listNotes.
  - apply single_getNote.
  - apply single_createNote.
  - apply single_updateNote.
  - apply single_deleteNote.
  - apply single_searchNotes.
  - apply single_getMetadataKeys.
  - apply single_getMetadataValues.
Qed.

Lemma select_In (name : jsstring) (cs : list Case) (run : Arguments -> M json) :
  select name cs = Some run -> In (name, run) cs.
Proof.
  induction cs as [|[label r] cs IH]; [discriminate|].
  cbn [select]. destruct (eqb name label) eqn:E.
  - apply eqb_eq in E. intros [= ->]. left. now subst.
  - intro H. right. now apply IH.
Qed.

Lemma select_None (name : jsstring) (cs : list Case) :
  select name cs = None <-> ~ In name (List.map fst cs).
Proof.
  induction cs as [|[label r] cs IH]; cbn [select List.map fst In].
  - tauto.
  - destruct (eqb name label) eqn:E.
    + apply eqb_eq in E. split; [discriminate|]. intro H. exfalso. apply H. now left.
    + apply eqb_neq in E. rewrite IH. intuition congruence.
Qed.

Lemma single_switch (name : jsstring) (args : Arguments) :
  single_request this (switch this name args).
Proof.
  unfold switch. destruct (select name (cases this)) as [run|] eqn:E.
  - apply select_In in E. unfold cases in E. cbn [In] in E.
    repeat (destruct E as [E|E]; [injection E as _ <-|]); try contradiction.
    + apply single_listDirectory.
    + apply single_readFile.
    + apply single_writeFile.
    + apply single_deleteItem.
    + apply single_createOrUpdateNote.
    + apply single_getDailyNote.
    + apply single_getRecentNotes.
    + apply single_searchVault.
    + apply single_findRelatedNotes.
    + destruct (truthy _); [apply single_searchVault | apply single_listNotes].
    + apply single_getNote.
    + apply single_getMetadataKeys.
    + apply single_getMetadataValues.
  - apply single_throw.
Qed.

(** The clause each name of the catalog selects. *)
Lemma switch_list_directory (args : Arguments) :
  switch this (lit "list_directory") args
  = listDirectory this (arg args "path") (arg args "recursive")
      (arg args "limit") (arg args "offset").
Proof. reflexivity. Qed.

Lemma switch_read_file (args : Arguments) :
  switch this (lit "read_file") args = readFile this (arg args "path").
Proof. reflexivity. Qed.

Lemma switch_write_file (args : Arguments) :
  switch this (lit "write_file") args
  = writeFile this (arg args "path") (arg args "content") (arg args "mode").
Proof. reflexivity. Qed.

Lemma switch_delete_item (args : Arguments) :
  switch this (lit "delete_item") args = deleteItem this (arg args "path").
Proof. reflexivity. Qed.

Lemma switch_create_or_update_note (args : Arguments) :
  switch this (lit "create_or_update_note") args
  = createOrUpdateNote this (arg args "path") (arg args "content")
      (arg args "frontmatter").
Proof. reflexivity. Qed.

Lemma switch_get_daily_note (args : Arguments) :
  switch this (lit "get_daily_note") args = getDailyNote this (arg args "date").
Proof. reflexivity. Qed.

Lemma switch_get_recent_notes (args : Arguments) :
  switch this (lit "get_recent_notes") args
  = getRecentNotes this (arg args "limit").
Proof. reflexivity. Qed.

Lemma switch_search_vault (args : Arguments) :
  switch this (lit "search_vault") args
  = searchVault this (arg args "query") (arg args "scope")
      (arg args "path_filter").
Proof. reflexivity. Qed.

Lemma switch_find_related_notes (args : Arguments) :
  switch this (lit "find_related_notes") args
  = findRelatedNotes this (arg args "path") (arg args "on").
Proof. reflexivity. Qed.

Lemma switch_list_notes (args : Arguments) :
  switch this (lit "list_notes") args
  = if truthy (arg args "search")
    then searchVault this (arg args "search")
           (Some (JArr [JStr (lit "content"); JStr (lit "filename");
                        JStr (lit "tags")]))
           undefined
    else listNotes this.
Proof. reflexivity. Qed.

Lemma switch_get_note (args : Arguments) :
  switch this (lit "get_note") args = getNote this (arg args "path").
Proof. reflexivity. Qed.

Lemma switch_get_metadata_keys (args : Arguments) :
  switch this (lit "get_metadata_keys") args = getMetadataKeys this.
Proof. reflexivity. Qed.

Lemma switch_get_metadata_values (args : Arguments) :
  switch this (lit "get_metadata_values") args
  = getMetadataValues this (arg args "key").
Proof. reflexivity. Qed.

Lemma CallTool_throw (name : jsstring) (args : Arguments) (e : exn)
    (net : Network) (log : list FetchCall) :
  switch this name args = throw e ->
  CallTool this name args net log = (inr (error_result e), log).
Proof. intro H. unfold CallTool, try_catch, bind. rewrite H. reflexivity. Qed.

Lemma CallTool_request (name : jsstring) (args : Arguments)
    (path : jsstring) (options : RequestInit)
    (net : Network) (log : list FetchCall) :
  switch this name args = request this path options ->
  CallTool this name args net log
  = (inr (to_result (settle net (call_of this path options))),
     log ++ [call_of this path options]).
Proof.
  intro H. unfold CallTool, try_catch, bind. rewrite H, request_run.
  destruct (settle net _); reflexivity.
Qed.

(** The call handler always returns a result, and calls [fetch] at most
    once. *)
Lemma CallTool_cases (name : jsstring) (args : Arguments) :
  (exists e, forall net log,
      CallTool this name args net log = (inr (error_result e), log))
  \/ (exists call,
        (exists path, url call = baseUrl this ++ path
                      /\ hd_error path = Some 47%N)
        /\ forall net log,
            CallTool this name args net log
            = (inr (to_result (settle net call)), log ++ [call])).
Proof.
  destruct (single_switch name args) as [(e & H)|(path & options & Hp & H)].
  - left. exists e. intros. now apply CallTool_throw.
  - right. exists (call_of this path options). split.
    + exists path. split; [reflexivity | exact Hp].
    + intros. now apply CallTool_request.
Qed.

End Shapes.
End Dispatch.

(* ===================================================================== *)
(** * The specification, claim by claim                                   *)
(* ===================================================================== *)

Import JS Spec JSFacts Net ObsidianApiClient ObsidianMcpServer Dispatch.
Local Open Scope js_scope.

Lemma new_calls_app (log calls : list FetchCall) :
  new_calls log (log ++ calls) = calls.
Proof.
  unfold new_calls. induction log as [|c log IH]; [reflexivity | exact IH].
Qed.

Lemma new_calls_nil (log : list FetchCall) : new_calls log log = [].
Proof.
  rewrite <- (List.app_nil_r log) at 2. apply new_calls_app.
Qed.

Lemma labels_are_names (client : ObsidianApiClient.t) :
  List.map fst (cases client) = 
  [lit "list_directory"; lit "read_file"; lit "write_file"; lit "delete_item";
   lit "create_or_update_note"; lit "get_daily_note"; lit "get_recent_notes";
   lit "search_vault"; lit "find_related_notes"; lit "list_notes";
   lit "get_note"; lit "get_metadata_keys"; lit "get_metadata_values"].
Proof. reflexivity. Qed.

Lemma catalog_names :
  List.map name tools =
  [lit "list_directory"; lit "read_file"; lit "write_file"; lit "delete_item";
   lit "create_or_update_note"; lit "get_daily_note"; lit "get_recent_notes";
   lit "search_vault"; lit "find_related_notes"; lit "get_note";
   lit "list_notes"; lit "get_metadata_keys"; lit "get_metadata_values"].
Proof. reflexivity. Qed.

Lemma label_iff_name (client : ObsidianApiClient.t) (n : jsstring) :
  In n (List.map fst (cases client)) <-> In n (List.map name tools).
Proof.
  rewrite labels_are_names, catalog_names. cbn [In]. tauto.
Qed.

(** C1. The names of the catalog and the labels of the [switch] are the
    same set: a name of the catalog labels exactly one [case] clause, the
    label of every [case] clause is a name of the catalog, no name is listed
    twice in the catalog, and the [default] clause is reached exactly by
    the names outside the catalog. *)
Theorem C1_catalog_and_dispatcher_in_lockstep :
  forall (client : ObsidianApiClient.t) (n : jsstring),
    (In n (List.map name tools) ->
     List.length (filter (fun c : Case => eqb n (fst c)) (cases client)) = 1)
    /\ (In n (List.map fst (cases client)) -> In n (List.map name tools))
    /\ (select n (cases client) = None <-> ~ In n (List.map name tools))
    /\ NoDup (List.map name tools).
Proof.
  intros client n. repeat split.
  - rewrite catalog_names. cbn [In]. intro H.
    repeat (destruct H as [<-|H]; [reflexivity|]). contradiction.
  - apply label_iff_name.
  - intro H. apply select_None in H. now rewrite <- (label_iff_name client).
  - intro H. apply select_None. now rewrite (label_iff_name client).
  - rewrite catalog_names.
    repeat (constructor; [cbn [In]; intro H;
                          repeat (destruct H as [H|H]; [discriminate H|]);
                          exact H|]).
    constructor.
Qed.

Lemma C1_witness :
  List.length (filter (fun c : Case => eqb (lit "list_notes") (fst c))
                 (cases (constructor {| Config.baseUrl := lit "http://localhost:8000";
                                        Config.apiKey := None |}))) = 1.
Proof.
  apply (proj1 (C1_catalog_and_dispatcher_in_lockstep _ (lit "list_notes"))).
  rewrite catalog_names. cbn [In]. do 10 right. left. reflexivity.
Defined.

(** C3. A call whose tool name is not in the catalog returns an error
    result whose text contains the name as it was given; the handler
    returns (it does not throw) and no request is made. *)
Theorem C3_unknown_tool_is_an_error_result :
  forall (config : Config.t) (n : jsstring) (args : Arguments)
         (net : Network) (log : list FetchCall),
    ~ In n (List.map name tools) ->
    exists t,
      handle config n args net log = (inr (text_result t (Some true)), log)
      /\ contains t n.
Proof.
  intros config n args net log H.
  exists (lit "Error: " ++ lit "Unknown tool: " ++ n). split.
  - unfold handle.
    apply (@CallTool_throw _ n args (Throw Error (lit "Unknown tool: " ++ n))).
    unfold switch.
    rewrite <- (label_iff_name (constructor config)) in H.
    apply select_None in H. now rewrite H.
  - apply contains_app_r, contains_app_r, contains_refl.
Qed.

Lemma C3_witness :
  exists t,
    handle example_config (lit "not_a_real_tool") None
      (example_network 200 (lit "OK") (inr JNull)) []
    = (inr (text_result t (Some true)), [])
    /\ contains t (lit "not_a_real_tool").
Proof.
  apply C3_unknown_tool_is_an_error_result.
  rewrite catalog_names. cbn [In]. intro H.
  repeat (destruct H as [H|H]; [discriminate H|]). exact H.
Defined.

(** The handler, whatever the call: it returns a result, and the log grows
    by at most one call, whose URL is under the client's base URL. *)
Lemma handle_cases (config : Config.t) (n : jsstring) (args : Arguments) :
  (exists e, forall net log,
      handle config n args net log = (inr (error_result e), log))
  \/ (exists call,
        (exists path, url call = Config.baseUrl config ++ lit "/api" ++ path
                      /\ hd_error path = Some 47%N)
        /\ forall net log,
            handle config n args net log
            = (inr (to_result (settle net call)), log ++ [call])).
Proof.
  unfold handle.
  destruct (CallTool_cases (constructor config) n args)
    as [(e & H)|(call & (path & Hu & Hp) & H)].
  - left. now exists e.
  - right. exists call. split; [|exact H].
    exists path. split; [|exact Hp].
    rewrite Hu. cbn [constructor baseUrl]. now rewrite <- app_assoc.
Qed.

(** C4. When the response to the request of an invocation has a status
    outside 200-299, the result is an error result whose text contains the
    status code and the status text, and that request is the only one the
    invocation made. *)
Theorem C4_failed_status_is_an_error_result :
  forall (config : Config.t) (n : jsstring) (args : Arguments)
         (net : Network) (log log' : list FetchCall)
         (res : result CallToolResult) (call : FetchCall) (r : Response),
    handle config n args net log = (res, log') ->
    In call (new_calls log log') ->
    net call = Resolved r ->
    (status r < 200 \/ 299 < status r)%N ->
    new_calls log log' = [call]
    /\ exists t,
         res = inr (text_result t (Some true))
         /\ contains t (N_toString (status r))
         /\ contains t (statusText r).
Proof.
  intros config n args net log log' res call r Hrun Hin Hnet Hst.
  destruct (handle_cases config n args) as [(e & H)|(c & _ & H)];
    rewrite H in Hrun; injection Hrun as <- <-.
  - rewrite new_calls_nil in Hin. contradiction.
  - rewrite new_calls_app in Hin |- *. destruct Hin as [->|[]].
    split; [reflexivity|].
    unfold settle. rewrite Hnet.
    assert (Hok : ok r = false).
    { unfold ok. apply andb_false_iff.
      destruct Hst; [left; apply N.leb_gt | right; apply N.leb_gt]; assumption. }
    rewrite Hok. cbn [negb to_result error_result message].
    eexists. split; [reflexivity|]. split.
    + apply contains_app_r, contains_app_r, contains_app_l, contains_refl.
    + apply contains_app_r, contains_app_r, contains_app_r, contains_app_r,
        contains_refl.
Qed.

Lemma C4_witness :
  exists t,
    fst (handle example_config (lit "read_file")
           (Some [(lit "path", JStr (lit "folder/note"))])
           (example_network 404 (lit "Not Found") (inr JNull)) [])
    = inr (text_result t (Some true))
    /\ contains t (lit "404") /\ contains t (lit "Not Found").
Proof.
  destruct (@C4_failed_status_is_an_error_result example_config (lit "read_file")
              (Some [(lit "path", JStr (lit "folder/note"))])
              (example_network 404 (lit "Not Found") (inr JNull)) []
              [{| url := lit "http://localhost:8000/api/files/folder%2Fnote";
                  init := no_options;
                  Net.headers := [(lit "Content-Type", lit "application/json");
                                  (lit "Accept", lit "application/json")] |}]
              (inr (text_result (lit "Error: API request failed: 404 Not Found")
                      (Some true)))
              {| url := lit "http://localhost:8000/api/files/folder%2Fnote";
                 init := no_options;
                 Net.headers := [(lit "Content-Type", lit "application/json");
                                 (lit "Accept", lit "application/json")] |}
              {| status := 404; statusText := lit "Not Found";
                 json_body := inr JNull |})
    as (_ & t & Ht & H1 & H2).
  - vm_compute. reflexivity.
  - left. reflexivity.
  - reflexivity.
  - right. reflexivity.
  - exists t. repeat split; [|exact H1|exact H2].
    vm_compute. vm_compute in Ht. exact Ht.
Defined.

(** C9. [list_notes] with the empty string as [search] does what it does
    with no [search] at all: one [GET] of the plain listing, [/notes]. *)
Theorem C9_empty_search_lists_notes :
  forall (config : Config.t) (args : Arguments)
         (net : Network) (log : list FetchCall),
    arg args "search" = Some (JStr []) ->
    handle config (lit "list_notes") args net log
    = handle config (lit "list_notes") None net log
    /\ exists call,
         snd (handle config (lit "list_notes") args net log) = log ++ [call]
         /\ url call = Config.baseUrl config ++ lit "/api" ++ lit "/notes"
         /\ effective_method call = lit "GET".
Proof.
  intros config args net log H.
  assert (E : forall a, truthy (arg a "search") = false ->
            switch (constructor config) (lit "list_notes") a
            = request (constructor config) (lit "/notes") no_options).
  { intros a Ha. rewrite switch_list_notes, Ha. reflexivity. }
  unfold handle.
  rewrite (@CallTool_request _ _ args (lit "/notes") no_options net log)
    by (apply E; now rewrite H).
  rewrite (@CallTool_request _ _ None (lit "/notes") no_options net log)
    by (apply E; reflexivity).
  split; [reflexivity|].
  eexists. split; [reflexivity|]. split; [|reflexivity].
  cbn [call_of url constructor baseUrl]. now rewrite <- app_assoc.
Qed.

Lemma C9_witness :
  exists call,
    snd (handle example_config (lit "list_notes")
           (Some [(lit "search", JStr [])])
           (example_network 200 (lit "OK") (inr (JArr []))) [])
    = [] ++ [call]
    /\ url call = Config.baseUrl example_config ++ lit "/api" ++ lit "/notes"
    /\ effective_method call = lit "GET".
Proof.
  apply (C9_empty_search_lists_notes example_config
           (Some [(lit "search", JStr [])])
           (example_network 200 (lit "OK") (inr (JArr []))) []).
  reflexivity.
Defined.

(** C10. The client's base URL is the configured one followed by [/api];
    [request] prepends it to the path it is given; every method of the
    client either throws before any request or is one call of [request] on
    a path that starts with [/]; so every request of every tool invocation
    goes to the configured base URL, then [/api], then an endpoint path. *)
Theorem C10_every_request_goes_under_api :
  forall (config : Config.t),
    baseUrl (constructor config) = Config.baseUrl config ++ lit "/api"
    /\ (forall (path : jsstring) (options : RequestInit)
               (net : Network) (log : list FetchCall),
          exists call,
            snd (request (constructor config) path options net log)
            = log ++ [call]
            /\ url call = Config.baseUrl config ++ lit "/api" ++ path)
    /\ (forall a b c d : value,
          Forall (single_request (constructor config))
            (operations (constructor config) a b c d))
    /\ (forall (n : jsstring) (args : Arguments)
               (net : Network) (log : list FetchCall),
          Forall (fun call =>
                    exists path,
                      url call = Config.baseUrl config ++ lit "/api" ++ path
                      /\ hd_error path = Some 47%N)
            (new_calls log (snd (handle config n args net log)))).
Proof.
  intro config. split; [reflexivity|]. split; [|split].
  - intros path options net log. rewrite request_run. cbn [snd].
    eexists. split; [reflexivity|].
    cbn [call_of url constructor baseUrl]. now rewrite <- app_assoc.
  - intros a b c d. apply single_operations.
  - intros n args net log.
    destruct (handle_cases config n args) as [(e & H)|(c & Hc & H)];
      rewrite H; cbn [snd].
    + rewrite new_calls_nil. constructor.
    + rewrite new_calls_app. constructor; [exact Hc | constructor].
Qed.

(** *** [list_notes] *)

Lemma searchVault_string (this : ObsidianApiClient.t) (q : jsstring) (scope : value) :
  scope = undefined \/ scope = Some default_scope ->
  searchVault this (Some (JStr q)) scope undefined
  = request this
      (lit "/vault/search?"
         ++ URLSearchParams_toString
              [(lit "query", ToUSVString q);
               (lit "scope", lit "content,filename,tags")])
      no_options.
Proof. intros [->| ->]; reflexivity. Qed.

Lemma search_query_text (q : jsstring) :
  lit "/api" ++ lit "/vault/search?"
    ++ URLSearchParams_toString
         [(lit "query", q); (lit "scope", lit "content,filename,tags")]
  = lit "/api/vault/search?query=" ++ form_urlencode q
      ++ lit "&scope=content%2Cfilename%2Ctags".
Proof.
  unfold URLSearchParams_toString. cbn [List.map join fst snd].
  rewrite <- !app_assoc. reflexivity.
Qed.

Lemma base_api_path (config : Config.t) (path : jsstring) :
  baseUrl (constructor config) ++ path
  = Config.baseUrl config ++ lit "/api" ++ path.
Proof. cbn [constructor baseUrl]. now rewrite <- app_assoc. Qed.

(** C2 (amended).  [list_notes] with a non-empty string as
    [search] makes one [GET] of [/vault/search], with the parameters
    [query] (the string) and [scope] ([content,filename,tags], whose comma
    the query string carries percent-encoded); [list_notes] with no
    [search] makes one [GET] of [/notes]. *)
Theorem C2_list_notes_redirects_a_nonempty_search :
  forall (config : Config.t) (args : Arguments)
         (net : Network) (log : list FetchCall),
    (forall q : jsstring,
        q <> [] -> arg args "search" = Some (JStr q) ->
        exists call,
          snd (handle config (lit "list_notes") args net log) = log ++ [call]
          /\ effective_method call = lit "GET"
          /\ url call
             = Config.baseUrl config ++ lit "/api" ++ lit "/vault/search?"
                 ++ URLSearchParams_toString
                      [(lit "query", ToUSVString q);
                       (lit "scope", lit "content,filename,tags")]
          /\ url call
             = Config.baseUrl config ++ lit "/api/vault/search?query="
                 ++ form_urlencode (ToUSVString q)
                 ++ lit "&scope=content%2Cfilename%2Ctags")
    /\ (arg args "search" = undefined ->
        exists call,
          snd (handle config (lit "list_notes") args net log) = log ++ [call]
          /\ effective_method call = lit "GET"
          /\ url call = Config.baseUrl config ++ lit "/api" ++ lit "/notes").
Proof.
  intros config args net log. split.
  - intros q Hq H. unfold handle.
    erewrite CallTool_request.
    2:{ rewrite switch_list_notes, H.
        destruct q as [|c q]; [contradiction|]. cbn [truthy].
        apply searchVault_string. now right. }
    cbn [snd]. eexists. split; [reflexivity|]. split; [reflexivity|].
    cbn [call_of url]. rewrite base_api_path. split; [reflexivity|].
    now rewrite search_query_text.
  - intro H. unfold handle.
    erewrite CallTool_request.
    2:{ rewrite switch_list_notes, H. reflexivity. }
    cbn [snd]. eexists. split; [reflexivity|]. split; [reflexivity|].
    cbn [call_of url]. now rewrite base_api_path.
Qed.

Lemma C2_witness :
  exists call,
    snd (handle example_config (lit "list_notes")
           (Some [(lit "search", JStr (lit "meeting notes"))])
           (example_network 200 (lit "OK") (inr (JArr []))) [])
    = [] ++ [call]
    /\ effective_method call = lit "GET"
    /\ url call
       = lit "http://localhost:8000/api/vault/search?query=meeting+notes&scope=content%2Cfilename%2Ctags".
Proof.
  destruct (C2_list_notes_redirects_a_nonempty_search example_config
              (Some [(lit "search", JStr (lit "meeting notes"))])
              (example_network 200 (lit "OK") (inr (JArr []))) [])
    as [H _].
  destruct (H (lit "meeting notes")) as (call & H1 & H2 & _ & H3).
  - discriminate.
  - reflexivity.
  - exists call. split; [exact H1|]. split; [exact H2|].
    rewrite H3. vm_compute. reflexivity.
Defined.

(** The claim as the specification words it fails on the empty string: a
    [search] argument is supplied, it is a string, and the request goes to
    [/notes], not to [/vault/search]. *)
Lemma C2_counterexample :
  arg (Some [(lit "search", JStr (lit ""))]) "search" = Some (JStr (lit ""))
  /\ exists call,
       snd (handle example_config (lit "list_notes")
              (Some [(lit "search", JStr (lit ""))])
              (example_network 200 (lit "OK") (inr (JArr []))) [])
       = [call]
       /\ effective_method call = lit "GET"
       /\ url call = lit "http://localhost:8000/api/notes"
       /\ url call
          <> lit "http://localhost:8000/api/vault/search?query=&scope=content%2Cfilename%2Ctags".
Proof.
  split; [reflexivity|].
  eexists. split; [vm_compute; reflexivity|].
  split; [reflexivity|]. split; [vm_compute; reflexivity|].
  vm_compute. discriminate.
Qed.

(** *** Path segments *)

Lemma hex_upper_unescaped (d : N) : uri_unescaped (hex_upper d) = true.
Proof.
  unfold hex_upper.
  assert (H : (N.land d 0xF < 16)%N).
  { change 0xF%N with (N.ones 4). rewrite N.land_ones. now apply N.mod_lt. }
  set (x := N.land d 0xF) in *. clearbody x.
  destruct x as [|p]; [reflexivity|].
  do 4 (destruct p as [p|p|]; try reflexivity; try (exfalso; lia)).
Qed.

Lemma percent_segment (b : N) : forallb segment_unit (percent b) = true.
Proof.
  unfold percent. cbn [forallb]. unfold segment_unit at 2 3.
  now rewrite !hex_upper_unescaped.
Qed.

Lemma forallb_flat_map (A B : Type) (p : B -> bool) (f : A -> list B) (l : list A) :
  (forall a, forallb p (f a) = true) -> forallb p (flat_map f l) = true.
Proof.
  intro H. induction l as [|a l IH]; [reflexivity|].
  cbn [flat_map]. now rewrite forallb_app, H, IH.
Qed.

Lemma encodeURIComponent_segment (s seg : jsstring) :
  encodeURIComponent_string s = inr seg ->
  forallb segment_unit seg = true /\ ~ In 47%N seg.
Proof.
  unfold encodeURIComponent_string. destruct (isWellFormed s); [|discriminate].
  intros [= <-].
  assert (H : forallb segment_unit
                (flat_map (fun cp => if uri_unescaped cp then [cp]
                                     else flat_map percent (utf8 cp))
                   (scalar_values s)) = true).
  { apply forallb_flat_map. intro cp. destruct (uri_unescaped cp) eqn:E.
    - cbn [forallb]. unfold segment_unit. now rewrite E.
    - apply forallb_flat_map. apply percent_segment. }
  split; [exact H|].
  intro Hin. rewrite forallb_forall in H. specialize (H _ Hin). discriminate H.
Qed.

Lemma encodeURIComponent_defined (s : jsstring) :
  isWellFormed s = true -> exists seg, encodeURIComponent_string s = inr seg.
Proof.
  intro H. unfold encodeURIComponent_string. rewrite H. eexists. reflexivity.
Qed.

Lemma path_tool_switch (this : ObsidianApiClient.t) (tool prefix : string)
    (args : Arguments) :
  In (tool, prefix) path_tools ->
  exists options,
    switch this (lit tool) args
    = (p <- lift (encodeURIComponent (arg args "path")) ;;
       request this (lit prefix ++ p) options).
Proof.
  unfold path_tools. cbn [In]. intros [H|[H|[H|[]]]]; injection H as <- <-.
  - exists no_options. reflexivity.
  - eexists. reflexivity.
  - exists no_options. reflexivity.
Qed.

(** C6. For [read_file], [delete_item] and [get_note], every request of
    the invocation has the path [/files/] (or [/notes/]) followed by
    [encodeURIComponent(path)], which holds no [/]: the vault path is one
    segment.  A well-formed path always gives such a request (a path with
    an unpaired surrogate makes [encodeURIComponent] throw, and no request
    is made). *)
Theorem C6_vault_path_is_one_segment :
  forall (config : Config.t) (tool prefix : string) (args : Arguments)
         (p : jsstring) (net : Network) (log : list FetchCall),
    In (tool, prefix) path_tools ->
    arg args "path" = Some (JStr p) ->
    (forall call,
        In call (new_calls log (snd (handle config (lit tool) args net log))) ->
        exists seg,
          encodeURIComponent_string p = inr seg
          /\ url call = Config.baseUrl config ++ lit "/api" ++ lit prefix ++ seg
          /\ forallb segment_unit seg = true
          /\ ~ In 47%N seg)
    /\ (isWellFormed p = true ->
        exists call,
          new_calls log (snd (handle config (lit tool) args net log)) = [call]).
Proof.
  intros config tool prefix args p net log Htool Hp.
  destruct (@path_tool_switch (constructor config) tool prefix args Htool)
    as (options & Hsw).
  rewrite Hp in Hsw. cbn [encodeURIComponent ToString ToString_json bindR] in Hsw.
  unfold handle.
  destruct (encodeURIComponent_string p) as [e|seg] eqn:E.
  - rewrite (@CallTool_throw _ (lit tool) args e net log Hsw). cbn [snd].
    rewrite new_calls_nil. split; [intros call []|].
    intro Hwf. destruct (encodeURIComponent_defined p Hwf) as (seg & Hseg).
    congruence.
  - rewrite (@CallTool_request _ (lit tool) args (lit prefix ++ seg) options net log Hsw).
    cbn [snd]. rewrite new_calls_app. split.
    + intros call [<-|[]]. exists seg.
      destruct (encodeURIComponent_segment p E) as [H1 H2].
      repeat split; try assumption.
      cbn [call_of url]. apply base_api_path.
    + intros _. eexists. reflexivity.
Qed.

Lemma C6_witness :
  exists call,
    new_calls [] (snd (handle example_config (lit "read_file")
                         (Some [(lit "path", JStr (lit "folder/note"))])
                         (example_network 200 (lit "OK") (inr JNull)) []))
    = [call]
    /\ url call = lit "http://localhost:8000/api/files/folder%2Fnote".
Proof.
  destruct (@C6_vault_path_is_one_segment example_config "read_file" "/files/"
              (Some [(lit "path", JStr (lit "folder/note"))])
              (lit "folder/note")
              (example_network 200 (lit "OK") (inr JNull)) [])
    as [H1 H2].
  - left. reflexivity.
  - reflexivity.
  - destruct (H2 eq_refl) as (call & Hc). exists call. split; [exact Hc|].
    destruct (H1 call) as (seg & Hs & Hu & _).
    + rewrite Hc. left. reflexivity.
    + rewrite Hu. vm_compute in Hs. injection Hs as <-. vm_compute. reflexivity.
Defined.

(** *** Defaults *)

Lemma get_app (o d : list (jsstring * json)) (k : jsstring) :
  get (o ++ d) k = match get o k with Some v => Some v | None => get d k end.
Proof.
  induction o as [|[k' v] o IH]; [reflexivity|].
  cbn [app get]. destruct (eqb k k'); [reflexivity | exact IH].
Qed.

Lemma arg_with_defaults (t : ToolDefinition) (args : Arguments) (k : string) :
  arg (with_defaults t args) k
  = match arg args k with
    | Some v => Some v
    | None => get (declared_defaults t) (lit k)
    end.
Proof.
  unfold with_defaults, arg. rewrite get_app. destruct args; reflexivity.
Qed.

Lemma CallTool_switch_ext (this : ObsidianApiClient.t) (n : jsstring)
    (args args' : Arguments) :
  switch this n args = switch this n args' ->
  CallTool this n args = CallTool this n args'.
Proof. intro H. unfold CallTool. now rewrite H. Qed.

Lemma sends_intro (config : Config.t) (n : string) (args : Arguments)
    (net : Network) (log : list FetchCall) (m : string) (path : jsstring)
    (options : RequestInit) :
  switch (constructor config) (lit n) args
  = request (constructor config) path options ->
  match method options with Some x => x | None => lit "GET" end = lit m ->
  sends config n args net log m path (body options).
Proof.
  intros Hsw Hm. unfold sends, handle.
  rewrite (@CallTool_request _ (lit n) args path options net log Hsw).
  cbn [snd]. eexists. split; [reflexivity|].
  split; [exact Hm|]. split; [|reflexivity].
  cbn [call_of url]. apply base_api_path.
Qed.

Lemma omitted_is_default (config : Config.t) (t : ToolDefinition) (args : Arguments) :
  In t tools ->
  (forall k d, In (lit k, d) (declared_defaults t) -> arg args k = undefined) ->
  handle config (name t) args = handle config (name t) (with_defaults t args).
Proof.
  intros Ht Hd. unfold handle. apply CallTool_switch_ext.
  unfold tools in Ht. cbn [In] in Ht.
  repeat (destruct Ht as [<-|Ht]); try contradiction; cbn [name].
  - rewrite !switch_list_directory, !arg_with_defaults.
    rewrite (Hd "path"%string (JStr (lit "."))) by (cbn; tauto).
    rewrite (Hd "recursive"%string (JBool false)) by (cbn; tauto).
    rewrite (Hd "limit"%string (JNum 50)) by (cbn; tauto).
    rewrite (Hd "offset"%string (JNum 0)) by (cbn; tauto).
    reflexivity.
  - rewrite !switch_read_file, !arg_with_defaults.
    destruct (arg args "path"); reflexivity.
  - rewrite !switch_write_file, !arg_with_defaults.
    rewrite (Hd "mode"%string (JStr (lit "overwrite"))) by (cbn; tauto).
    destruct (arg args "path"), (arg args "content"); reflexivity.
  - rewrite !switch_delete_item, !arg_with_defaults.
    destruct (arg args "path"); reflexivity.
  - rewrite !switch_create_or_update_note, !arg_with_defaults.
    rewrite (Hd "frontmatter"%string (JObj [])) by (cbn; tauto).
    destruct (arg args "path"), (arg args "content"); reflexivity.
  - rewrite !switch_get_daily_note, !arg_with_defaults.
    rewrite (Hd "date"%string (JStr (lit "today"))) by (cbn; tauto). reflexivity.
  - rewrite !switch_get_recent_notes, !arg_with_defaults.
    rewrite (Hd "limit"%string (JNum 5)) by (cbn; tauto). reflexivity.
  - rewrite !switch_search_vault, !arg_with_defaults.
    rewrite (Hd "scope"%string default_scope) by (cbn; tauto).
    destruct (arg args "query"), (arg args "path_filter"); reflexivity.
  - rewrite !switch_find_related_notes, !arg_with_defaults.
    rewrite (Hd "on"%string (JArr [JStr (lit "tags"); JStr (lit "links")])) by (cbn; tauto).
    destruct (arg args "path"); reflexivity.
  - rewrite !switch_get_note, !arg_with_defaults.
    destruct (arg args "path"); reflexivity.
  - rewrite !switch_list_notes, !arg_with_defaults.
    destruct (arg args "search"); reflexivity.
  - reflexivity.
  - rewrite !switch_get_metadata_values, !arg_with_defaults.
    destruct (arg args "key"); reflexivity.
Qed.

(** C5. A call that leaves out the arguments for which the catalog
    declares a default does what the call with those defaults written out
    does; and the requests are the documented ones: [write_file] sends
    [mode: "overwrite"], [get_recent_notes] asks [limit=5],
    [list_directory] asks [path=.], [recursive=false], [limit=50],
    [offset=0], [get_daily_note] asks [date=today], [search_vault] asks
    the scope [content,filename,tags], [create_or_update_note] sends the
    empty object as [front_matter] and [find_related_notes] asks
    [on=tags,links]. *)
Theorem C5_omitted_arguments_take_the_declared_defaults :
  forall (config : Config.t) (args : Arguments)
         (net : Network) (log : list FetchCall),
    (forall t : ToolDefinition,
        In t tools ->
        (forall k d, In (lit k, d) (declared_defaults t) ->
                     arg args k = undefined) ->
        handle config (name t) args net log
        = handle config (name t) (with_defaults t args) net log)
    /\ (arg args "mode" = undefined ->
        sends config "write_file" args net log "POST" (lit "/files/write")
          (Some (JSON_stringify
                   (JObj (defined_props
                            [(lit "path", arg args "path");
                             (lit "content", arg args "content");
                             (lit "mode", Some (JStr (lit "overwrite")))])))))
    /\ (arg args "limit" = undefined ->
        sends config "get_recent_notes" args net log "GET"
          (lit "/vault/notes/recent?limit=5") None)
    /\ (arg args "path" = undefined -> arg args "recursive" = undefined ->
        arg args "limit" = undefined -> arg args "offset" = undefined ->
        sends config "list_directory" args net log "GET"
          (lit "/vault/directory?path=.&recursive=false&limit=50&offset=0") None)
    /\ (arg args "date" = undefined ->
        sends config "get_daily_note" args net log "GET"
          (lit "/vault/notes/daily?date=today") None)
    /\ (forall q : jsstring,
          arg args "query" = Some (JStr q) ->
          arg args "scope" = undefined -> arg args "path_filter" = undefined ->
          sends config "search_vault" args net log "GET"
            (lit "/vault/search?query=" ++ form_urlencode (ToUSVString q)
               ++ lit "&scope=content%2Cfilename%2Ctags") None)
    /\ (arg args "frontmatter" = undefined ->
        sends config "create_or_update_note" args net log "POST"
          (lit "/notes/upsert")
          (Some (JSON_stringify
                   (JObj (defined_props
                            [(lit "path", arg args "path");
                             (lit "content", arg args "content");
                             (lit "front_matter", Some (JObj []))])))))
    /\ (forall p seg : jsstring,
          arg args "path" = Some (JStr p) ->
          encodeURIComponent_string p = inr seg ->
          arg args "on" = undefined ->
          sends config "find_related_notes" args net log "GET"
            (lit "/vault/notes/related/" ++ seg ++ lit "?on=tags%2Clinks")
            None).
Proof.
  intros config args net log.
  split; [|split; [|split; [|split; [|split; [|split; [|split]]]]]].
  - intros t Ht Hd. now rewrite (@omitted_is_default config t args Ht Hd).
  - intro H.
    apply (@sends_intro config "write_file" args net log "POST" (lit "/files/write")
             {| method := Some (lit "POST");
                body := Some (JSON_stringify_literal
                                [(lit "path", arg args "path");
                                 (lit "content", arg args "content");
                                 (lit "mode", Some (JStr (lit "overwrite")))]) |});
      [|reflexivity].
    rewrite switch_write_file, H. reflexivity.
  - intro H.
    apply (@sends_intro config "get_recent_notes" args net log "GET" _ no_options);
      [|reflexivity].
    rewrite switch_get_recent_notes, H. reflexivity.
  - intros H1 H2 H3 H4.
    apply (@sends_intro config "list_directory" args net log "GET" _ no_options);
      [|reflexivity].
    rewrite switch_list_directory, H1, H2, H3, H4. reflexivity.
  - intro H.
    apply (@sends_intro config "get_daily_note" args net log "GET" _ no_options);
      [|reflexivity].
    rewrite switch_get_daily_note, H. reflexivity.
  - intros q H1 H2 H3.
    apply (@sends_intro config "search_vault" args net log "GET" _ no_options);
      [|reflexivity].
    rewrite switch_search_vault, H1, H2, H3.
    rewrite searchVault_string by now left.
    reflexivity.
  - intro H.
    apply (@sends_intro config "create_or_update_note" args net log "POST"
             (lit "/notes/upsert")
             {| method := Some (lit "POST");
                body := Some (JSON_stringify_literal
                                [(lit "path", arg args "path");
                                 (lit "content", arg args "content");
                                 (lit "front_matter", Some (JObj []))]) |});
      [|reflexivity].
    rewrite switch_create_or_update_note, H. reflexivity.
  - intros p seg H1 H2 H3.
    apply (@sends_intro config "find_related_notes" args net log "GET" _
             no_options); [|reflexivity].
    rewrite switch_find_related_notes, H1, H3.
    unfold findRelatedNotes, encodeURIComponent.
    cbn [default_to call_join join_elems ToString_json ToString bindR lift bind
         ret].
    rewrite H2. reflexivity.
Qed.

Lemma C5_witness :
  sends example_config "write_file"
    (Some [(lit "path", JStr (lit "a.md")); (lit "content", JStr (lit "hi"))])
    (example_network 200 (lit "OK") (inr JNull)) []
    "POST" (lit "/files/write")
    (Some (JSON_stringify
             (JObj [(lit "path", JStr (lit "a.md"));
                    (lit "content", JStr (lit "hi"));
                    (lit "mode", JStr (lit "overwrite"))])))
  /\ sends example_config "get_recent_notes" None
       (example_network 200 (lit "OK") (inr JNull)) []
       "GET" (lit "/vault/notes/recent?limit=5") None
  /\ sends example_config "find_related_notes"
       (Some [(lit "path", JStr (lit "Projects/plan.md"))])
       (example_network 200 (lit "OK") (inr JNull)) []
       "GET" (lit "/vault/notes/related/Projects%2Fplan.md?on=tags%2Clinks")
       None.
Proof.
  split; [|split].
  - apply (proj1 (proj2 (C5_omitted_arguments_take_the_declared_defaults
                           example_config
                           (Some [(lit "path", JStr (lit "a.md"));
                                  (lit "content", JStr (lit "hi"))])
                           (example_network 200 (lit "OK") (inr JNull)) []))).
    reflexivity.
  - apply (proj1 (proj2 (proj2 (C5_omitted_arguments_take_the_declared_defaults
                                  example_config None
                                  (example_network 200 (lit "OK") (inr JNull)) [])))).
    reflexivity.
  - apply (proj2 (proj2 (proj2 (proj2 (proj2 (proj2 (proj2
             (C5_omitted_arguments_take_the_declared_defaults
                example_config
                (Some [(lit "path", JStr (lit "Projects/plan.md"))])
                (example_network 200 (lit "OK") (inr JNull)) [])))))))
             (lit "Projects/plan.md") (lit "Projects%2Fplan.md"));
      reflexivity.
Defined.

(** C7 (amended).  When the request of a [get_daily_note] invocation is
    answered with a success status and a JSON value, the result is a
    success result with one text block, and [JSON.parse] on that text
    gives the value back where its numbers are finite and not the negative
    zero; of any value it gives [read_back]: an infinite number (what a
    response such as [1e999] holds) comes back as [null], and the negative
    zero as [0]. *)
Theorem C7_daily_note_round_trip :
  forall (config : Config.t) (args : Arguments)
         (net : Network) (log log' : list FetchCall)
         (res : result CallToolResult) (call : FetchCall) (r : Response)
         (v : json),
    handle config (lit "get_daily_note") args net log = (res, log') ->
    In call (new_calls log log') ->
    net call = Resolved r -> ok r = true -> json_body r = inr v ->
    json_value v = true ->
    exists t,
      res = inr (text_result t None)
      /\ JSON_parse t = Some (read_back v)
      /\ (json_writable v = true -> JSON_parse t = Some v).
Proof.
  intros config args net log log' res call r v Hrun Hin Hnet Hok Hbody Hv.
  destruct (handle_cases config (lit "get_daily_note") args)
    as [(e & H)|(c & _ & H)]; rewrite H in Hrun; injection Hrun as <- <-.
  - rewrite new_calls_nil in Hin. contradiction.
  - rewrite new_calls_app in Hin. destruct Hin as [->|[]].
    unfold settle. rewrite Hnet, Hok, Hbody. cbn [negb to_result].
    exists (JSON_stringify_2 v). split; [reflexivity|]. split.
    + now apply JSONParse.JSON_parse_serialize_value.
    + now apply JSONParse.JSON_parse_serialize_writable.
Qed.

Lemma C7_witness :
  exists t,
    fst (handle example_config (lit "get_daily_note") None
           (example_network 200 (lit "OK") (inr example_measures)) [])
    = inr (text_result t None)
    /\ JSON_parse t = Some example_measures.
Proof.
  destruct (@C7_daily_note_round_trip example_config None
              (example_network 200 (lit "OK") (inr example_measures)) []
              [{| url := lit "http://localhost:8000/api/vault/notes/daily?date=today";
                  init := no_options;
                  Net.headers := [(lit "Content-Type", lit "application/json");
                                  (lit "Accept", lit "application/json")] |}]
              (inr (text_result (JSON_stringify_2 example_measures) None))
              {| url := lit "http://localhost:8000/api/vault/notes/daily?date=today";
                 init := no_options;
                 Net.headers := [(lit "Content-Type", lit "application/json");
                                 (lit "Accept", lit "application/json")] |}
              {| status := 200; statusText := lit "OK";
                 json_body := inr example_measures |}
              example_measures)
    as (t & Ht & _ & Hp).
  - vm_compute. reflexivity.
  - left. reflexivity.
  - reflexivity.
  - reflexivity.
  - reflexivity.
  - vm_compute. reflexivity.
  - exists t. split; [|apply Hp; vm_compute; reflexivity].
    injection Ht as Ht. vm_compute. unfold text_result. rewrite <- Ht.
    vm_compute. reflexivity.
Defined.

(** The claim without the proviso fails: the body [1e999] is JSON, its
    value is the Number [Infinity], the text of the result is [null], and
    [null] is what parsing it gives. *)
Lemma C7_counterexample :
  JSON_parse (lit "1e999") = Some (JFloat (Infinite false))
  /\ fst (handle example_config (lit "get_daily_note") None
            (example_network 200 (lit "OK") (inr (JFloat (Infinite false)))) [])
     = inr (text_result (lit "null") None)
  /\ JSON_parse (lit "null") = Some JNull
  /\ JSON_parse (lit "null") <> Some (JFloat (Infinite false)).
Proof.
  split; [vm_compute; reflexivity|].
  split; [vm_compute; reflexivity|].
  split; [reflexivity | discriminate].
Qed.

(** *** The bodies of the legacy note operations *)

(** The fields of an object literal that [JSON.stringify] keeps are the
    ones that hold a value. *)
Lemma defined_props_keys (fields : list (jsstring * value)) (k : jsstring) :
  In k (List.map fst (defined_props fields)) ->
  exists v, In (k, Some v) fields.
Proof.
  induction fields as [|[k' [v|]] fields IH]; cbn [defined_props List.map fst In].
  - intros [].
  - intros [<-|H]; [exists v; now left|].
    destruct (IH H) as (w & Hw). exists w. now right.
  - intro H. destruct (IH H) as (w & Hw). exists w. now right.
Qed.

Lemma createNote_run (this : ObsidianApiClient.t) (path content frontmatter : value)
    (net : Network) (log : list FetchCall) :
  snd (createNote this path content frontmatter net log)
  = log ++ [call_of this (lit "/notes")
              {| method := Some (lit "POST");
                 body := Some (JSON_stringify_literal
                                 (createNote_body path content frontmatter)) |}].
Proof. unfold createNote. now rewrite request_run. Qed.

Lemma updateNote_calls (this : ObsidianApiClient.t) (path content frontmatter : value)
    (net : Network) (log : list FetchCall) (call : FetchCall) :
  In call (new_calls log (snd (updateNote this path content frontmatter net log))) ->
  effective_method call = lit "PATCH"
  /\ body (init call)
     = Some (JSON_stringify_literal (updateNote_body content frontmatter)).
Proof.
  unfold updateNote, bind.
  destruct (encodeURIComponent path) as [e|p]; cbn [lift throw ret snd].
  - rewrite new_calls_nil. intros [].
  - rewrite request_run. cbn [snd]. rewrite new_calls_app.
    intros [<-|[]]. split; reflexivity.
Qed.

(** C8. The bodies of [createNote] and [updateNote] hold only the fields
    that were supplied: [updateNote] with only a path sends [{}];
    [createNote] without [frontmatter] sends the object of [path] and
    [content], with no [frontmatter] key; and in general a key of the body
    sent is the name of a parameter that was given a value. *)
Theorem C8_note_bodies_hold_only_supplied_fields :
  forall (this : ObsidianApiClient.t) (path content frontmatter : value)
         (net : Network) (log : list FetchCall),
    (forall call,
        In call (new_calls log (snd (updateNote this path undefined undefined net log))) ->
        body (init call) = Some (lit "{}"))
    /\ (exists call,
          snd (createNote this path content undefined net log) = log ++ [call]
          /\ body (init call)
             = Some (JSON_stringify
                       (JObj (defined_props [(lit "path", path);
                                             (lit "content", content)]))))
    /\ (forall call,
          In call (new_calls log
                     (snd (updateNote this path content frontmatter net log))) ->
          exists o,
            body (init call) = Some (JSON_stringify (JObj o))
            /\ forall k, In k (List.map fst o) ->
                 (k = lit "content" /\ content <> undefined)
                 \/ (k = lit "frontmatter" /\ frontmatter <> undefined))
    /\ (forall call,
          In call (new_calls log
                     (snd (createNote this path content frontmatter net log))) ->
          exists o,
            body (init call) = Some (JSON_stringify (JObj o))
            /\ forall k, In k (List.map fst o) ->
                 (k = lit "path" /\ path <> undefined)
                 \/ (k = lit "content" /\ content <> undefined)
                 \/ (k = lit "frontmatter" /\ frontmatter <> undefined)).
Proof.
  intros this path content frontmatter net log. repeat split.
  - intros call H. now apply updateNote_calls in H as [_ ->].
  - rewrite createNote_run. eexists. split; reflexivity.
  - intros call H. apply updateNote_calls in H as [_ ->].
    eexists. split; [reflexivity|].
    intros k Hk. apply defined_props_keys in Hk as (v & Hv).
    unfold updateNote_body in Hv. apply in_app_or in Hv as [Hv|Hv].
    + left. destruct content; [|contradiction].
      destruct Hv as [[= <- _]|[]]. split; [reflexivity | discriminate].
    + right. destruct frontmatter; [|contradiction].
      destruct Hv as [[= <- _]|[]]. split; [reflexivity | discriminate].
  - intros call H. rewrite createNote_run, new_calls_app in H.
    destruct H as [<-|[]]. eexists. split; [reflexivity|].
    intros k Hk. apply defined_props_keys in Hk as (v & Hv).
    unfold createNote_body in Hv. apply in_app_or in Hv as [Hv|Hv].
    + destruct Hv as [[= <- Hp]|[[= <- Hc]|[]]].
      * left. split; [reflexivity | rewrite Hp; discriminate].
      * right. left. split; [reflexivity | rewrite Hc; discriminate].
    + right. right. destruct (truthy frontmatter); [|contradiction].
      destruct Hv as [[= <- Hf]|[]]. split; [reflexivity | rewrite Hf; discriminate].
Qed.

Lemma C8_witness :
  In example_patch
    (new_calls []
       (snd (updateNote (constructor example_config)
               (Some (JStr (lit "Projects/plan"))) undefined undefined
               (example_network 200 (lit "OK") (inr JNull)) [])))
  /\ body (init example_patch) = Some (lit "{}").
Proof.
  assert (H : In example_patch
                (new_calls []
                   (snd (updateNote (constructor example_config)
                           (Some (JStr (lit "Projects/plan"))) undefined undefined
                           (example_network 200 (lit "OK") (inr JNull)) []))))
    by (vm_compute; left; reflexivity).
  split; [exact H|].
  exact (proj1 (C8_note_bodies_hold_only_supplied_fields
                  (constructor example_config)
                  (Some (JStr (lit "Projects/plan"))) undefined undefined
                  (example_network 200 (lit "OK") (inr JNull)) [])
           example_patch H).
Defined.

(* ===================================================================== *)
(** * The rest of the program: further properties                         *)
(* ===================================================================== *)

Import SpecX.

(** ** The call handler, whatever the tool *)

Lemma handle_shape (config : Config.t) (n : jsstring) (args : Arguments) :
  (exists e, forall net log,
      handle config n args net log = (inr (error_result e), log))
  \/ (exists path options,
        hd_error path = Some 47%N
        /\ switch (constructor config) n args
           = request (constructor config) path options
        /\ forall net log,
            handle config n args net log
            = (inr (to_result (settle net (call_of (constructor config) path options))),
               log ++ [call_of (constructor config) path options])).
Proof.
  unfold handle.
  destruct (single_switch (constructor config) n args)
    as [(e & H)|(path & options & Hp & H)].
  - left. exists e. intros. now apply CallTool_throw.
  - right. exists path, options. split; [exact Hp|]. split; [exact H|].
    intros. now apply CallTool_request.
Qed.

Lemma constructor_headers (config : Config.t) :
  ObsidianApiClient.headers (constructor config)
  = [(lit "Content-Type", lit "application/json");
     (lit "Accept", lit "application/json")] ++ authorization config.
Proof.
  unfold constructor, authorization. cbn [ObsidianApiClient.headers].
  destruct (Config.apiKey config) as [[|c key]|]; reflexivity.
Qed.

(** X1. Every request of every tool invocation carries [Content-Type] and
    [Accept], both [application/json], and then [Authorization: Bearer]
    with the key exactly when the configured key is a non-empty string. *)
Theorem every_request_carries_the_client_headers :
  forall (config : Config.t) (n : jsstring) (args : Arguments)
         (net : Network) (log : list FetchCall) (call : FetchCall),
    In call (new_calls log (snd (handle config n args net log))) ->
    Net.headers call
    = [(lit "Content-Type", lit "application/json");
       (lit "Accept", lit "application/json")] ++ authorization config.
Proof.
  intros config n args net log call.
  destruct (handle_shape config n args) as [(e & H)|(path & options & _ & _ & H)];
    rewrite H; cbn [snd].
  - rewrite new_calls_nil. intros [].
  - rewrite new_calls_app. intros [<-|[]]. apply constructor_headers.
Qed.

Lemma every_request_carries_the_client_headers_witness :
  Net.headers
    {| url := lit "http://localhost:8000/api/notes";
       init := no_options;
       Net.headers := [(lit "Content-Type", lit "application/json");
                       (lit "Accept", lit "application/json");
                       (lit "Authorization", lit "Bearer s3cret")] |}
  = [(lit "Content-Type", lit "application/json");
     (lit "Accept", lit "application/json")]
    ++ authorization {| Config.baseUrl := lit "http://localhost:8000";
                        Config.apiKey := Some (lit "s3cret") |}.
Proof.
  apply (@every_request_carries_the_client_headers
           {| Config.baseUrl := lit "http://localhost:8000";
              Config.apiKey := Some (lit "s3cret") |}
           (lit "list_notes") None
           (example_network 200 (lit "OK") (inr JNull)) []).
  vm_compute. left. reflexivity.
Defined.

(** X2. Whatever the name and the arguments, the handler returns (it does
    not throw) a result with one text block, flagged as an error or not
    flagged, and the invocation makes at most one request. *)
Theorem handler_always_returns_one_text_block :
  forall (config : Config.t) (n : jsstring) (args : Arguments)
         (net : Network) (log : list FetchCall),
    exists (t : jsstring) (flag : option bool) (calls : list FetchCall),
      handle config n args net log = (inr (text_result t flag), log ++ calls)
      /\ (flag = None \/ flag = Some true)
      /\ List.length calls <= 1.
Proof.
  intros config n args net log.
  destruct (handle_shape config n args) as [(e & H)|(path & options & _ & _ & H)];
    rewrite H.
  - exists (lit "Error: " ++ message e), (Some true), [].
    rewrite List.app_nil_r. repeat split; auto.
  - destruct (settle net _) as [e|v].
    + exists (lit "Error: " ++ message e), (Some true). eexists.
      repeat split; auto.
    + exists (JSON_stringify_2 v), None. eexists. repeat split; auto.
Qed.

(** X3. When [fetch] itself fails (the promise is rejected), the result is
    the error result with the message of that failure, and no second
    request is made. *)
Theorem transport_failure_is_an_error_result :
  forall (config : Config.t) (n : jsstring) (args : Arguments)
         (net : Network) (log log' : list FetchCall)
         (res : result CallToolResult) (call : FetchCall) (e : exn),
    handle config n args net log = (res, log') ->
    In call (new_calls log log') ->
    net call = Rejected e ->
    res = inr (text_result (lit "Error: " ++ message e) (Some true))
    /\ new_calls log log' = [call].
Proof.
  intros config n args net log log' res call e Hrun Hin Hnet.
  destruct (handle_shape config n args) as [(e' & H)|(path & options & _ & _ & H)];
    rewrite H in Hrun; injection Hrun as <- <-.
  - rewrite new_calls_nil in Hin. contradiction.
  - rewrite new_calls_app in Hin |- *. destruct Hin as [<-|[]].
    unfold settle. rewrite Hnet. split; reflexivity.
Qed.

Lemma transport_failure_is_an_error_result_witness :
  fst (handle example_config (lit "get_metadata_keys") None
         (fun _ => Rejected (Throw TypeError (lit "fetch failed"))) [])
  = inr (text_result (lit "Error: fetch failed") (Some true)).
Proof.
  set (call := {| url := lit "http://localhost:8000/api/metadata/keys";
                  init := no_options;
                  Net.headers := [(lit "Content-Type", lit "application/json");
                                  (lit "Accept", lit "application/json")] |}).
  destruct (@transport_failure_is_an_error_result example_config
              (lit "get_metadata_keys") None
              (fun _ => Rejected (Throw TypeError (lit "fetch failed"))) []
              [call]
              (fst (handle example_config (lit "get_metadata_keys") None
                      (fun _ => Rejected (Throw TypeError (lit "fetch failed"))) []))
              call (Throw TypeError (lit "fetch failed"))) as [H _].
  - vm_compute. reflexivity.
  - left. reflexivity.
  - reflexivity.
  - exact H.
Defined.

(** X4. When the response has a success status but its body is not JSON
    ([response.json()] is rejected), the result is the error result with
    the message of that rejection. *)
Theorem malformed_body_is_an_error_result :
  forall (config : Config.t) (n : jsstring) (args : Arguments)
         (net : Network) (log log' : list FetchCall)
         (res : result CallToolResult) (call : FetchCall) (r : Response)
         (e : exn),
    handle config n args net log = (res, log') ->
    In call (new_calls log log') ->
    net call = Resolved r -> ok r = true -> json_body r = inl e ->
    res = inr (text_result (lit "Error: " ++ message e) (Some true)).
Proof.
  intros config n args net log log' res call r e Hrun Hin Hnet Hok Hbody.
  destruct (handle_shape config n args) as [(e' & H)|(path & options & _ & _ & H)];
    rewrite H in Hrun; injection Hrun as <- <-.
  - rewrite new_calls_nil in Hin. contradiction.
  - rewrite new_calls_app in Hin. destruct Hin as [<-|[]].
    unfold settle. rewrite Hnet, Hok, Hbody. reflexivity.
Qed.

Lemma malformed_body_is_an_error_result_witness :
  fst (handle example_config (lit "get_metadata_keys") None
         (example_network 200 (lit "OK")
            (inl (Throw SyntaxError (lit "Unexpected token < in JSON at position 0"))))
         [])
  = inr (text_result (lit "Error: Unexpected token < in JSON at position 0")
           (Some true)).
Proof.
  set (call := {| url := lit "http://localhost:8000/api/metadata/keys";
                  init := no_options;
                  Net.headers := [(lit "Content-Type", lit "application/json");
                                  (lit "Accept", lit "application/json")] |}).
  set (net := example_network 200 (lit "OK")
            (inl (Throw SyntaxError (lit "Unexpected token < in JSON at position 0")))).
  apply (@malformed_body_is_an_error_result example_config
           (lit "get_metadata_keys") None net [] [call]
           (fst (handle example_config (lit "get_metadata_keys") None net []))
           call
           {| status := 200; statusText := lit "OK";
              json_body := inl (Throw SyntaxError
                                  (lit "Unexpected token < in JSON at position 0")) |}
           (Throw SyntaxError (lit "Unexpected token < in JSON at position 0"))).
  - vm_compute. reflexivity.
  - left. reflexivity.
  - reflexivity.
  - reflexivity.
  - reflexivity.
Defined.

(** X5. For every tool, when the request is answered with a success
    status and a JSON value, the result is not flagged, and its text is
    the value written with two-space indentation, which [JSON.parse]
    reads back. *)
Theorem every_tool_returns_the_response_value :
  forall (config : Config.t) (n : jsstring) (args : Arguments)
         (net : Network) (log log' : list FetchCall)
         (res : result CallToolResult) (call : FetchCall) (r : Response)
         (v : json),
    handle config n args net log = (res, log') ->
    In call (new_calls log log') ->
    net call = Resolved r -> ok r = true -> json_body r = inr v ->
    json_wf v = true ->
    res = inr (text_result (JSON_stringify_2 v) None)
    /\ JSON_parse (JSON_stringify_2 v) = Some v.
Proof.
  intros config n args net log log' res call r v Hrun Hin Hnet Hok Hbody Hwf.
  destruct (handle_shape config n args) as [(e' & H)|(path & options & _ & _ & H)];
    rewrite H in Hrun; injection Hrun as <- <-.
  - rewrite new_calls_nil in Hin. contradiction.
  - rewrite new_calls_app in Hin. destruct Hin as [<-|[]].
    unfold settle. rewrite Hnet, Hok, Hbody. split; [reflexivity|].
    now apply JSONParse.JSON_parse_serialize.
Qed.

Lemma every_tool_returns_the_response_value_witness :
  fst (handle example_config (lit "get_metadata_keys") None
         (example_network 200 (lit "OK") (inr example_note)) [])
  = inr (text_result (JSON_stringify_2 example_note) None)
  /\ JSON_parse (JSON_stringify_2 example_note) = Some example_note.
Proof.
  set (call := {| url := lit "http://localhost:8000/api/metadata/keys";
                  init := no_options;
                  Net.headers := [(lit "Content-Type", lit "application/json");
                                  (lit "Accept", lit "application/json")] |}).
  set (net := example_network 200 (lit "OK") (inr example_note)).
  apply (@every_tool_returns_the_response_value example_config
           (lit "get_metadata_keys") None net [] [call]
           (fst (handle example_config (lit "get_metadata_keys") None net []))
           call
           {| status := 200; statusText := lit "OK";
              json_body := inr example_note |}
           example_note).
  - vm_compute. reflexivity.
  - left. reflexivity.
  - reflexivity.
  - reflexivity.
  - reflexivity.
  - vm_compute. reflexivity.
Defined.

(** X6. The handler never reports success on its own: a result that is
    not flagged as an error comes from one request, answered with a status
    in 200-299 and a JSON value, and its text is that value serialized. *)
Theorem success_comes_from_a_successful_response :
  forall (config : Config.t) (n : jsstring) (args : Arguments)
         (net : Network) (log log' : list FetchCall)
         (content0 : list TextContent),
    handle config n args net log
    = (inr {| content := content0; isError := None |}, log') ->
    exists (call : FetchCall) (r : Response) (v : json),
      new_calls log log' = [call]
      /\ net call = Resolved r
      /\ (200 <= status r <= 299)%N
      /\ json_body r = inr v
      /\ content0 = [ {| content_type := lit "text";
                         text := JSON_stringify_2 v |} ].
Proof.
  intros config n args net log log' content0 Hrun.
  destruct (handle_shape config n args) as [(e' & H)|(path & options & _ & _ & H)];
    rewrite H in Hrun.
  - discriminate Hrun.
  - injection Hrun as Hres <-. rewrite new_calls_app.
    unfold settle in Hres.
    destruct (net _) as [e|r] eqn:Hnet; [discriminate Hres|].
    destruct (ok r) eqn:Hok; cbn [negb] in Hres; [|discriminate Hres].
    destruct (json_body r) as [e|v] eqn:Hb; [discriminate Hres|].
    injection Hres as <-.
    eexists _, r, v. split; [reflexivity|]. split; [exact Hnet|].
    split; [|split; [exact Hb | reflexivity]].
    unfold ok in Hok. apply andb_true_iff in Hok as [A B].
    apply N.leb_le in A, B. lia.
Qed.

Lemma success_comes_from_a_successful_response_witness :
  exists call r v,
    new_calls [] [{| url := lit "http://localhost:8000/api/notes";
                     init := no_options;
                     Net.headers := [(lit "Content-Type", lit "application/json");
                                     (lit "Accept", lit "application/json")] |}]
    = [call]
    /\ example_network 200 (lit "OK") (inr (JArr [])) call = Resolved r
    /\ (200 <= status r <= 299)%N
    /\ json_body r = inr v
    /\ [ {| content_type := lit "text"; text := lit "[]" |} ]
       = [ {| content_type := lit "text"; text := JSON_stringify_2 v |} ].
Proof.
  apply (@success_comes_from_a_successful_response example_config
           (lit "list_notes") None
           (example_network 200 (lit "OK") (inr (JArr []))) []).
  vm_compute. reflexivity.
Defined.

(** ** Form encoding *)

Lemma plain_unit_facts (c : code_unit) :
  is_alnum c || mem c (lit "*-._") = true ->
  (c < 128)%N /\ c <> 32%N.
Proof.
  unfold is_alnum, is_digit, is_upper, is_lower, mem.
  cbn [lit List.map list_ascii_of_string existsb].
  change (N_of_ascii "*") with 42%N. change (N_of_ascii "-") with 45%N.
  change (N_of_ascii ".") with 46%N. change (N_of_ascii "_") with 95%N.
  intro H.
  repeat (apply orb_true_iff in H as [H|H]);
    try (apply andb_true_iff in H as [A B]; apply N.leb_le in A, B; lia);
    try (apply N.eqb_eq in H; lia); discriminate H.
Qed.

Lemma plain_not_surrogate (c : code_unit) :
  (c < 128)%N -> is_high_surrogate c = false /\ is_low_surrogate c = false.
Proof.
  intro H. unfold is_high_surrogate, is_low_surrogate.
  split; apply andb_false_iff; left; apply N.leb_gt; lia.
Qed.

Lemma ToUSVString_plain (s : jsstring) :
  form_plain s = true -> ToUSVString s = s.
Proof.
  induction s as [|c s IH]; [reflexivity|].
  unfold form_plain. cbn [forallb]. intro H. apply andb_true_iff in H as [Hc Hs].
  destruct (plain_unit_facts c Hc) as [H1 _].
  destruct (plain_not_surrogate H1) as [A B].
  cbn [ToUSVString]. rewrite A, B. f_equal. now apply IH.
Qed.

Lemma form_urlencode_plain (s : jsstring) :
  form_plain s = true -> form_urlencode s = s.
Proof.
  unfold form_urlencode.
  induction s as [|c s IH]; [reflexivity|].
  unfold form_plain. cbn [forallb]. intro H. apply andb_true_iff in H as [Hc Hs].
  destruct (plain_unit_facts c Hc) as [H1 H2].
  destruct (plain_not_surrogate H1) as [A B].
  cbn [scalar_values]. rewrite A, B. cbn [flat_map].
  unfold utf8 at 1. apply N.ltb_lt in H1. rewrite H1. cbn [flat_map app].
  unfold form_byte at 1. apply N.eqb_neq in H2. rewrite H2, Hc.
  cbn [app]. f_equal. now apply IH.
Qed.

Lemma Number_toString_plain (z : Z) :
  is_safe_integer z = true -> form_plain (Number_toString z) = true.
Proof.
  intro Hs. rewrite (JSONDoubles.Number_toString_safe _ Hs).
  assert (H : forall n, form_plain (N_toString n) = true).
  { intro n. unfold form_plain. apply forallb_forall. intros c Hc.
    pose proof (JSONNumbers.N_toString_digits n) as D.
    rewrite forallb_forall in D. specialize (D c Hc).
    unfold is_alnum. now rewrite D. }
  destruct z as [|p|p]; [reflexivity | apply H |].
  cbn [integer_toString]. unfold form_plain. rewrite forallb_app.
  specialize (H (N.pos p)). unfold form_plain in H. rewrite H. reflexivity.
Qed.

Lemma form_byte_units (b : N) : forallb form_unit (form_byte b) = true.
Proof.
  unfold form_byte. destruct (b =? 32)%N; [reflexivity|].
  destruct (is_alnum b || mem b (lit "*-._")) eqn:E.
  - cbn [forallb]. rewrite andb_true_r. unfold form_unit.
    apply orb_true_iff in E as [E|E]; [now rewrite E|].
    apply orb_true_iff. right. unfold mem in *.
    cbn [lit List.map list_ascii_of_string existsb] in *.
    repeat (apply orb_true_iff in E as [E|E]); try discriminate E;
      rewrite E; rewrite ?orb_true_r; reflexivity.
  - unfold percent. cbn [forallb]. unfold form_unit.
    pose proof (hex_upper_unescaped (N.shiftr b 4)) as A.
    pose proof (hex_upper_unescaped b) as B.
    assert (K : forall d, uri_unescaped (hex_upper d) = true ->
                          is_alnum (hex_upper d) = true).
    { intros d _. unfold hex_upper.
      assert (H : (N.land d 0xF < 16)%N).
      { change 0xF%N with (N.ones 4). rewrite N.land_ones. now apply N.mod_lt. }
      set (x := N.land d 0xF) in *. clearbody x.
      destruct x as [|p]; [reflexivity|].
      do 4 (destruct p as [p|p|]; try reflexivity; try (exfalso; lia)). }
    rewrite (K _ A), (K _ B). reflexivity.
Qed.

Lemma form_urlencode_units (s : jsstring) :
  forallb form_unit (form_urlencode s) = true.
Proof.
  unfold form_urlencode. apply forallb_flat_map. apply form_byte_units.
Qed.

Lemma form_urlencode_separator_free (s : jsstring) :
  separator_free (form_urlencode s).
Proof.
  intros c Hc Hsep.
  pose proof (form_urlencode_units s) as H.
  rewrite forallb_forall in H. specialize (H c Hc).
  cbn [lit List.map list_ascii_of_string In] in Hsep.
  repeat (destruct Hsep as [<-|Hsep]; [discriminate H|]). exact Hsep.
Qed.

Lemma segment_separator_free (s seg : jsstring) :
  encodeURIComponent_string s = inr seg -> separator_free seg.
Proof.
  intros E c Hc Hsep.
  destruct (encodeURIComponent_segment s E) as [H _].
  rewrite forallb_forall in H. specialize (H c Hc).
  cbn [lit List.map list_ascii_of_string In] in Hsep.
  repeat (destruct Hsep as [<-|Hsep]; [discriminate H|]). exact Hsep.
Qed.

Lemma join_strings (sep : jsstring) (ss : list jsstring) :
  join_elems ToString_json sep (List.map JStr ss) = inr (join sep ss).
Proof.
  induction ss as [|s ss IH]; [reflexivity|].
  cbn [List.map join_elems ToString_json bindR].
  destruct ss as [|s' ss]; [reflexivity|].
  cbn [List.map] in *. rewrite IH. reflexivity.
Qed.

Lemma arg_props (args : Arguments) (k : string) :
  arg args k = get (props_of args) (lit k).
Proof. destruct args; reflexivity. Qed.

Lemma arg_agree (keys : list jsstring) (args args' : Arguments) (k : string) :
  agree_on keys args args' -> In (lit k) keys -> arg args k = arg args' k.
Proof. intros H Hk. rewrite !arg_props. now apply H. Qed.

Lemma sends_throw_free (config : Config.t) (n : string) (args : Arguments)
    (e : exn) :
  switch (constructor config) (lit n) args = throw e ->
  fails_without_request config n args.
Proof.
  intros H net log. exists (lit "Error: " ++ message e).
  unfold handle. now rewrite (@CallTool_throw _ (lit n) args e net log H).
Qed.

(** ** What each tool reads, and what it sends *)

Lemma fails_intro (config : Config.t) (n : string) (args : Arguments) :
  (exists e, switch (constructor config) (lit n) args = throw e) ->
  fails_without_request config n args.
Proof. intros (e & H). now apply (sends_throw_free config n args H). Qed.

(** X7. A tool reads the properties its schema declares and nothing else:
    two argument objects that agree on them give the same run. *)
Theorem tools_read_only_their_declared_properties :
  forall (config : Config.t) (t : ToolDefinition) (args args' : Arguments)
         (net : Network) (log : list FetchCall),
    In t tools ->
    agree_on (declared t) args args' ->
    handle config (name t) args net log = handle config (name t) args' net log.
Proof.
  intros config t args args' net log Ht H.
  enough (E : handle config (name t) args = handle config (name t) args')
    by now rewrite E.
  unfold handle. apply CallTool_switch_ext.
  unfold tools in Ht. cbn [In] in Ht.
  repeat (destruct Ht as [<-|Ht]); try contradiction;
    unfold declared in H; cbn [name inputSchema properties List.map fst] in H |- *.
  - rewrite !switch_list_directory.
    rewrite (arg_agree "path" H), (arg_agree "recursive" H),
      (arg_agree "limit" H), (arg_agree "offset" H); cbn [In]; tauto.
  - rewrite !switch_read_file. rewrite (arg_agree "path" H); cbn [In]; tauto.
  - rewrite !switch_write_file.
    rewrite (arg_agree "path" H), (arg_agree "content" H), (arg_agree "mode" H);
      cbn [In]; tauto.
  - rewrite !switch_delete_item. rewrite (arg_agree "path" H); cbn [In]; tauto.
  - rewrite !switch_create_or_update_note.
    rewrite (arg_agree "path" H), (arg_agree "content" H),
      (arg_agree "frontmatter" H); cbn [In]; tauto.
  - rewrite !switch_get_daily_note. rewrite (arg_agree "date" H); cbn [In]; tauto.
  - rewrite !switch_get_recent_notes. rewrite (arg_agree "limit" H); cbn [In]; tauto.
  - rewrite !switch_search_vault.
    rewrite (arg_agree "query" H), (arg_agree "scope" H),
      (arg_agree "path_filter" H); cbn [In]; tauto.
  - rewrite !switch_find_related_notes.
    rewrite (arg_agree "path" H), (arg_agree "on" H); cbn [In]; tauto.
  - rewrite !switch_get_note. rewrite (arg_agree "path" H); cbn [In]; tauto.
  - rewrite !switch_list_notes. rewrite (arg_agree "search" H); cbn [In]; tauto.
  - reflexivity.
  - rewrite !switch_get_metadata_values. rewrite (arg_agree "key" H); cbn [In]; tauto.
Qed.

Lemma tools_read_only_their_declared_properties_witness :
  handle example_config (lit "list_notes")
    (Some [(lit "search", JStr (lit "inbox"));
           (lit "path_filter", JStr (lit "Projects/"));
           (lit "scope", JArr [JStr (lit "tags")])])
    (example_network 200 (lit "OK") (inr JNull)) []
  = handle example_config (lit "list_notes")
      (Some [(lit "search", JStr (lit "inbox"))])
      (example_network 200 (lit "OK") (inr JNull)) [].
Proof.
  apply (@tools_read_only_their_declared_properties example_config
           list_notes_tool).
  - unfold tools, list_notes_tool. do 10 right. left. reflexivity.
  - intros k [<-|[]]. reflexivity.
Defined.

(** X8. A [null] argument is not replaced by the default (only a missing
    one is): [get_recent_notes] with [limit: null], and [list_directory]
    with [recursive], [limit] or [offset] [null], fail before any request,
    and [get_daily_note] with [date: null] asks for the date [null]. *)
Theorem null_is_not_replaced_by_the_default :
  forall (config : Config.t) (args : Arguments),
    (arg args "limit" = Some JNull ->
     fails_without_request config "get_recent_notes" args)
    /\ (arg args "recursive" = Some JNull \/ arg args "limit" = Some JNull
        \/ arg args "offset" = Some JNull ->
        fails_without_request config "list_directory" args)
    /\ (arg args "date" = Some JNull ->
        forall net log,
          sends config "get_daily_note" args net log "GET"
            (lit "/vault/notes/daily?date=null") None).
Proof.
  intros config args. repeat split.
  - intro H. apply fails_intro. rewrite switch_get_recent_notes, H.
    eexists. reflexivity.
  - intro H. apply fails_intro. rewrite switch_list_directory.
    unfold listDirectory.
    destruct H as [H|[H|H]]; rewrite H; cbn [default_to].
    + eexists. reflexivity.
    + destruct (call_toString "recursive" (default_to (arg args "recursive") (JBool false)));
        eexists; reflexivity.
    + destruct (call_toString "recursive" (default_to (arg args "recursive") (JBool false)));
        [eexists; reflexivity|].
      destruct (call_toString "limit" (default_to (arg args "limit") (JNum 50)));
        eexists; reflexivity.
  - intros H net log.
    apply (@sends_intro config "get_daily_note" args net log "GET" _ no_options);
      [|reflexivity].
    rewrite switch_get_daily_note, H. reflexivity.
Qed.

Lemma null_is_not_replaced_by_the_default_witness :
  fails_without_request example_config "get_recent_notes"
    (Some [(lit "limit", JNull)]).
Proof.
  apply (proj1 (null_is_not_replaced_by_the_default example_config
                  (Some [(lit "limit", JNull)]))).
  reflexivity.
Defined.

(** X9. The arguments a schema marks as required are not checked: a call
    without them is sent all the same, the missing path or key written
    [undefined] in the URL, and the missing fields left out of the body. *)
Theorem missing_required_arguments_are_sent_as_undefined :
  forall (config : Config.t) (args : Arguments)
         (net : Network) (log : list FetchCall),
    (arg args "path" = undefined ->
     sends config "read_file" args net log "GET" (lit "/files/undefined") None
     /\ sends config "delete_item" args net log "DELETE"
          (lit "/files/undefined") None
     /\ sends config "get_note" args net log "GET" (lit "/notes/undefined") None)
    /\ (arg args "key" = undefined ->
        sends config "get_metadata_values" args net log "GET"
          (lit "/metadata/values/undefined") None)
    /\ (arg args "query" = undefined -> arg args "scope" = undefined ->
        arg args "path_filter" = undefined ->
        sends config "search_vault" args net log "GET"
          (lit "/vault/search?query=undefined&scope=content%2Cfilename%2Ctags")
          None)
    /\ (arg args "path" = undefined -> arg args "content" = undefined ->
        arg args "mode" = undefined ->
        sends config "write_file" args net log "POST" (lit "/files/write")
          (Some (JSON_stringify (JObj [(lit "mode", JStr (lit "overwrite"))])))).
Proof.
  intros config args net log. repeat split.
  - apply (@sends_intro config "read_file" args net log "GET" _ no_options);
      [|reflexivity].
    rewrite switch_read_file, H. reflexivity.
  - apply (@sends_intro config "delete_item" args net log "DELETE" _
             {| method := Some (lit "DELETE"); body := None |}); [|reflexivity].
    rewrite switch_delete_item, H. reflexivity.
  - apply (@sends_intro config "get_note" args net log "GET" _ no_options);
      [|reflexivity].
    rewrite switch_get_note, H. reflexivity.
  - intro H.
    apply (@sends_intro config "get_metadata_values" args net log "GET" _ no_options);
      [|reflexivity].
    rewrite switch_get_metadata_values, H. reflexivity.
  - intros H1 H2 H3.
    apply (@sends_intro config "search_vault" args net log "GET" _ no_options);
      [|reflexivity].
    rewrite switch_search_vault, H1, H2, H3. reflexivity.
  - intros H1 H2 H3.
    apply (@sends_intro config "write_file" args net log "POST" (lit "/files/write")
             {| method := Some (lit "POST");
                body := Some (JSON_stringify
                                (JObj [(lit "mode", JStr (lit "overwrite"))])) |});
      [|reflexivity].
    rewrite switch_write_file, H1, H2, H3. reflexivity.
Qed.

Lemma missing_required_arguments_are_sent_as_undefined_witness :
  sends example_config "read_file" None
    (example_network 404 (lit "Not Found") (inr JNull)) []
    "GET" (lit "/files/undefined") None.
Proof.
  apply (proj1 (missing_required_arguments_are_sent_as_undefined example_config
                  None (example_network 404 (lit "Not Found") (inr JNull)) [])).
  reflexivity.
Defined.

Lemma two_params (a b : jsstring) :
  URLSearchParams_toString [(lit "query", a); (lit "scope", b)]
  = lit "query=" ++ form_urlencode a ++ lit "&scope=" ++ form_urlencode b.
Proof.
  unfold URLSearchParams_toString. cbn [List.map join fst snd].
  rewrite <- !app_assoc. reflexivity.
Qed.

Lemma three_params (a b c : jsstring) :
  URLSearchParams_toString
    [(lit "query", a); (lit "scope", b); (lit "path_filter", c)]
  = lit "query=" ++ form_urlencode a ++ lit "&scope=" ++ form_urlencode b
      ++ lit "&path_filter=" ++ form_urlencode c.
Proof.
  unfold URLSearchParams_toString. cbn [List.map join fst snd].
  rewrite <- !app_assoc. reflexivity.
Qed.

(** X10. [search_vault] adds the parameter [path_filter] when the argument
    is a non-empty string, and leaves it out when it is the empty string
    (as when it is missing). *)
Theorem search_vault_sends_a_nonempty_path_filter :
  forall (config : Config.t) (args : Arguments)
         (net : Network) (log : list FetchCall) (q f : jsstring),
    arg args "query" = Some (JStr q) ->
    arg args "scope" = undefined ->
    arg args "path_filter" = Some (JStr f) ->
    sends config "search_vault" args net log "GET"
      (lit "/vault/search?query=" ++ form_urlencode (ToUSVString q)
         ++ lit "&scope=content%2Cfilename%2Ctags"
         ++ match f with
            | [] => []
            | _ => lit "&path_filter=" ++ form_urlencode (ToUSVString f)
            end)
      None.
Proof.
  intros config args net log q f H1 H2 H3.
  apply (@sends_intro config "search_vault" args net log "GET" _ no_options);
    [|reflexivity].
  rewrite switch_search_vault, H1, H2, H3.
  destruct f as [|c f].
  - rewrite List.app_nil_r.
    change (searchVault (constructor config) (Some (JStr q)) undefined
              (Some (JStr [])))
      with (request (constructor config)
              (lit "/vault/search?"
                 ++ URLSearchParams_toString
                      [(lit "query", ToUSVString q);
                       (lit "scope", lit "content,filename,tags")])
              no_options).
    rewrite two_params. reflexivity.
  - change (searchVault (constructor config) (Some (JStr q)) undefined
              (Some (JStr (c :: f))))
      with (request (constructor config)
              (lit "/vault/search?"
                 ++ URLSearchParams_toString
                      [(lit "query", ToUSVString q);
                       (lit "scope", lit "content,filename,tags");
                       (lit "path_filter", ToUSVString (c :: f))])
              no_options).
    rewrite three_params. reflexivity.
Qed.

Lemma search_vault_sends_a_nonempty_path_filter_witness :
  sends example_config "search_vault"
    (Some [(lit "query", JStr (lit "plan")); (lit "path_filter", JStr (lit ""))])
    (example_network 200 (lit "OK") (inr JNull)) []
    "GET" (lit "/vault/search?query=plan&scope=content%2Cfilename%2Ctags") None.
Proof.
  apply (@search_vault_sends_a_nonempty_path_filter example_config
           (Some [(lit "query", JStr (lit "plan"));
                  (lit "path_filter", JStr (lit ""))])
           (example_network 200 (lit "OK") (inr JNull)) []
           (lit "plan") (lit "")); reflexivity.
Defined.

(** X11. [search_vault] joins an array of strings given as [scope] with
    commas, whatever the strings (they are not checked against the
    declared enumeration); a [scope] that is not an array makes the call
    fail before any request. *)
Theorem search_vault_joins_the_scope :
  forall (config : Config.t) (args : Arguments),
    (forall (net : Network) (log : list FetchCall) (q : jsstring)
            (scopes : list jsstring),
        arg args "query" = Some (JStr q) ->
        arg args "scope" = Some (JArr (List.map JStr scopes)) ->
        arg args "path_filter" = undefined ->
        sends config "search_vault" args net log "GET"
          (lit "/vault/search?query=" ++ form_urlencode (ToUSVString q)
             ++ lit "&scope="
             ++ form_urlencode (ToUSVString (join (lit ",") scopes)))
          None)
    /\ (forall v : json,
          arg args "scope" = Some v ->
          (forall elems, v <> JArr elems) ->
          fails_without_request config "search_vault" args).
Proof.
  intros config args. split.
  - intros net log q scopes H1 H2 H3.
    apply (@sends_intro config "search_vault" args net log "GET" _ no_options);
      [|reflexivity].
    rewrite switch_search_vault, H1, H2, H3.
    unfold searchVault. cbn [default_to call_join].
    rewrite join_strings.
    transitivity
      (request (constructor config)
         (lit "/vault/search?"
            ++ URLSearchParams_toString
                 [(lit "query", ToUSVString q);
                  (lit "scope", ToUSVString (join (lit ",") scopes))])
         no_options); [reflexivity|].
    rewrite two_params. reflexivity.
  - intros v H Hv. apply fails_intro.
    rewrite switch_search_vault, H. unfold searchVault. cbn [default_to].
    destruct v; try (eexists; reflexivity).
    exfalso. now apply (Hv elems).
Qed.

Lemma search_vault_joins_the_scope_witness :
  sends example_config "search_vault"
    (Some [(lit "query", JStr (lit "plan"));
           (lit "scope", JArr [JStr (lit "tags"); JStr (lit "title")])])
    (example_network 200 (lit "OK") (inr JNull)) []
    "GET" (lit "/vault/search?query=plan&scope=tags%2Ctitle") None
  /\ fails_without_request example_config "search_vault"
       (Some [(lit "query", JStr (lit "plan"));
              (lit "scope", JStr (lit "tags"))]).
Proof.
  split.
  - apply (proj1 (search_vault_joins_the_scope example_config
                    (Some [(lit "query", JStr (lit "plan"));
                           (lit "scope", JArr [JStr (lit "tags");
                                               JStr (lit "title")])]))
             (example_network 200 (lit "OK") (inr JNull)) []
             (lit "plan") [lit "tags"; lit "title"]); reflexivity.
  - apply (proj2 (search_vault_joins_the_scope example_config
                    (Some [(lit "query", JStr (lit "plan"));
                           (lit "scope", JStr (lit "tags"))]))
             (JStr (lit "tags"))); [reflexivity | discriminate].
Defined.

Lemma reads_as_stringify (props : list (jsstring * json)) :
  json_wf (JObj props) = true ->
  reads_as (Some (JSON_stringify (JObj props))) props.
Proof.
  intro H. eexists. split; [reflexivity|].
  now apply (@JSONParse.JSON_parse_serialize []).
Qed.

(** X12. The body [write_file] sends is JSON for the object of [path],
    [content] and [mode], where [mode] is the argument as given (it is not
    checked against the declared enumeration) or ["overwrite"]; the body
    [create_or_update_note] sends is JSON for the object of [path],
    [content] and [front_matter], which holds the argument [frontmatter]
    or the empty object. *)
Theorem post_bodies_read_back_as_the_arguments :
  forall (config : Config.t) (args : Arguments)
         (net : Network) (log : list FetchCall) (p c : json),
    arg args "path" = Some p -> arg args "content" = Some c ->
    json_wf p = true -> json_wf c = true ->
    (forall m : json,
        json_wf m = true -> arg args "mode" = Some m ->
        exists b,
          sends config "write_file" args net log "POST" (lit "/files/write") b
          /\ reads_as b [(lit "path", p); (lit "content", c); (lit "mode", m)])
    /\ (forall f : json,
          json_wf f = true ->
          arg args "frontmatter" = Some f
          \/ (arg args "frontmatter" = undefined /\ f = JObj []) ->
          exists b,
            sends config "create_or_update_note" args net log "POST"
              (lit "/notes/upsert") b
            /\ reads_as b [(lit "path", p); (lit "content", c);
                           (lit "front_matter", f)]).
Proof.
  intros config args net log p c Hp Hc Wp Wc. split.
  - intros m Wm Hm. eexists. split.
    + apply (@sends_intro config "write_file" args net log "POST" (lit "/files/write")
               {| method := Some (lit "POST");
                  body := Some (JSON_stringify
                                  (JObj [(lit "path", p); (lit "content", c);
                                         (lit "mode", m)])) |});
        [|reflexivity].
      rewrite switch_write_file, Hp, Hc, Hm. reflexivity.
    + apply reads_as_stringify. cbn [json_wf List.map fst forallb snd].
      rewrite Wp, Wc, Wm. reflexivity.
  - intros f Wf Hf. eexists. split.
    + apply (@sends_intro config "create_or_update_note" args net log "POST"
               (lit "/notes/upsert")
               {| method := Some (lit "POST");
                  body := Some (JSON_stringify
                                  (JObj [(lit "path", p); (lit "content", c);
                                         (lit "front_matter", f)])) |});
        [|reflexivity].
      rewrite switch_create_or_update_note, Hp, Hc.
      destruct Hf as [Hf|[Hf ->]]; rewrite Hf; reflexivity.
    + apply reads_as_stringify. cbn [json_wf List.map fst forallb snd].
      rewrite Wp, Wc, Wf. reflexivity.
Qed.

Lemma post_bodies_read_back_as_the_arguments_witness :
  exists b,
    sends example_config "write_file"
      (Some [(lit "path", JStr (lit "a.md")); (lit "content", JStr (lit "x"));
             (lit "mode", JStr (lit "sideways"))])
      (example_network 200 (lit "OK") (inr JNull)) []
      "POST" (lit "/files/write") b
    /\ reads_as b [(lit "path", JStr (lit "a.md")); (lit "content", JStr (lit "x"));
                   (lit "mode", JStr (lit "sideways"))].
Proof.
  apply (proj1 (@post_bodies_read_back_as_the_arguments example_config
                  (Some [(lit "path", JStr (lit "a.md"));
                         (lit "content", JStr (lit "x"));
                         (lit "mode", JStr (lit "sideways"))])
                  (example_network 200 (lit "OK") (inr JNull)) []
                  (JStr (lit "a.md")) (JStr (lit "x"))
                  eq_refl eq_refl eq_refl eq_refl)); reflexivity.
Defined.

Lemma four_params (a b c d : jsstring) :
  lit "/vault/directory?"
    ++ URLSearchParams_toString
         [(lit "path", a); (lit "recursive", b); (lit "limit", c);
          (lit "offset", d)]
  = lit "/vault/directory?path=" ++ form_urlencode a
      ++ lit "&recursive=" ++ form_urlencode b
      ++ lit "&limit=" ++ form_urlencode c
      ++ lit "&offset=" ++ form_urlencode d.
Proof.
  unfold URLSearchParams_toString. cbn [List.map join fst snd].
  rewrite <- !app_assoc. reflexivity.
Qed.

(** X13. [list_directory] with a string, a boolean and two safe integers
    (of magnitude at most [2^53 - 1]) asks [path], [recursive], [limit]
    and [offset] in that order, the boolean written [true] or [false] and
    the integers in decimal. *)
Theorem list_directory_writes_its_arguments :
  forall (config : Config.t) (args : Arguments)
         (net : Network) (log : list FetchCall)
         (p : jsstring) (recursive : bool) (limit offset : Z),
    arg args "path" = Some (JStr p) ->
    arg args "recursive" = Some (JBool recursive) ->
    arg args "limit" = Some (JNum limit) ->
    arg args "offset" = Some (JNum offset) ->
    is_safe_integer limit = true -> is_safe_integer offset = true ->
    sends config "list_directory" args net log "GET"
      (lit "/vault/directory?path=" ++ form_urlencode (ToUSVString p)
         ++ lit "&recursive=" ++ (if recursive then lit "true" else lit "false")
         ++ lit "&limit=" ++ Number_toString limit
         ++ lit "&offset=" ++ Number_toString offset)
      None.
Proof.
  intros config args net log p recursive limit offset H1 H2 H3 H4 S3 S4.
  apply (@sends_intro config "list_directory" args net log "GET" _ no_options);
    [|reflexivity].
  rewrite switch_list_directory, H1, H2, H3, H4.
  transitivity
    (request (constructor config)
       (lit "/vault/directory?"
          ++ URLSearchParams_toString
               [(lit "path", ToUSVString p);
                (lit "recursive",
                 ToUSVString (if recursive then lit "true" else lit "false"));
                (lit "limit", ToUSVString (Number_toString limit));
                (lit "offset", ToUSVString (Number_toString offset))])
       no_options).
  { destruct recursive; reflexivity. }
  rewrite four_params.
  rewrite (ToUSVString_plain _ (Number_toString_plain _ S3)).
  rewrite (ToUSVString_plain _ (Number_toString_plain _ S4)).
  rewrite (form_urlencode_plain _ (Number_toString_plain _ S3)).
  rewrite (form_urlencode_plain _ (Number_toString_plain _ S4)).
  destruct recursive; reflexivity.
Qed.

Lemma list_directory_writes_its_arguments_witness :
  sends example_config "list_directory"
    (Some [(lit "path", JStr (lit "Projects/2025")); (lit "recursive", JBool true);
           (lit "limit", JNum 20); (lit "offset", JNum 40)])
    (example_network 200 (lit "OK") (inr JNull)) []
    "GET"
    (lit "/vault/directory?path=Projects%2F2025&recursive=true&limit=20&offset=40")
    None.
Proof.
  apply (@list_directory_writes_its_arguments example_config
           (Some [(lit "path", JStr (lit "Projects/2025"));
                  (lit "recursive", JBool true);
                  (lit "limit", JNum 20); (lit "offset", JNum 40)])
           (example_network 200 (lit "OK") (inr JNull)) []
           (lit "Projects/2025") true 20%Z 40%Z); reflexivity.
Defined.




(** ** Methods and bodies *)

Section Options.
Variable this : ObsidianApiClient.t.
Variable P : RequestInit -> Prop.

Lemma with_throw (e : exn) : requests_with this P (throw e).
Proof. left. now exists e. Qed.

Lemma with_request (path : jsstring) (options : RequestInit) :
  P options -> requests_with this P (request this path options).
Proof. intro H. right. now exists path, options. Qed.

Lemma with_lift_bind (A : Type) (r : result A) (k : A -> M json) :
  (forall a, requests_with this P (k a)) ->
  requests_with this P (bind (lift r) k).
Proof.
  intro H. destruct r as [e|a]; [exact (with_throw e) | exact (H a)].
Qed.

Lemma with_ret_bind (A : Type) (a : A) (k : A -> M json) :
  requests_with this P (k a) -> requests_with this P (bind (ret a) k).
Proof. intro H. exact H. Qed.

End Options.

Lemma plain_native : native_options no_options.
Proof. left. split; reflexivity. Qed.

Lemma post_native (b : jsstring) :
  native_options {| method := Some (lit "POST"); body := Some b |}.
Proof. right. left. split; [reflexivity | now exists b]. Qed.

Lemma delete_native :
  native_options {| method := Some (lit "DELETE"); body := None |}.
Proof. right. right. split; reflexivity. Qed.

Ltac with_options :=
  repeat first
    [ apply with_request;
      first [ apply plain_native | apply post_native | apply delete_native ]
    | apply with_throw
    | apply with_lift_bind; intro
    | apply with_ret_bind ].

Lemma switch_native_options (this : ObsidianApiClient.t) (n : jsstring)
    (args : Arguments) :
  requests_with this native_options (switch this n args).
Proof.
  unfold switch. destruct (select n (cases this)) as [run|] eqn:E;
    [|apply with_throw].
  apply select_In in E. unfold cases in E. cbn [In] in E.
  repeat (destruct E as [E|E]; [injection E as _ <-|]); try contradiction.
  - unfold listDirectory. with_options.
  - unfold readFile. with_options.
  - unfold writeFile. with_options.
  - unfold deleteItem. with_options.
  - unfold createOrUpdateNote. with_options.
  - unfold getDailyNote. with_options.
  - unfold getRecentNotes. with_options.
  - unfold searchVault. with_options. destruct (truthy _); with_options.
  - unfold findRelatedNotes. with_options.
  - destruct (truthy _).
    + unfold searchVault. with_options.
    + unfold listNotes. with_options.
  - unfold getNote. with_options.
  - unfold getMetadataKeys. with_options.
  - unfold getMetadataValues. with_options.
Qed.

(** X15. Every request of every invocation of the AI-native tools is a
    [GET] without a body, a [DELETE] without a body, or a [POST] with a
    body: no tool sends [PUT] or [PATCH], and no [GET] carries a body. *)
Theorem tool_requests_are_get_post_or_delete :
  forall (config : Config.t) (n : jsstring) (args : Arguments)
         (net : Network) (log : list FetchCall) (call : FetchCall),
    In call (new_calls log (snd (handle config n args net log))) ->
    get_post_or_delete call.
Proof.
  intros config n args net log call. unfold handle.
  destruct (switch_native_options (constructor config) n args)
    as [(e & H)|(path & options & Ho & H)].
  - rewrite (@CallTool_throw _ n args e net log H). cbn [snd].
    rewrite new_calls_nil. intros [].
  - rewrite (@CallTool_request _ n args path options net log H). cbn [snd].
    rewrite new_calls_app. intros [<-|[]].
    unfold get_post_or_delete, effective_method. cbn [call_of init].
    destruct Ho as [[A B]|[[A B]|[A B]]]; rewrite A.
    + left. now split.
    + right. left. now split.
    + right. right. now split.
Qed.

Lemma tool_requests_are_get_post_or_delete_witness :
  get_post_or_delete
    {| url := lit "http://localhost:8000/api/files/old.md";
       init := {| method := Some (lit "DELETE"); body := None |};
       Net.headers := [(lit "Content-Type", lit "application/json");
                       (lit "Accept", lit "application/json")] |}.
Proof.
  apply (@tool_requests_are_get_post_or_delete example_config
           (lit "delete_item") (Some [(lit "path", JStr (lit "old.md"))])
           (example_network 200 (lit "OK") (inr JNull)) []).
  vm_compute. left. reflexivity.
Defined.

(** X16. The text searched for cannot add parameters to the request of
    [search_vault]: the URL is [/vault/search?query=], the encoded text,
    [&scope=content%2Cfilename%2Ctags], and nothing more or the encoded
    [path_filter]; neither encoded part holds any of [/ ? # & =]. *)
Theorem search_text_cannot_add_parameters :
  forall (config : Config.t) (args : Arguments)
         (net : Network) (log : list FetchCall) (q : jsstring)
         (call : FetchCall),
    arg args "query" = Some (JStr q) ->
    arg args "scope" = undefined ->
    In call (new_calls log
               (snd (handle config (lit "search_vault") args net log))) ->
    exists text tail,
      url call
      = Config.baseUrl config ++ lit "/api" ++ lit "/vault/search?query=" ++ text
          ++ lit "&scope=content%2Cfilename%2Ctags" ++ tail
      /\ separator_free text
      /\ (tail = []
          \/ exists filter,
               tail = lit "&path_filter=" ++ filter /\ separator_free filter).
Proof.
  intros config args net log q call H1 H2. unfold handle.
  destruct (truthy (arg args "path_filter")) eqn:Ht.
  - destruct (ToString (arg args "path_filter")) as [e|f] eqn:Ef.
    + rewrite (@CallTool_throw _ _ args e net log).
      * cbn [snd]. rewrite new_calls_nil. intros [].
      * rewrite switch_search_vault, H1, H2. unfold searchVault.
        cbn [default_to call_join join_elems ToString_json bindR lift bind ret
             new_URLSearchParams ToString].
        rewrite Ht. unfold append. rewrite Ef. reflexivity.
    + rewrite (@CallTool_request _ _ args
                 (lit "/vault/search?"
                    ++ URLSearchParams_toString
                         [(lit "query", ToUSVString q);
                          (lit "scope", lit "content,filename,tags");
                          (lit "path_filter", ToUSVString f)])
                 no_options net log).
      * cbn [snd]. rewrite new_calls_app. intros [<-|[]].
        exists (form_urlencode (ToUSVString q)),
               (lit "&path_filter=" ++ form_urlencode (ToUSVString f)).
        split; [|split].
        -- cbn [call_of url]. rewrite base_api_path, three_params. reflexivity.
        -- apply form_urlencode_separator_free.
        -- right. eexists. split; [reflexivity|].
           apply form_urlencode_separator_free.
      * rewrite switch_search_vault, H1, H2. unfold searchVault.
        cbn [default_to call_join join_elems ToString_json bindR lift bind ret
             new_URLSearchParams ToString].
        rewrite Ht. unfold append. rewrite Ef. reflexivity.
  - rewrite (@CallTool_request _ _ args
               (lit "/vault/search?"
                  ++ URLSearchParams_toString
                       [(lit "query", ToUSVString q);
                        (lit "scope", lit "content,filename,tags")])
               no_options net log).
    + cbn [snd]. rewrite new_calls_app. intros [<-|[]].
      exists (form_urlencode (ToUSVString q)), [].
      split; [|split].
      * cbn [call_of url]. rewrite base_api_path, two_params.
        now rewrite List.app_nil_r.
      * apply form_urlencode_separator_free.
      * now left.
    + rewrite switch_search_vault, H1, H2. unfold searchVault.
      cbn [default_to call_join join_elems ToString_json bindR lift bind ret
           new_URLSearchParams ToString].
      rewrite Ht. reflexivity.
Qed.

Lemma search_text_cannot_add_parameters_witness :
  exists text tail,
    lit "http://localhost:8000/api/vault/search?query=a%26scope%3Dtags%23&scope=content%2Cfilename%2Ctags"
    = Config.baseUrl example_config ++ lit "/api" ++ lit "/vault/search?query="
        ++ text ++ lit "&scope=content%2Cfilename%2Ctags" ++ tail
    /\ separator_free text
    /\ (tail = []
        \/ exists filter,
             tail = lit "&path_filter=" ++ filter /\ separator_free filter).
Proof.
  apply (@search_text_cannot_add_parameters example_config
           (Some [(lit "query", JStr (lit "a&scope=tags#"))])
           (example_network 200 (lit "OK") (inr JNull)) []
           (lit "a&scope=tags#")
           {| url := lit "http://localhost:8000/api/vault/search?query=a%26scope%3Dtags%23&scope=content%2Cfilename%2Ctags";
              init := no_options;
              Net.headers := [(lit "Content-Type", lit "application/json");
                              (lit "Accept", lit "application/json")] |}).
  - reflexivity.
  - reflexivity.
  - vm_compute. left. reflexivity.
Defined.

(** ** The earlier server *)

Module Legacy.
Import LegacyServer.

Section Clauses.
Variable this : ObsidianApiClient.t.

Lemma switch_list_files (args : Arguments) :
  switch this (lit "list_files") args = listFiles this.
Proof. reflexivity. Qed.


Lemma switch_create_file (args : Arguments) :
  switch this (lit "create_file") args
  = createFile this (arg args "path") (arg args "content") (arg args "type").
Proof. reflexivity. Qed.



Lemma switch_list_notes_legacy (args : Arguments) :
  switch this (lit "list_notes") args = listNotes this.
Proof. reflexivity. Qed.

Lemma switch_get_note_legacy (args : Arguments) :
  switch this (lit "get_note") args = getNote this (arg args "path").
Proof. reflexivity. Qed.

Lemma switch_create_note (args : Arguments) :
  switch this (lit "create_note") args
  = createNote this (arg args "path") (arg args "content")
      (arg args "frontmatter").
Proof. reflexivity. Qed.

Lemma switch_update_note (args : Arguments) :
  switch this (lit "update_note") args
  = updateNote this (arg args "path") (arg args "content")
      (arg args "frontmatter").
Proof. reflexivity. Qed.

Lemma switch_delete_note (args : Arguments) :
  switch this (lit "delete_note") args = deleteNote this (arg args "path").
Proof. reflexivity. Qed.

Lemma switch_search_notes (args : Arguments) :
  switch this (lit "search_notes") args = searchNotes this (arg args "query").
Proof. reflexivity. Qed.

Lemma switch_get_metadata_keys_legacy (args : Arguments) :
  switch this (lit "get_metadata_keys") args = getMetadataKeys this.
Proof. reflexivity. Qed.

Lemma switch_get_metadata_values_legacy (args : Arguments) :
  switch this (lit "get_metadata_values") args
  = getMetadataValues this (arg args "key").
Proof. reflexivity. Qed.

Lemma legacy_CallTool_throw (n : jsstring) (args : Arguments) (e : exn)
    (net : Network) (log : list FetchCall) :
  switch this n args = throw e ->
  CallTool this n args net log = (inr (error_result e), log).
Proof. intro H. unfold CallTool, try_catch, bind. rewrite H. reflexivity. Qed.

Lemma legacy_CallTool_request (n : jsstring) (args : Arguments)
    (path : jsstring) (options : RequestInit)
    (net : Network) (log : list FetchCall) :
  switch this n args = request this path options ->
  CallTool this n args net log
  = (inr (to_result (settle net (call_of this path options))),
     log ++ [call_of this path options]).
Proof.
  intro H. unfold CallTool, try_catch, bind. rewrite H, request_run.
  destruct (settle net _); reflexivity.
Qed.

End Clauses.

Lemma get_legacy : legacy_options no_options.
Proof. left. split; [now left | reflexivity]. Qed.

Lemma delete_legacy :
  legacy_options {| method := Some (lit "DELETE"); body := None |}.
Proof. left. split; [now right | reflexivity]. Qed.

Lemma post_legacy (b : jsstring) :
  legacy_options {| method := Some (lit "POST"); body := Some b |}.
Proof. right. split; [now left | now exists b]. Qed.

Lemma put_legacy (b : jsstring) :
  legacy_options {| method := Some (lit "PUT"); body := Some b |}.
Proof. right. split; [right; now left | now exists b]. Qed.

Lemma patch_legacy (b : jsstring) :
  legacy_options {| method := Some (lit "PATCH"); body := Some b |}.
Proof. right. split; [right; now right | now exists b]. Qed.

Ltac with_legacy_options :=
  repeat first
    [ apply with_request;
      first [ apply get_legacy | apply delete_legacy | apply post_legacy
            | apply put_legacy | apply patch_legacy ]
    | apply with_throw
    | apply with_lift_bind; intro
    | apply with_ret_bind ].

Lemma switch_legacy_options (this : ObsidianApiClient.t) (n : jsstring)
    (args : Arguments) :
  requests_with this legacy_options (switch this n args)
  /\ (select n (cases this) = None ->
      switch this n args = throw (Throw Error (lit "Unknown tool: " ++ n))).
Proof.
  unfold switch. destruct (select n (cases this)) as [run|] eqn:E;
    [|split; [apply with_throw | reflexivity]].
  split; [|discriminate].
  apply select_In in E. unfold cases in E. cbn [In] in E.
  repeat (destruct E as [E|E]; [injection E as _ <-|]); try contradiction.
  - unfold listFiles. with_legacy_options.
  - unfold getFile. with_legacy_options.
  - unfold createFile. with_legacy_options.
  - unfold updateFile. with_legacy_options.
  - unfold deleteFile. with_legacy_options.
  - unfold listNotes. with_legacy_options.
  - unfold getNote. with_legacy_options.
  - unfold createNote. with_legacy_options.
  - unfold updateNote. with_legacy_options.
  - unfold deleteNote. with_legacy_options.
  - unfold searchNotes. with_legacy_options.
  - unfold getMetadataKeys. with_legacy_options.
  - unfold getMetadataValues. with_legacy_options.
Qed.

(** X17. In the earlier server the [case] labels are the catalog names, in
    the same order and without repetition, and the [default] clause is
    reached exactly by the names outside the catalog. *)
Theorem legacy_catalog_and_dispatcher_in_lockstep :
  forall (client : ObsidianApiClient.t) (n : jsstring),
    List.map fst (cases client) = List.map name tools
    /\ NoDup (List.map name tools)
    /\ (select n (cases client) = None <-> ~ In n (List.map name tools)).
Proof.
  intros client n. split; [reflexivity|]. split.
  - unfold tools. cbn [List.map name].
    repeat (constructor; [cbn [In]; intro H;
                          repeat (destruct H as [H|H]; [discriminate H|]);
                          exact H|]).
    constructor.
  - rewrite select_None. change (List.map fst (cases client))
      with (List.map name tools). tauto.
Qed.

(** X18. The earlier handler, whatever the name and the arguments, returns
    a result with one text block and makes at most one request, under the
    base URL and [/api]: a [GET] or [DELETE] without a body, or a [POST],
    [PUT] or [PATCH] with one.  A name outside the catalog gives the error
    result that quotes the name, without any request. *)
Theorem legacy_handler_always_returns_one_text_block :
  forall (config : Config.t) (n : jsstring) (args : Arguments)
         (net : Network) (log : list FetchCall),
    exists (t : jsstring) (flag : option bool) (calls : list FetchCall),
      LegacyServer.handle config n args net log
      = (inr (text_result t flag), log ++ calls)
      /\ (flag = None \/ flag = Some true)
      /\ List.length calls <= 1
      /\ Forall (fun call =>
                   legacy_options (init call)
                   /\ exists path,
                        url call = Config.baseUrl config ++ lit "/api" ++ path)
           calls
      /\ (~ In n (List.map name tools) ->
          calls = [] /\ flag = Some true
          /\ t = lit "Error: Unknown tool: " ++ n).
Proof.
  intros config n args net log. unfold LegacyServer.handle.
  destruct (switch_legacy_options (constructor config) n args)
    as [[(e & H)|(path & options & Ho & H)] Hunknown].
  - rewrite (@legacy_CallTool_throw (constructor config) n args e net log H).
    exists (lit "Error: " ++ message e), (Some true), [].
    rewrite List.app_nil_r.
    refine (conj eq_refl (conj (or_intror eq_refl) (conj _ (conj _ _)))).
    + cbn. lia.
    + constructor.
    + intro Hn. apply (select_None n (cases (constructor config))) in Hn.
      apply Hunknown in Hn. rewrite H in Hn.
      assert (E : e = Throw Error (lit "Unknown tool: " ++ n)).
      { assert (K : fst (throw (A:=json) e net log)
                    = fst (throw (A:=json)
                             (Throw Error (lit "Unknown tool: " ++ n)) net log))
          by now rewrite Hn.
        cbn in K. now injection K. }
      rewrite E. repeat split; reflexivity.
  - rewrite (@legacy_CallTool_request (constructor config) n args path options
               net log H).
    assert (Hcall : Forall (fun call =>
                     legacy_options (init call)
                     /\ exists p, url call = Config.baseUrl config ++ lit "/api" ++ p)
                    [call_of (constructor config) path options]).
    { constructor; [|constructor]. split; [exact Ho|].
      exists path. cbn [call_of url]. apply base_api_path. }
    assert (Hknown : ~ In n (List.map name tools) -> False).
    { intro Hn. apply (select_None n (cases (constructor config))) in Hn.
      apply Hunknown in Hn. rewrite H in Hn.
      assert (K : snd (request (constructor config) path options net [])
                  = snd (throw (A:=json)
                           (Throw Error (lit "Unknown tool: " ++ n)) net []))
        by now rewrite Hn.
      rewrite request_run in K. discriminate K. }
    destruct (settle net _) as [e|v].
    + exists (lit "Error: " ++ message e), (Some true). eexists.
      refine (conj eq_refl (conj (or_intror eq_refl) (conj _ (conj Hcall _)))).
      * cbn. lia.
      * intro Hn. destruct (Hknown Hn).
    + exists (JSON_stringify_2 v), None. eexists.
      refine (conj eq_refl (conj (or_introl eq_refl) (conj _ (conj Hcall _)))).
      * cbn. lia.
      * intro Hn. destruct (Hknown Hn).
Qed.

End Legacy.

(** ** The earlier tools, one by one *)

Lemma legacy_sends_intro (config : Config.t) (n : string) (args : Arguments)
    (net : Network) (log : list FetchCall) (m : string) (path : jsstring)
    (options : RequestInit) :
  LegacyServer.switch (constructor config) (lit n) args
  = request (constructor config) path options ->
  match method options with Some x => x | None => lit "GET" end = lit m ->
  legacy_sends config n args net log m path (body options).
Proof.
  intros Hsw Hm. unfold legacy_sends, LegacyServer.handle.
  rewrite (@Legacy.legacy_CallTool_request _ (lit n) args path options net log Hsw).
  cbn [snd]. eexists. split; [reflexivity|].
  split; [exact Hm|]. split; [|reflexivity].
  cbn [call_of url]. apply base_api_path.
Qed.

Lemma encoded_request (this : ObsidianApiClient.t) (s seg : jsstring)
    (path_of : jsstring -> jsstring) (options : RequestInit) :
  encodeURIComponent_string s = inr seg ->
  (p <- lift (encodeURIComponent (Some (JStr s))) ;;
   request this (path_of p) options)
  = request this (path_of seg) options.
Proof.
  intro H. unfold encodeURIComponent.
  cbn [ToString ToString_json bindR]. rewrite H. reflexivity.
Qed.



(** X20. [create_file] sends the JSON object of [path], [content] and
    [type], where [type] is the argument as given (it is not checked
    against the declared enumeration) or ["file"] when it is left out. *)
Theorem legacy_create_file_defaults_to_a_file :
  forall (config : Config.t) (args : Arguments)
         (net : Network) (log : list FetchCall) (p c t : json),
    arg args "path" = Some p -> arg args "content" = Some c ->
    json_wf p = true -> json_wf c = true -> json_wf t = true ->
    arg args "type" = Some t
    \/ (arg args "type" = undefined /\ t = JStr (lit "file")) ->
    exists b,
      legacy_sends config "create_file" args net log "POST" (lit "/files") b
      /\ reads_as b [(lit "path", p); (lit "content", c); (lit "type", t)].
Proof.
  intros config args net log p c t Hp Hc Wp Wc Wt Ht. eexists. split.
  - apply (@legacy_sends_intro config "create_file" args net log "POST"
             (lit "/files")
             {| method := Some (lit "POST");
                body := Some (JSON_stringify
                                (JObj [(lit "path", p); (lit "content", c);
                                       (lit "type", t)])) |});
      [|reflexivity].
    rewrite Legacy.switch_create_file, Hp, Hc.
    destruct Ht as [Ht|[Ht ->]]; rewrite Ht; reflexivity.
  - apply reads_as_stringify. cbn [json_wf List.map fst forallb snd].
    rewrite Wp, Wc, Wt. reflexivity.
Qed.

Lemma legacy_create_file_defaults_to_a_file_witness :
  exists b,
    legacy_sends example_config "create_file"
      (Some [(lit "path", JStr (lit "a.md")); (lit "content", JStr (lit "x"))])
      (example_network 200 (lit "OK") (inr JNull)) []
      "POST" (lit "/files") b
    /\ reads_as b [(lit "path", JStr (lit "a.md")); (lit "content", JStr (lit "x"));
                   (lit "type", JStr (lit "file"))].
Proof.
  apply (@legacy_create_file_defaults_to_a_file example_config
           (Some [(lit "path", JStr (lit "a.md")); (lit "content", JStr (lit "x"))])
           (example_network 200 (lit "OK") (inr JNull)) []
           (JStr (lit "a.md")) (JStr (lit "x")) (JStr (lit "file")));
    try reflexivity.
  right. split; reflexivity.
Defined.

(** X21. An explicit [null] as [frontmatter] is treated differently by the
    two note tools of the earlier server: [create_note] leaves the key out
    of the body (it tests the value for truth), [update_note] sends
    [frontmatter: null] (it tests it against [undefined]). *)
Theorem legacy_null_frontmatter_is_dropped_on_create_and_kept_on_update :
  forall (config : Config.t) (args : Arguments)
         (net : Network) (log : list FetchCall) (s seg : jsstring) (c : json),
    arg args "path" = Some (JStr s) ->
    encodeURIComponent_string s = inr seg ->
    arg args "content" = Some c -> json_wf c = true ->
    arg args "frontmatter" = Some JNull ->
    (exists b,
        legacy_sends config "create_note" args net log "POST" (lit "/notes") b
        /\ reads_as b [(lit "path", JStr s); (lit "content", c)])
    /\ (exists b,
          legacy_sends config "update_note" args net log "PATCH"
            (lit "/notes/" ++ seg) b
          /\ reads_as b [(lit "content", c); (lit "frontmatter", JNull)]).
Proof.
  intros config args net log s seg c Hp Hs Hc Wc Hf. split.
  - eexists. split.
    + apply (@legacy_sends_intro config "create_note" args net log "POST"
               (lit "/notes")
               {| method := Some (lit "POST");
                  body := Some (JSON_stringify
                                  (JObj [(lit "path", JStr s);
                                         (lit "content", c)])) |});
        [|reflexivity].
      rewrite Legacy.switch_create_note, Hp, Hc, Hf. reflexivity.
    + apply reads_as_stringify. cbn [json_wf List.map fst forallb snd].
      rewrite Wc. reflexivity.
  - eexists. split.
    + apply (@legacy_sends_intro config "update_note" args net log "PATCH" _
               {| method := Some (lit "PATCH");
                  body := Some (JSON_stringify
                                  (JObj [(lit "content", c);
                                         (lit "frontmatter", JNull)])) |});
        [|reflexivity].
      rewrite Legacy.switch_update_note, Hp, Hc, Hf. unfold updateNote.
      exact (@encoded_request _ s seg (fun p => lit "/notes/" ++ p) _ Hs).
    + apply reads_as_stringify. cbn [json_wf List.map fst forallb snd].
      rewrite Wc. reflexivity.
Qed.

Lemma legacy_null_frontmatter_is_dropped_on_create_and_kept_on_update_witness :
  exists b,
    legacy_sends example_config "update_note"
      (Some [(lit "path", JStr (lit "a b")); (lit "content", JStr (lit "x"));
             (lit "frontmatter", JNull)])
      (example_network 200 (lit "OK") (inr JNull)) []
      "PATCH" (lit "/notes/a%20b") b
    /\ reads_as b [(lit "content", JStr (lit "x")); (lit "frontmatter", JNull)].
Proof.
  apply (proj2 (@legacy_null_frontmatter_is_dropped_on_create_and_kept_on_update
                  example_config
                  (Some [(lit "path", JStr (lit "a b"));
                         (lit "content", JStr (lit "x"));
                         (lit "frontmatter", JNull)])
                  (example_network 200 (lit "OK") (inr JNull)) []
                  (lit "a b") (lit "a%20b") (JStr (lit "x"))
                  eq_refl eq_refl eq_refl eq_refl eq_refl)).
Defined.

(** X22. [search_notes] writes its query into the URL with
    [encodeURIComponent]: a string that is well formed is sent as
    [/notes?search=] followed by one value, which holds none of
    [/ ? # & =]; another string gives the error result [URI malformed]
    and no request. *)
Theorem legacy_search_notes_sends_one_value :
  forall (config : Config.t) (args : Arguments)
         (net : Network) (log : list FetchCall) (q : jsstring),
    arg args "query" = Some (JStr q) ->
    (exists seg,
        encodeURIComponent_string q = inr seg
        /\ separator_free seg
        /\ legacy_sends config "search_notes" args net log "GET"
             (lit "/notes?search=" ++ seg) None)
    \/ (isWellFormed q = false
        /\ LegacyServer.handle config (lit "search_notes") args net log
           = (inr (text_result (lit "Error: URI malformed") (Some true)), log)).
Proof.
  intros config args net log q Hq.
  destruct (isWellFormed q) eqn:W.
  - left. destruct (encodeURIComponent_string q) as [e|seg] eqn:E.
    { unfold encodeURIComponent_string in E. rewrite W in E. discriminate E. }
    exists seg. split; [reflexivity|].
    split; [now apply (segment_separator_free q)|].
    apply (@legacy_sends_intro config "search_notes" args net log "GET" _
             no_options); [|reflexivity].
    rewrite Legacy.switch_search_notes, Hq. unfold searchNotes.
    exact (@encoded_request _ q seg (fun p => lit "/notes?search=" ++ p) _ E).
  - right. split; [reflexivity|].
    unfold LegacyServer.handle.
    apply (@Legacy.legacy_CallTool_throw (constructor config)
             (lit "search_notes") args (Throw URIError (lit "URI malformed"))
             net log).
    rewrite Legacy.switch_search_notes, Hq.
    unfold searchNotes, encodeURIComponent.
    cbn [ToString ToString_json bindR].
    unfold encodeURIComponent_string. rewrite W. reflexivity.
Qed.

Lemma legacy_search_notes_sends_one_value_witness :
  (exists seg,
      encodeURIComponent_string (lit "a&b=c") = inr seg
      /\ separator_free seg
      /\ legacy_sends example_config "search_notes"
           (Some [(lit "query", JStr (lit "a&b=c"))])
           (example_network 200 (lit "OK") (inr JNull)) []
           "GET" (lit "/notes?search=" ++ seg) None)
  \/ (isWellFormed (lit "a&b=c") = false
      /\ LegacyServer.handle example_config (lit "search_notes")
           (Some [(lit "query", JStr (lit "a&b=c"))])
           (example_network 200 (lit "OK") (inr JNull)) []
         = (inr (text_result (lit "Error: URI malformed") (Some true)), [])).
Proof.
  apply (@legacy_search_notes_sends_one_value example_config
           (Some [(lit "query", JStr (lit "a&b=c"))])
           (example_network 200 (lit "OK") (inr JNull)) [] (lit "a&b=c")).
  reflexivity.
Defined.

(** X23. The four tools the later server keeps from the earlier one
    behave as before: [get_note], [get_metadata_keys] and
    [get_metadata_values] always, [list_notes] whenever [search] is
    missing or not truthy.  The earlier [list_notes] does not read its
    arguments: it always asks for [/notes]. *)
Theorem kept_tools_behave_as_in_the_earlier_server :
  forall (config : Config.t) (n : jsstring) (args : Arguments)
         (net : Network) (log : list FetchCall),
    (In n [lit "get_note"; lit "get_metadata_keys"; lit "get_metadata_values"]
     \/ (n = lit "list_notes" /\ truthy (arg args "search") = false) ->
     handle config n args net log = LegacyServer.handle config n args net log)
    /\ legacy_sends config "list_notes" args net log "GET" (lit "/notes") None.
Proof.
  intros config n args net log. split.
  - intro H.
    enough (E : switch (constructor config) n args
                = LegacyServer.switch (constructor config) n args).
    { unfold handle, LegacyServer.handle, CallTool, LegacyServer.CallTool.
      now rewrite E. }
    destruct H as [H|[-> H]].
    + cbn [In] in H. destruct H as [<-|[<-|[<-|[]]]]; reflexivity.
    + rewrite switch_list_notes, H. reflexivity.
  - apply (@legacy_sends_intro config "list_notes" args net log "GET" _
             no_options); reflexivity.
Qed.

Lemma kept_tools_behave_as_in_the_earlier_server_witness :
  handle example_config (lit "list_notes")
    (Some [(lit "search", JStr (lit ""))])
    (example_network 200 (lit "OK") (inr JNull)) []
  = LegacyServer.handle example_config (lit "list_notes")
      (Some [(lit "search", JStr (lit ""))])
      (example_network 200 (lit "OK") (inr JNull)) [].
Proof.
  apply (proj1 (kept_tools_behave_as_in_the_earlier_server example_config
                  (lit "list_notes") (Some [(lit "search", JStr (lit ""))])
                  (example_network 200 (lit "OK") (inr JNull)) [])).
  right. split; reflexivity.
Defined.

(** ** The command line and the environment *)

Lemma includes_In (args : list jsstring) (x : string) :
  Cli.includes args x = true <-> In (lit x) args.
Proof.
  unfold Cli.includes. rewrite existsb_exists. split.
  - intros (y & Hy & E). apply eqb_eq in E. now subst.
  - intro H. exists (lit x). split; [exact H | apply eqb_refl].
Qed.

Lemma version_flag_includes (args : list jsstring) :
  Cli.includes args "--version" || Cli.includes args "-v" = true
  <-> version_flag args.
Proof.
  unfold version_flag. rewrite orb_true_iff, !includes_In. reflexivity.
Qed.

Lemma help_flag_includes (args : list jsstring) :
  Cli.includes args "--help" || Cli.includes args "-h" = true
  <-> help_flag args.
Proof.
  unfold help_flag. rewrite orb_true_iff, !includes_In. reflexivity.
Qed.

(** X24. The flags are looked for after the first two entries of
    [process.argv], in any position.  A version flag wins over a help
    flag: the version of [package.json] is printed (or reading it fails)
    and the usage text is not; a help flag alone prints the usage text;
    both exit with code 0.  The server is started exactly when none of the
    four flags is there. *)
Theorem command_line_flags_are_read_in_any_position :
  forall (argv : list jsstring) (package : result json),
    (version_flag (skipn 2 argv) ->
     Cli.cli argv package
     = match bindR package Cli.version_of with
       | inl e => Cli.Uncaught e
       | inr version => Cli.Exit version 0
       end)
    /\ (~ version_flag (skipn 2 argv) -> help_flag (skipn 2 argv) ->
        Cli.cli argv package = Cli.Exit (Some (JStr Cli.help_text)) 0)
    /\ (Cli.cli argv package = Cli.Proceed
        <-> ~ version_flag (skipn 2 argv) /\ ~ help_flag (skipn 2 argv))
    /\ (forall argv' : list jsstring,
          (forall x, In x (skipn 2 argv) <-> In x (skipn 2 argv')) ->
          Cli.cli argv package = Cli.cli argv' package).
Proof.
  intros argv package.
  assert (V := version_flag_includes (skipn 2 argv)).
  assert (H := help_flag_includes (skipn 2 argv)).
  assert (Hv : version_flag (skipn 2 argv) ->
               Cli.cli argv package
               = match bindR package Cli.version_of with
                 | inl e => Cli.Uncaught e
                 | inr version => Cli.Exit version 0
                 end).
  { intro F. apply V in F. unfold Cli.cli. cbv zeta. now rewrite F. }
  assert (Hh : ~ version_flag (skipn 2 argv) -> help_flag (skipn 2 argv) ->
               Cli.cli argv package = Cli.Exit (Some (JStr Cli.help_text)) 0).
  { intros NF F. apply H in F. unfold Cli.cli. cbv zeta.
    destruct (Cli.includes (skipn 2 argv) "--version"
              || Cli.includes (skipn 2 argv) "-v") eqn:E.
    - destruct NF. now apply V.
    - now rewrite F. }
  assert (Hp : Cli.cli argv package = Cli.Proceed
               <-> ~ version_flag (skipn 2 argv) /\ ~ help_flag (skipn 2 argv)).
  { split.
    - intro P. split; intro F.
      + rewrite (Hv F) in P. destruct (bindR package Cli.version_of); discriminate P.
      + unfold Cli.cli in P. cbv zeta in P.
        destruct (Cli.includes (skipn 2 argv) "--version"
                  || Cli.includes (skipn 2 argv) "-v").
        * destruct (bindR package Cli.version_of); discriminate P.
        * apply H in F. rewrite F in P. discriminate P.
    - intros [NV NH]. unfold Cli.cli. cbv zeta.
      destruct (Cli.includes (skipn 2 argv) "--version"
                || Cli.includes (skipn 2 argv) "-v"); [destruct NV; now apply V|].
      destruct (Cli.includes (skipn 2 argv) "--help"
                || Cli.includes (skipn 2 argv) "-h"); [destruct NH; now apply H|].
      reflexivity. }
  split; [exact Hv|]. split; [exact Hh|]. split; [exact Hp|].
  intros argv' S. unfold Cli.cli. cbv zeta.
  assert (I : forall x, Cli.includes (skipn 2 argv) x
                        = Cli.includes (skipn 2 argv') x).
  { intro x. apply eq_true_iff_eq. rewrite !includes_In. apply S. }
  now rewrite !I.
Qed.

(** X25. [main] takes the base URL from [OBSIDIAN_API_URL], or the default
    when the variable is unset or empty, and the key from
    [OBSIDIAN_API_KEY].  A URL the validation refuses ends the process
    with code 1; otherwise every request of the server it builds goes
    under that URL and [/api], with the [Authorization] header exactly
    when the key is set and not empty. *)
Theorem main_configures_the_client_from_the_environment :
  forall (zod_url : jsstring -> bool)
         (OBSIDIAN_API_URL OBSIDIAN_API_KEY : option jsstring),
    (zod_url (effective_url OBSIDIAN_API_URL) = false
     /\ Main.main zod_url OBSIDIAN_API_URL OBSIDIAN_API_KEY = Main.Fatal 1)
    \/ (zod_url (effective_url OBSIDIAN_API_URL) = true
        /\ exists config,
             Main.main zod_url OBSIDIAN_API_URL OBSIDIAN_API_KEY
             = Main.Serving config
             /\ forall (n : jsstring) (args : Arguments) (net : Network)
                       (log : list FetchCall) (call : FetchCall),
                  In call (new_calls log (snd (handle config n args net log))) ->
                  (exists path,
                      url call
                      = effective_url OBSIDIAN_API_URL ++ lit "/api" ++ path)
                  /\ Net.headers call
                     = [(lit "Content-Type", lit "application/json");
                        (lit "Accept", lit "application/json")]
                       ++ match OBSIDIAN_API_KEY with
                          | Some (c :: key) =>
                              [(lit "Authorization", lit "Bearer " ++ c :: key)]
                          | _ => []
                          end).
Proof.
  intros zod_url u k.
  assert (E : Main.parseConfig zod_url u k
              = if zod_url (effective_url u)
                then Some {| Config.baseUrl := effective_url u;
                             Config.apiKey := k |}
                else None).
  { unfold Main.parseConfig, effective_url. destruct u as [[|c u]|]; reflexivity. }
  unfold Main.main. rewrite E.
  destruct (zod_url (effective_url u)); [right | left; split; reflexivity].
  split; [reflexivity|]. eexists. split; [reflexivity|].
  intros n args net log call.
  destruct (handle_shape {| Config.baseUrl := effective_url u; Config.apiKey := k |}
              n args) as [(e & H)|(path & options & _ & _ & H)];
    rewrite H; cbn [snd].
  - rewrite new_calls_nil. intros [].
  - rewrite new_calls_app. intros [<-|[]]. split.
    + exists path. cbn [call_of url].
      apply (base_api_path {| Config.baseUrl := effective_url u;
                              Config.apiKey := k |}).
    + cbn [call_of Net.headers]. apply constructor_headers.
Qed.

(** ** The catalogs *)

(** X26. The input schemas of both catalogs are consistent: each is an
    object schema whose property names are distinct, each required name
    is a declared property that has no default, and each declared default
    is accepted by its own property schema. *)
Theorem catalog_schemas_are_consistent :
  forall t : ToolDefinition,
    In t (tools ++ LegacyServer.tools) ->
    type (inputSchema t) = lit "object"
    /\ NoDup (declared t)
    /\ (forall r, In r (required_names t) ->
          In r (declared t) /\ get (declared_defaults t) r = None)
    /\ (forall k p d,
          In (k, p) (properties (inputSchema t)) -> p_default p = Some d ->
          default_fits p d).
Proof.
  intros t Ht. unfold tools, LegacyServer.tools in Ht. cbn [app In] in Ht.
  repeat (destruct Ht as [<-|Ht]); try contradiction;
    (split; [reflexivity|]);
    (split;
     [ unfold declared; cbn [inputSchema properties List.map fst];
       repeat (constructor;
               [cbn [In]; intro H;
                repeat (destruct H as [H|H]; [discriminate H|]); exact H|]);
       constructor |]);
    (split;
     [ unfold required_names; cbn [inputSchema required In];
       intros r Hr; repeat (destruct Hr as [<-|Hr]); try contradiction;
       (split; [cbn; tauto | reflexivity])
     | cbn [inputSchema properties In]; intros k p d Hp Hd;
       repeat (destruct Hp as [[= <- <-]|Hp]); try contradiction;
       cbn [p_default] in Hd; try discriminate Hd;
       injection Hd as <-;
       (split; [reflexivity|]);
       (split; cbn [p_enum p_items];
        [ intros e [= <-] || (intros e He; discriminate He)
        | intros i [= <-] || (intros i Hi; discriminate Hi) ]) ]).
  all: try (eexists; split; [reflexivity | cbn; tauto]).
  - exists [lit "content"; lit "filename"; lit "tags"].
    split; [reflexivity|]. split; [reflexivity | apply incl_refl].
  - exists [lit "tags"; lit "links"].
    split; [reflexivity|]. split; [reflexivity | apply incl_refl].
Qed.

Lemma catalog_schemas_are_consistent_witness :
  name (nth 7 tools list_notes_tool) = lit "search_vault"
  /\ (forall r, In r (required_names (nth 7 tools list_notes_tool)) ->
        In r (declared (nth 7 tools list_notes_tool))
        /\ get (declared_defaults (nth 7 tools list_notes_tool)) r = None)
  /\ (forall k p d,
        In (k, p) (properties (inputSchema (nth 7 tools list_notes_tool))) ->
        p_default p = Some d -> default_fits p d).
Proof.
  assert (H : In (nth 7 tools list_notes_tool) (tools ++ LegacyServer.tools)).
  { apply in_or_app. left. apply nth_In. cbn. lia. }
  destruct (@catalog_schemas_are_consistent (nth 7 tools list_notes_tool) H)
    as (_ & _ & R & D).
  split; [reflexivity|]. split; [exact R | exact D].
Defined.

(* ===================================================================== *)
(** * Concrete runs                                                       *)
(* ===================================================================== *)

Example encode_slash :
  encodeURIComponent (Some (JStr (lit "folder/note")))
  = inr (lit "folder%2Fnote").
Proof. reflexivity. Qed.

Example encode_unpaired_surrogate :
  encodeURIComponent (Some (JStr [0xD800%N]))
  = inl (Throw URIError (lit "URI malformed")).
Proof. reflexivity. Qed.

Example read_file_unpaired_surrogate :
  handle example_config (lit "read_file")
    (Some [(lit "path", JStr [0xD800%N])])
    (example_network 200 (lit "OK") (inr JNull)) []
  = (inr (text_result (lit "Error: URI malformed") (Some true)), []).
Proof. vm_compute. reflexivity. Qed.

Example list_directory_defaults :
  List.map url
    (snd (handle example_config (lit "list_directory") None
            (example_network 200 (lit "OK") (inr JNull)) []))
  = [lit "http://localhost:8000/api/vault/directory?path=.&recursive=false&limit=50&offset=0"].
Proof. vm_compute. reflexivity. Qed.

Example search_vault_with_path_filter :
  List.map url
    (snd (handle example_config (lit "search_vault")
            (Some [(lit "query", JStr (lit "to do"));
                   (lit "path_filter", JStr (lit "Projects/"))])
            (example_network 200 (lit "OK") (inr JNull)) []))
  = [lit "http://localhost:8000/api/vault/search?query=to+do&scope=content%2Cfilename%2Ctags&path_filter=Projects%2F"].
Proof. vm_compute. reflexivity. Qed.

Example bearer_token_header :
  ObsidianApiClient.headers
    (constructor {| Config.baseUrl := lit "http://localhost:8000";
                    Config.apiKey := Some (lit "secret") |})
  = [(lit "Content-Type", lit "application/json");
     (lit "Accept", lit "application/json");
     (lit "Authorization", lit "Bearer secret")].
Proof. reflexivity. Qed.

Example stringify_indents :
  JSON_stringify_2 (JObj [(lit "n", JNum (-12)); (lit "l", JArr [JNull; JArr []])])
  = [123; 10; 32; 32; 34; 110; 34; 58; 32; 45; 49; 50; 44; 10;
     32; 32; 34; 108; 34; 58; 32; 91; 10;
     32; 32; 32; 32; 110; 117; 108; 108; 44; 10;
     32; 32; 32; 32; 91; 93; 10;
     32; 32; 93; 10; 125]%N.
Proof. vm_compute. reflexivity. Qed.

Example parse_orders_and_overwrites :
  JSON_parse
    (lit "{ " ++ QuoteJSONString (lit "b") ++ lit ": [1, -20 , [ ]],"
       ++ QuoteJSONString (lit "10") ++ lit ":true,"
       ++ QuoteJSONString (lit "2") ++ lit ":null ,"
       ++ QuoteJSONString (lit "b") ++ lit ": false } ")
  = Some (JObj [(lit "2", JNull); (lit "10", JBool true); (lit "b", JBool false)]).
Proof. vm_compute. reflexivity. Qed.

(** Numbers, from text to text. *)
Example numbers_read_and_written :
  List.map (fun text => option_map JSON_stringify (JSON_parse (lit text)))
    ["100"; "1.50"; "0.1"; "-2.5e-3"; "1e21"; "123456789012345680000";
     "0.000001"; "1e-7"; "9007199254740993"; "-0"; "1e999"; "1."; "01"]%string
  = [Some (lit "100"); Some (lit "1.5"); Some (lit "0.1"); Some (lit "-0.0025");
     Some (lit "1e+21"); Some (lit "123456789012345680000");
     Some (lit "0.000001"); Some (lit "1e-7"); Some (lit "9007199254740992");
     Some (lit "0"); Some (lit "null"); None; None].
Proof. vm_compute. reflexivity. Qed.

Example smallest_and_largest_numbers :
  List.map (fun text => option_map JSON_stringify (JSON_parse (lit text)))
    ["5e-324"; "2.4703282292062327e-324"; "1.7976931348623157e308";
     "1.7976931348623159e308"]%string
  = [Some (lit "5e-324"); Some (lit "0"); Some (lit "1.7976931348623157e+308");
     Some (lit "null")].
Proof. vm_compute. reflexivity. Qed.

Example measures_are_what_they_say :
  JSON_parse (lit "[1.5,-0.000001,1e21]")
  = Some (JArr [JFloat (Finite false 6755399441055744 (-52));
                JFloat (Finite true 4722366482869645 (-72));
                JFloat (Finite false 7629394531250000 17)]).
Proof. vm_compute. reflexivity. Qed.

Example negative_zero_comes_back_as_zero :
  JSON_parse (lit "-0") = Some (JFloat (Finite true 0 (-1074)))
  /\ JSON_stringify (JFloat (Finite true 0 (-1074))) = lit "0"
  /\ JSON_parse (lit "0") = Some (JNum 0).
Proof. repeat split; vm_compute; reflexivity. Qed.

Example limit_that_is_an_object_with_its_own_toString :
  fst (handle example_config (lit "get_recent_notes")
         (Some [(lit "limit", JObj [(lit "toString", JNum 1)])])
         (example_network 200 (lit "OK") (inr JNull)) [])
  = inr (text_result (lit "Error: limit.toString is not a function") (Some true)).
Proof. vm_compute. reflexivity. Qed.

Example scope_that_is_a_string :
  fst (handle example_config (lit "search_vault")
         (Some [(lit "query", JStr (lit "plan")); (lit "scope", JStr (lit "tags"))])
         (example_network 200 (lit "OK") (inr JNull)) [])
  = inr (text_result (lit "Error: scope.join is not a function") (Some true)).
Proof. vm_compute. reflexivity. Qed.

Example list_directory_with_a_limit_of_1e21 :
  List.map url
    (snd (handle example_config (lit "list_directory")
            (Some [(lit "limit", JFloat (Finite false 7629394531250000 17))])
            (example_network 200 (lit "OK") (inr JNull)) []))
  = [lit "http://localhost:8000/api/vault/directory?path=.&recursive=false&limit=1e%2B21&offset=0"].
Proof. vm_compute. reflexivity. Qed.

Example limit_beyond_the_safe_integers :
  Number_toString (10 ^ 21) = lit "1e+21".
Proof. vm_compute. reflexivity. Qed.

Example parse_rejects_trailing_comma : JSON_parse (lit "[1,]") = None.
Proof. vm_compute. reflexivity. Qed.
